(** * Company-Profile-AI-Generator: a shallow embedding of the pipeline

    The Python sources embedded here are
    - [html_generator.py]   (template scanning, value formatting, substitution),
    - [companies_profile.py] (Gemini queries, retry loop, data files),
    - [compiler.py]          (HTML to PDF),
    - [app_ui.py]            (the background worker [PipelineWorker.run]),
    - [main.py]              (the batch entry point).

    Conventions.
    - A Python [str] is a list of Unicode code points ([pystr]).
    - A JSON value is the inductive type [Json]; a [dict] is an association
      list in insertion order.
    - Everything outside the repository (network, clock, file system,
      WeasyPrint, the [json] and [re] modules, the builtins [str],
      [str.isalnum], [str.isspace]) is an oracle of the record [Env] or a
      field of the mutable [World].
    - Effects are explicit state passing over [World]; a Python exception is
      the outcome [Exc].  [print] writes to the console only and is left out.
    - Paths are [pathlib] paths of the POSIX flavour.  The file system is
      one map from directories to their regular files: what is written
      under a path is what is read under every path of the same file.  The
      operating system decides which directory a path denotes (the oracle
      [realpath]); no regular file has two names.
    - The file system does not fail: a directory can always be created and
      a file in it can always be written.  A regular file is readable text;
      a path that is a directory, or nothing, cannot be read.
    - The interpreter's recursion limit is the oracle [stack_room]. *)

From Stdlib Require Import ZArith NArith List Ascii String Lia Floats.SpecFloat.
From stdpp Require Import base list gmap sorting pretty.
Import ListNotations.

Set Warnings "-register-all,-clear-no-such-hyp".
Open Scope N_scope.

(** ** Python strings *)

Module PyStr.

Abbreviation pystr := (list N).

(** An ASCII literal as a Python string. *)
Definition u (s : string) : pystr := map N_of_ascii (list_ascii_of_string s).

Definition DOLLAR : N := 36.
Definition LBRACE : N := 123.
Definition RBRACE : N := 125.
Definition SPACE : N := 32.
Definition HYPHEN : N := 45.
Definition UNDERSCORE : N := 95.
Definition SLASH : N := 47.
Definition DOT : N := 46.

Definition between (lo hi c : N) : bool := (lo <=? c) && (c <=? hi).

Definition is_digit (c : N) : bool := between 48 57 c.
Definition is_upper (c : N) : bool := between 65 90 c.
Definition is_lower (c : N) : bool := between 97 122 c.

(** The character class [[a-zA-Z0-9_]]. *)
Definition is_ident_char (c : N) : bool :=
  is_lower c || is_upper c || is_digit c || (c =? UNDERSCORE).

(** The character class [[_a-z]] under [re.IGNORECASE] and [(?a:...)]. *)
Definition is_id_start (c : N) : bool :=
  is_lower c || is_upper c || (c =? UNDERSCORE).

(** The longest prefix whose characters satisfy [p], and what follows it:
    what a greedy [[...]*] consumes. *)
Fixpoint span (p : N → bool) (s : pystr) : pystr * pystr :=
  match s with
  | [] => ([], [])
  | c :: r => if p c then let '(run, rest) := span p r in (c :: run, rest)
              else ([], s)
  end.

(** [sep.join(xs)] *)
Fixpoint join (sep : pystr) (xs : list pystr) : pystr :=
  match xs with
  | [] => []
  | [x] => x
  | x :: xs' => x ++ sep ++ join sep xs'
  end.

(** [s.split(c)] for a single character. *)
Fixpoint split_char (c : N) (s : pystr) : list pystr :=
  match s with
  | [] => [[]]
  | d :: r =>
      if d =? c then [] :: split_char c r
      else match split_char c r with
           | x :: xs => (d :: x) :: xs
           | [] => [[d]]
           end
  end.

(** [s.replace(a, b)] for single characters. *)
Definition replace_char (a b : N) (s : pystr) : pystr :=
  map (λ c, if c =? a then b else c) s.

(** [s.lstrip()], [s.rstrip()], [s.strip()] for a whitespace table. *)
Fixpoint lstrip (ws : N → bool) (s : pystr) : pystr :=
  match s with
  | [] => []
  | c :: r => if ws c then lstrip ws r else s
  end.

Definition rstrip (ws : N → bool) (s : pystr) : pystr :=
  rev (lstrip ws (rev s)).

Definition strip (ws : N → bool) (s : pystr) : pystr :=
  rstrip ws (lstrip ws s).

(** [s.startswith(p)] *)
Fixpoint startswith (p s : pystr) : bool :=
  match p, s with
  | [], _ => true
  | _ :: _, [] => false
  | a :: p', b :: s' => (a =? b) && startswith p' s'
  end.

(** [s.endswith(p)] *)
Definition endswith (p s : pystr) : bool := startswith (rev p) (rev s).

(** [s.find(c)] as an option: [None] stands for [-1]. *)
Fixpoint find_char (c : N) (s : pystr) : option nat :=
  match s with
  | [] => None
  | d :: r => if d =? c then Some O else S <$> find_char c r
  end.

(** [s.rfind(c)] as an option: [None] stands for [-1]. *)
Definition rfind_char (c : N) (s : pystr) : option nat :=
  (λ i, (length s - 1 - i)%nat) <$> find_char c (rev s).

(** [s[a:b]] for [0 <= a] and [0 <= b]. *)
Definition slice (a b : nat) (s : pystr) : pystr := take (b - a) (drop a s).

(** Comparison of [str] values: lexicographic on code points. *)
Fixpoint str_leb (s t : pystr) : bool :=
  match s, t with
  | [], _ => true
  | _ :: _, [] => false
  | a :: s', b :: t' =>
      if a <? b then true else if a =? b then str_leb s' t' else false
  end.

Definition str_le (s t : pystr) : Prop := str_leb s t = true.

Definition str_lt (s t : pystr) : Prop := str_le s t ∧ s ≠ t.

#[global] Instance str_le_dec s t : Decision (str_le s t).
Proof. unfold str_le. apply _. Defined.

End PyStr.

Export PyStr.

(** ** JSON values, as [json.loads] produces them *)

Inductive Json :=
| JNone
| JBool (b : bool)
| JInt (n : Z)
| JFloat (f : spec_float)
| JStr (s : pystr)
| JList (l : list Json)
| JDict (d : list (pystr * Json)).

(** Truth value of a Python object, [bool(v)]. *)
Definition truthy (v : Json) : bool :=
  match v with
  | JNone => false
  | JBool b => b
  | JInt n => negb (n =? 0)%Z
  | JFloat (S754_zero _) => false
  | JFloat _ => true
  | JStr s => negb (bool_decide (s = []))
  | JList l => negb (bool_decide (l = []))
  | JDict d => negb (bool_decide (d = []))
  end.

(** [d[k] = v]: replace in place, or append. *)
Fixpoint dict_set (k : pystr) (v : Json) (d : list (pystr * Json))
  : list (pystr * Json) :=
  match d with
  | [] => [(k, v)]
  | (k', v') :: r =>
      if bool_decide (k' = k) then (k, v) :: r else (k', v') :: dict_set k v r
  end.

(** [d[k]], [None] for [KeyError]. *)
Fixpoint dict_get (k : pystr) (d : list (pystr * Json)) : option Json :=
  match d with
  | [] => None
  | (k', v') :: r => if bool_decide (k' = k) then Some v' else dict_get k r
  end.

(** ** pathlib: pure paths of the POSIX flavour *)

Module PyPath.

(** A parsed path: the root ([/], [//] or nothing) and the components. *)
Record PurePath := { root : pystr; parts : list pystr }.

(** [splitroot]: the root of a path string and the rest.  Two leading
    slashes are a root of their own, three or more are one slash. *)
Definition splitroot (part : pystr) : pystr * pystr :=
  let stripped_part := lstrip (λ c, c =? SLASH) part in
  match (length part - length stripped_part)%nat with
  | 0%nat => ([], part)
  | 2%nat => ([SLASH; SLASH], stripped_part)
  | _ => ([SLASH], stripped_part)
  end.

(** [Path(s)]: empty components and [.] are dropped, [..] is kept. *)
Definition Path (s : pystr) : PurePath :=
  let '(root, rel) := splitroot s in
  {| root := root;
     parts := filter (λ x, x ≠ [] ∧ x ≠ [DOT]) (split_char SLASH rel) |}.

(** [p / s]: an absolute [s] replaces [p]. *)
Definition joinpath (p : PurePath) (s : pystr) : PurePath :=
  let q := Path s in
  if bool_decide (root q ≠ []) then q
  else {| root := root p; parts := parts p ++ parts q |}.

(** [str(p)] *)
Definition path_str (p : PurePath) : pystr :=
  match root p, parts p with
  | [], [] => [DOT]
  | _, _ => root p ++ join [SLASH] (parts p)
  end.

(** [p.parent] as a string and [p.name], for a path with a name. *)
Definition parent_and_name (p : PurePath) : option (pystr * pystr) :=
  match reverse (parts p) with
  | [] => None
  | name :: before =>
      Some (path_str {| root := root p; parts := reverse before |}, name)
  end.

End PyPath.

Export PyPath.

(** ** Results of effectful code *)

Inductive Exn :=
| AttributeError (attr : pystr)
| ValueError (msg : pystr)
| TypeError (msg : pystr)
| RecursionError (msg : pystr)
| OtherError (msg : pystr).

(** [str(e)] *)
Definition exn_text (e : Exn) : pystr :=
  match e with
  | AttributeError attr =>
      u "'CorporateProfileGenerator' object has no attribute '" ++ attr ++ u "'"
  | ValueError msg => msg
  | TypeError msg => msg
  | RecursionError msg => msg
  | OtherError msg => msg
  end.

Inductive Res (A : Type) :=
| Ok (a : A)
| Exc (e : Exn).
Arguments Ok {A} a.
Arguments Exc {A} e.

(** The results of a sequence of evaluations, up to the first exception. *)
Fixpoint collect {A} (rs : list (Res A)) : Res (list A) :=
  match rs with
  | [] => Ok []
  | Exc e :: _ => Exc e
  | Ok a :: rest =>
      match collect rest with
      | Ok l => Ok (a :: l)
      | Exc e => Exc e
      end
  end.

Definition res_map {A B} (f : A → B) (r : Res A) : Res B :=
  match r with
  | Ok a => Ok (f a)
  | Exc e => Exc e
  end.

(** ** The outside world *)

(** What [requests.post] does: a response with a status code and a body, or
    an exception. *)
Inductive HttpOutcome :=
| HttpResponse (status : Z) (body : pystr)
| HttpRaises.

(** What a call into [logo_finder] or WeasyPrint does. *)
Inductive Call (A : Type) :=
| Returns (a : A)
| Raises (msg : pystr).
Arguments Returns {A} a.
Arguments Raises {A} msg.

(** Oracles for everything that is not code of the repository.  They are
    fixed during a run; the number of the request or of the flag read lets
    an answer change over time. *)
Record Env := {
  (** [str.isalnum] and [str.isspace] on one character *)
  isalnum : N → bool;
  isspace : N → bool;
  (** the builtin [str] on a value that is no string: its text, when it
      returns *)
  py_str : Json → pystr;
  (** the exception [str] raises on a value, if it does, with so many
      activations of [_format_value] on the stack: [RecursionError] on a
      container nested too deep, [ValueError] on an integer beyond the
      digit limit *)
  str_raises : nat → Json → option Exn;
  (** The recursion limit of the interpreter, as [generate_html_content]
      meets it: the number of activations (calls of [_format_value] and
      generator expressions in it) that fit on the stack inside a call of
      [generate_html_content], and the text of the [RecursionError] raised
      for one more. *)
  stack_room : nat;
  recursion_text : pystr;
  (** [json.loads]; [None] when it raises *)
  json_loads : pystr → option Json;
  (** the text [json.dump(v, f, indent=2)] writes *)
  json_dumps : Json → pystr;
  (** the [n]-th [requests.post], to [url] with the prompt [text] *)
  http_post : nat → pystr → pystr → HttpOutcome;
  (** [datetime.now().strftime('%Y-%m-%d %H:%M')] and [strftime('%H%M')] *)
  clock_stamp : pystr;
  clock_hhmm : pystr;
  (** the directory that a path denotes to the operating system, by its
      canonical name ([os.path.realpath]): the working directory, [..]
      and symbolic links are resolved here *)
  realpath : pystr → pystr;
  (** the message of the exception [open] raises on a path *)
  open_error : pystr → pystr;
  (** [PipelineWorker.is_running] at its [n]-th read; the UI thread clears
      it through [stop] *)
  running_at : nat → bool;
  (** The module [logo_finder] is not among the sources; its two functions
      are taken as they are called.
      [logo_finder._google_images_search(query)]: a URL or [None] *)
  logo_search : pystr → Call (option pystr);
  (** [logo_finder._download_image(url, dir, filename)]: the bytes stored
      under [filename] on success, [None] for a [False] result *)
  logo_download : pystr → pystr → pystr → Call (option pystr);
  (** [HTML(filename=..., base_url=...).write_pdf(...)] for an entry of a
      directory with the given content: the PDF bytes, or an exception *)
  write_pdf : pystr → pystr → pystr → Call pystr;
  (** [WEASYPRINT_AVAILABLE]: did [from weasyprint import HTML] succeed *)
  weasyprint_available : bool;
}.

(** Signals of [WorkerSignals].  A log line keeps the data the source
    formats into it, not the HTML markup around it. *)
Inductive LogLine :=
| LPhase0 | LNoVariables | LFoundFields (n : nat) (first5 : list pystr)
| LPhase1 | LSearching (company : pystr) | LSaved | LGenerationFailed
| LCooldown
| LPhase2 | LLogoExists (company : pystr) | LSearchingLogo (company : pystr)
| LDownloaded | LDownloadFailed | LNoImage
| LPhase3 | LBuilt (safe_name : pystr) | LHtmlError
| LPhase4 | LComplete | LPdfErrors.

Inductive Signal :=
| SigLog (l : LogLine)
| SigProgress (v : Z)
| SigFinished
| SigError (msg : pystr).

(** What a run does to the outside, in order. *)
Inductive Event :=
| EvHttp (url text : pystr)
| EvSleep (seconds : Z)
| EvWrite (dir name : pystr)
| EvLogoSearch (query : pystr)
| EvLogoDownload (url dir name : pystr)
| EvRender (dir name : pystr)
| EvSignal (s : Signal).

(** The mutable part: environment variable, file system, and what
    happened. *)
Record World := {
  api_key_env : option pystr;            (* [os.getenv('GEMINI_API_KEY')] *)
  dirs : gmap pystr (gmap pystr pystr);  (* the directories that exist, by
                                            canonical name: the name of
                                            each regular file and its
                                            content *)
  requests_sent : nat;
  flag_reads : nat;
  trace : list Event;
}.

Definition emit (e : Event) (w : World) : World :=
  {| api_key_env := api_key_env w; dirs := dirs w;
     requests_sent := requests_sent w; flag_reads := flag_reads w;
     trace := trace w ++ [e] |}.

Definition set_dirs (d : gmap pystr (gmap pystr pystr)) (w : World) : World :=
  {| api_key_env := api_key_env w; dirs := d;
     requests_sent := requests_sent w; flag_reads := flag_reads w;
     trace := trace w |}.

Definition count_request (w : World) : World :=
  {| api_key_env := api_key_env w; dirs := dirs w;
     requests_sent := S (requests_sent w); flag_reads := flag_reads w;
     trace := trace w |}.

Definition count_flag_read (w : World) : World :=
  {| api_key_env := api_key_env w; dirs := dirs w;
     requests_sent := requests_sent w; flag_reads := S (flag_reads w);
     trace := trace w |}.

Section FileSystem.
Context (E : Env).

(** The directory [Path(dir)] denotes. *)
Definition dir_key (dir : pystr) : pystr := realpath E (path_str (Path dir)).

(** The regular files of a directory, none when it does not exist. *)
Definition entries (dir : pystr) (w : World) : gmap pystr pystr :=
  default ∅ (dirs w !! dir_key dir).

(** [Path(dir).exists()] for a directory. *)
Definition dir_exists (dir : pystr) (w : World) : bool :=
  bool_decide (is_Some (dirs w !! dir_key dir)).

(** [Path(dir).mkdir(exist_ok=True)] *)
Definition mkdir (dir : pystr) (w : World) : World :=
  match dirs w !! dir_key dir with
  | Some _ => w
  | None => set_dirs (<[dir_key dir := ∅]> (dirs w)) w
  end.

(** The file [name] of [Path(dir)] gets the content [content]. *)
Definition store (dir name content : pystr) (w : World) : World :=
  set_dirs (<[dir_key dir := <[name := content]> (entries dir w)]> (dirs w)) w.

(** [open(Path(dir) / name, 'w')] followed by writing [content], for a
    file name [name]. *)
Definition write_file (dir name content : pystr) (w : World) : World :=
  emit (EvWrite dir name) (store dir name content w).

(** Entries of a directory whose name ends with [suffix]: [Path.glob("*" + suffix)]. *)
Definition glob_suffix (suffix dir : pystr) (w : World) : list pystr :=
  filter (λ name, endswith suffix name = true)
         (map fst (map_to_list (entries dir w))).

(** [(Path(dir) / name).exists()] for a file name [name]. *)
Definition entry_exists (dir name : pystr) (w : World) : bool :=
  bool_decide (is_Some (entries dir w !! name)).

(** [open(Path(path), 'r').read()]: the content of the regular file that
    the path names in its parent directory; [None] when [open] raises. *)
Definition read_file (path : pystr) (w : World) : option pystr :=
  match parent_and_name (Path path) with
  | Some (parent, name) => entries parent w !! name
  | None => None
  end.

(** [Path(path).exists()]: a regular file or a directory. *)
Definition path_exists (path : pystr) (w : World) : bool :=
  bool_decide (is_Some (read_file path w)) || dir_exists path w.

End FileSystem.

(** [Path.stem] of an entry name: the name without its last suffix. *)
Definition stem (name : pystr) : pystr :=
  match rfind_char 46 name with
  | Some (S i) => if bool_decide (S i < length name - 1)%nat
                  then take (S i) name else name
  | _ => name
  end.

Definition M (A : Type) : Type := World → Res A * World.

#[global] Instance M_ret : MRet M := λ A a w, (Ok a, w).

#[global] Instance M_bind : MBind M := λ A B k m w,
  match m w with
  | (Ok a, w') => k a w'
  | (Exc e, w') => (Exc e, w')
  end.

#[global] Instance M_fmap : FMap M := λ A B f m w,
  match m w with
  | (Ok a, w') => (Ok (f a), w')
  | (Exc e, w') => (Exc e, w')
  end.

Definition raise {A} (e : Exn) : M A := λ w, (Exc e, w).
Definition act (f : World → World) : M unit := λ w, (Ok tt, f w).
Definition get {A} (f : World → A) : M A := λ w, (Ok (f w), w).

(** A step that reads the world and may raise. *)
Definition get_or_raise {A} (f : World → Res A) : M A := λ w, (f w, w).

(** [try: m except Exception: h] *)
Definition try_except {A} (m : M A) (h : Exn → M A) : M A :=
  λ w, match m w with
       | (Ok a, w') => (Ok a, w')
       | (Exc e, w') => h e w'
       end.

(** [s.replace(old, '')]: every occurrence of [old], left to right, without
    overlap, is removed. *)
Fixpoint remove_sub_fuel (fuel : nat) (old s : pystr) : pystr :=
  match fuel with
  | O => s
  | S f =>
      match s with
      | [] => []
      | c :: r =>
          if bool_decide (old ≠ []) && startswith old s
          then remove_sub_fuel f old (drop (length old) s)
          else c :: remove_sub_fuel f old r
      end
  end.

Definition remove_sub (old s : pystr) : pystr :=
  remove_sub_fuel (length s) old s.

(** ** html_generator.py *)

Module HtmlGenerator.

(** The object keeps [Path(template_path)]; the field is the string the
    path is made from, and every use parses it. *)
Record HtmlProfileGenerator := { template_path : pystr }.

(** [HtmlProfileGenerator(template_path)] *)
Definition new_generator (template_path : pystr) : HtmlProfileGenerator :=
  {| template_path := template_path |}.

(** [SYSTEM_VARIABLES] *)
Definition SYSTEM_VARIABLES : gset pystr :=
  {[ u "timestamp"; u "case_number"; u "logo_filename" ]}.

(** One attempt of the pattern [\$\{([a-zA-Z0-9_]+)\}] at the start of [s]:
    the captured group and the text after the match. *)
Definition match_placeholder (s : pystr) : option (pystr * pystr) :=
  match s with
  | c1 :: c2 :: r =>
      if (c1 =? DOLLAR) && (c2 =? LBRACE) then
        match span is_ident_char r with
        | ((_ :: _) as id, c3 :: r') =>
            if c3 =? RBRACE then Some (id, r') else None
        | _ => None
        end
      else None
  | _ => None
  end.

(** [re.findall(pattern, content)]: matches are taken left to right and do
    not overlap; the search resumes one character further after a failure
    and right after the match after a success. *)
Fixpoint findall_fuel (fuel : nat) (s : pystr) : list pystr :=
  match fuel with
  | O => []
  | S f =>
      match s with
      | [] => []
      | _ :: r =>
          match match_placeholder s with
          | Some (id, r') => id :: findall_fuel f r'
          | None => findall_fuel f r
          end
      end
  end.

Definition findall (content : pystr) : list pystr :=
  findall_fuel (length content) content.

Section WithEnv.
Context (E : Env).

(** [get_template_variables]: a missing or unreadable template gives [[]]. *)
Definition get_template_variables (self : HtmlProfileGenerator) (w : World)
  : list pystr :=
  match read_file E (template_path self) w with
  | None => []
  | Some content =>
      let found_vars := findall content in
      let ai_required_vars : gset pystr :=
        list_to_set found_vars ∖ SYSTEM_VARIABLES in
      merge_sort str_le (elements ai_required_vars)
  end.

(** The text of [str(value)]: a string is its own text. *)
Definition str_text (value : Json) : pystr :=
  match value with
  | JStr s => s
  | _ => py_str E value
  end.

(** [str(value)] with [depth] activations on the stack. *)
Definition str_at (depth : nat) (value : Json) : Res pystr :=
  match value with
  | JStr s => Ok s
  | _ =>
      match str_raises E depth value with
      | Some e => Exc e
      | None => Ok (py_str E value)
      end
  end.

(** Is there room on the stack for one more activation above [depth]? *)
Definition stack_full (depth : nat) : bool := negb (depth <? stack_room E)%nat.

(** [_format_value], called with [depth] activations on the stack.  The
    call is one activation and the generator expression of a list or a dict
    is another one; the interpreter raises [RecursionError] instead of
    entering an activation for which the stack has no room. *)
Fixpoint _format_value (depth : nat) (value : Json) : Res pystr :=
  if stack_full depth then Exc (RecursionError (recursion_text E))
  else
    match value with
    | JList l =>
        if stack_full (S depth) then Exc (RecursionError (recursion_text E))
        else res_map (join (u ", "))
               (collect (map (_format_value (S (S depth))) l))
    | JDict d =>
        if stack_full (S depth) then Exc (RecursionError (recursion_text E))
        else res_map (join (u ", "))
               (collect (map (str_at (S (S depth)))
                             (filter (λ v, truthy v = true) (map snd d))))
    | JNone => Ok (u "N/A")
    | _ => str_at (S depth) value
    end.

(** [string.Template]: the identifier pattern of the class, one character
    of [[_a-z]] then any number of [[_a-z0-9]], ASCII only and with
    [re.IGNORECASE], matched greedily at the start of [s]. *)
Definition match_id (s : pystr) : option (pystr * pystr) :=
  match s with
  | c :: r =>
      if is_id_start c
      then let '(run, rest) := span is_ident_char r in Some (c :: run, rest)
      else None
  | [] => None
  end.

(** The groups of [Template.pattern], tried in this order after a [$]. *)
Inductive TemplateMatch :=
| Escaped
| Named (id : pystr)
| Braced (id : pystr)
| Invalid.

(** The alternative that matches the text [s] after a [$], and the text
    after the whole match. *)
Definition template_match (s : pystr) : TemplateMatch * pystr :=
  match s with
  | [] => (Invalid, [])
  | c :: r =>
      if c =? DOLLAR then (Escaped, r)
      else match match_id s with
           | Some (id, rest) => (Named id, rest)
           | None =>
               if c =? LBRACE then
                 match match_id r with
                 | Some (id, c' :: rest) =>
                     if c' =? RBRACE then (Braced id, rest) else (Invalid, s)
                 | _ => (Invalid, s)
                 end
               else (Invalid, s)
           end
  end.

(** [convert] of [safe_substitute]: the replacement of one match. *)
Definition convert (mapping : gmap pystr pystr) (m : TemplateMatch) : pystr :=
  match m with
  | Named id => default ([DOLLAR] ++ id) (mapping !! id)
  | Braced id => default ([DOLLAR; LBRACE] ++ id ++ [RBRACE]) (mapping !! id)
  | Escaped => [DOLLAR]
  | Invalid => [DOLLAR]
  end.

(** [Template(s).safe_substitute(mapping)], that is
    [pattern.sub(convert, s)]. *)
Fixpoint substitute_fuel (fuel : nat) (mapping : gmap pystr pystr) (s : pystr)
  : pystr :=
  match fuel with
  | O => []
  | S f =>
      match s with
      | [] => []
      | c :: r =>
          if c =? DOLLAR then
            let '(m, rest) := template_match r in
            convert mapping m ++ substitute_fuel f mapping rest
          else c :: substitute_fuel f mapping r
      end
  end.

Definition safe_substitute (mapping : gmap pystr pystr) (s : pystr) : pystr :=
  substitute_fuel (length s) mapping s.

(** The loop [for key, value in company_info.items()]: the first
    exception of [_format_value] ends it. *)
Fixpoint add_items (items : list (pystr * Json)) (context : gmap pystr pystr)
  : Res (gmap pystr pystr) :=
  match items with
  | [] => Ok context
  | (key, value) :: rest =>
      match _format_value 0 value with
      | Ok s => add_items rest (<[key := s]> context)
      | Exc e => Exc e
      end
  end.

(** The context of [generate_html_content]: the system values, then every
    item of [company_info] when it is a [dict]. *)
Definition build_context (company_info : Json) : Res (gmap pystr pystr) :=
  let context : gmap pystr pystr :=
    <[u "case_number" := u "OP-D-V-" ++ clock_hhmm E]>
      (<[u "timestamp" := clock_stamp E]> ∅) in
  match company_info with
  | JDict d => add_items d context
  | _ => Ok context
  end.

(** The page of the [except] branch. *)
Definition error_page (self : HtmlProfileGenerator) : pystr :=
  let path := path_str (Path (template_path self)) in
  u "<h1>Error generating profile</h1><p>Template: " ++ path
    ++ u "<br>Error: " ++ open_error E path ++ u "</p>".

(** [generate_html_content]: the values are formatted before the [try];
    every exception of the substitution step is caught and turned into an
    error page. *)
Definition generate_html_content (self : HtmlProfileGenerator)
  (company_info : Json) (w : World) : Res pystr :=
  match build_context company_info with
  | Exc e => Exc e
  | Ok context =>
      Ok match read_file E (template_path self) w with
         | Some template_str => safe_substitute context template_str
         | None => error_page self
         end
  end.

End WithEnv.

End HtmlGenerator.

(** ** companies_profile.py *)

Module CompaniesProfile.

(** The attributes of a [CorporateProfileGenerator] object.  Methods that
    assign to [self] return the updated object. *)
Record CorporateProfileGenerator := {
  api_key : pystr;
  models : list pystr;
  working_model : option pystr;
}.

Definition set_working_model (m : pystr) (self : CorporateProfileGenerator)
  : CorporateProfileGenerator :=
  {| api_key := api_key self; models := models self; working_model := Some m |}.

(** The methods the class defines; an attribute outside this list raises
    [AttributeError] on lookup. *)
Definition methods : list pystr :=
  [u "__init__"; u "find_working_model"; u "query_gemini";
   u "generate_company_info"; u "process_company"].

Definition model_url (model : pystr) : pystr :=
  u "https://generativelanguage.googleapis.com/v1beta/models/" ++ model
    ++ u ":generateContent".

Definition NEWLINE : N := 10.

Section WithEnv.
Context (E : Env).

(** [CorporateProfileGenerator(api_key=...)] *)
Definition init (key : option pystr) : M CorporateProfileGenerator := λ w,
  let chosen :=
    match key with
    | Some ((_ :: _) as k) => Some k
    | _ => api_key_env w
    end in
  match chosen with
  | Some ((_ :: _) as k) =>
      (Ok {| api_key := k; models := [u "gemini-2.5-flash"];
             working_model := None |}, w)
  | _ =>
      (Exc (ValueError (u "Gemini API key is required. Set GEMINI_API_KEY environment variable.")), w)
  end.

(** [requests.post(f"{url}?key={self.api_key}", ...)] carrying [text]. *)
Definition post (self : CorporateProfileGenerator) (url text : pystr)
  : M HttpOutcome := λ w,
  let full := url ++ u "?key=" ++ api_key self in
  (Ok (http_post E (requests_sent w) full text),
   count_request (emit (EvHttp full text) w)).

(** The loop of [find_working_model] over the remaining models. *)
Fixpoint try_models (self : CorporateProfileGenerator) (ms : list pystr)
  : M (option pystr * CorporateProfileGenerator) :=
  match ms with
  | [] => mret (None, self)
  | model :: ms' =>
      let url := model_url model in
      r ← post self url (u "Return the word 'OK'");
      match r with
      | HttpResponse status _ =>
          if (status =? 200)%Z
          then mret (Some url, set_working_model model self)
          else try_models self ms'
      | HttpRaises => try_models self ms'
      end
  end.

Definition find_working_model (self : CorporateProfileGenerator)
  : M (option pystr * CorporateProfileGenerator) :=
  try_models self (models self).

(** [v[key]] and [v[0]]; [None] when the subscript raises. *)
Definition subscript_key (k : pystr) (v : Json) : option Json :=
  match v with
  | JDict d => dict_get k d
  | _ => None
  end.

Definition subscript_0 (v : Json) : option Json :=
  match v with
  | JList (x :: _) => Some x
  | JStr (c :: _) => Some (JStr [c])
  | _ => None
  end.

(** [response.json()['candidates'][0]['content']['parts'][0]['text']] *)
Definition extract_text (body : pystr) : option Json :=
  v ← json_loads E body;
  v ← subscript_key (u "candidates") v;
  v ← subscript_0 v;
  v ← subscript_key (u "content") v;
  v ← subscript_key (u "parts") v;
  v ← subscript_0 v;
  subscript_key (u "text") v.

(** The loop [for attempt in range(3)] of [query_gemini], with [n]
    iterations left.  The result is [JNone] for Python's [None]. *)
Fixpoint attempts (n : nat) (self : CorporateProfileGenerator)
  (base_url prompt : pystr) : M Json :=
  match n with
  | O => mret JNone
  | S n' =>
      r ← post self base_url prompt;
      match r with
      | HttpResponse status body =>
          if (status =? 200)%Z then mret (default JNone (extract_text body))
          else if (status =? 429)%Z then
            act (emit (EvSleep 20));; attempts n' self base_url prompt
          else mret JNone
      | HttpRaises => mret JNone
      end
  end.

(** [query_gemini].  [not self.working_model] holds of [None] and of the
    empty string. *)
Definition query_gemini (self : CorporateProfileGenerator) (prompt : pystr)
  : M (Json * CorporateProfileGenerator) :=
  match working_model self with
  | None | Some [] =>
      '(base_url, self') ← find_working_model self;
      match base_url with
      | None => mret (JNone, self')
      | Some base_url =>
          r ← attempts 3 self' base_url prompt; mret (r, self')
      end
  | Some m =>
      r ← attempts 3 self (model_url m) prompt; mret (r, self)
  end.

(** The prompt of [generate_company_info]. *)
Definition prompt_for (company_name : pystr) (required_fields : list pystr)
  : pystr :=
  let fields_list_str :=
    join [NEWLINE] (map (λ f, u "- " ++ f) required_fields) in
  let indent := u "        " in
  join [NEWLINE]
    [ [];
      indent ++ u "Generate a comprehensive, realistic but fictional corporate profile for a company named '" ++ company_name ++ u "'.";
      indent ++ u "The output must be a single JSON object.";
      indent;
      indent ++ u "Include exactly these JSON keys:";
      indent ++ fields_list_str;
      indent;
      indent ++ u "Guidelines:";
      indent ++ u "- Information must be realistic enough for training scenarios.";
      indent ++ u "- For address fields, provide full plausible addresses.";
      indent ++ u "- For lists (like key_technologies or aliases), provide 3-5 items.";
      indent ++ u "- If you cannot find real data, invent realistic details consistent with the company's industry.";
      indent ++ u "- Return ONLY the JSON object.";
      indent ].

(** The cleaning and parsing of a truthy [result] that is a string;
    [JNone] when a step raises (the [except] branch, whose [result[:100]]
    is fine on a string) or when no brace is found. *)
Definition parse_text (result : pystr) : Json :=
  let clean_json := strip (isspace E) result in
  let clean_json :=
    if startswith (u "```json") clean_json then drop 7 clean_json
    else clean_json in
  let clean_json :=
    if endswith (u "```") clean_json
    then take (length clean_json - 3) clean_json
    else clean_json in
  match find_char LBRACE clean_json with
  | Some start_idx =>
      let end_idx :=
        match rfind_char RBRACE clean_json with
        | Some i => S i
        | None => O
        end in
      default JNone (json_loads E (slice start_idx end_idx clean_json))
  | None => JNone
  end.

(** The exception of [result[:100]] on a value that is neither a string
    nor a list: a number and a boolean are not subscriptable, and a dict
    takes the slice for a key, which is not hashable. *)
Definition slice_error (result : Json) : Exn :=
  match result with
  | JBool _ => TypeError (u "'bool' object is not subscriptable")
  | JInt _ => TypeError (u "'int' object is not subscriptable")
  | JFloat _ => TypeError (u "'float' object is not subscriptable")
  | JDict _ => TypeError (u "unhashable type: 'slice'")
  | _ => TypeError (u "'NoneType' object is not subscriptable")
  end.

(** [generate_company_info].  A truthy [result] that is no string has no
    [strip]: the [except] branch is entered, and its [result[:100]] is
    fine on a list and raises on a number, a boolean or a dict. *)
Definition generate_company_info (self : CorporateProfileGenerator)
  (company_name : pystr) (required_fields : list pystr)
  : M (Json * CorporateProfileGenerator) :=
  '(result, self') ← query_gemini self (prompt_for company_name required_fields);
  if truthy result then
    match result with
    | JStr s => mret (parse_text s, self')
    | JList _ => mret (JNone, self')
    | _ => raise (slice_error result)
    end
  else mret (JNone, self').

(** The file-name-safe version of a company name. *)
Definition safe_name_of (company_name : pystr) : pystr :=
  let kept :=
    filter (λ c, (isalnum E c || bool_decide (c ∈ [SPACE; HYPHEN; UNDERSCORE])) = true)
           company_name in
  replace_char SPACE UNDERSCORE (strip (isspace E) kept).

Definition data_file_name (company_name : pystr) : pystr :=
  safe_name_of company_name ++ u "_data.json".

(** [process_company]: the result pair is [(True, fname)] or [(False, None)];
    a path is the pair of its directory and entry name. *)
Definition process_company (self : CorporateProfileGenerator)
  (company_name : pystr) (required_fields : list pystr) (output_dir : pystr)
  : M (bool * option (pystr * pystr) * CorporateProfileGenerator) :=
  act (mkdir E output_dir);;
  '(info, self') ← generate_company_info self company_name required_fields;
  if truthy info then
    let fname := data_file_name company_name in
    act (write_file E output_dir fname (json_dumps E info));;
    mret (true, Some (output_dir, fname), self')
  else mret (false, None, self').

End WithEnv.

End CompaniesProfile.

(** ** Python floats, as far as the progress computation needs them *)

Module PyFloat.

Open Scope Z_scope.

(** A finite, non-negative binary64 value [mant * 2 ^ expo].  The results
    of [round53] have [2^52 <= mant <= 2^53], or are zero. *)
Record float := { mant : Z; expo : Z }.

(** The fraction [n / (d * 2^e)] for a positive or negative [e], as a
    numerator and a positive denominator. *)
Definition scaled (n d e : Z) : Z * Z :=
  (n * 2 ^ Z.max (- e) 0, d * 2 ^ Z.max e 0).

(** The integer nearest to [n / d], ties to even. *)
Definition round_half_even (n d : Z) : Z :=
  let q := n / d in
  let r := n mod d in
  if 2 * r <? d then q
  else if d <? 2 * r then q + 1
  else if Z.even q then q else q + 1.

(** [floor (log2 (n / d))] for positive [n] and [d]. *)
Definition ilog2 (n d : Z) : Z :=
  let e0 := Z.log2 n - Z.log2 d in
  let '(n', d') := scaled n d e0 in
  if n' <? d' then e0 - 1 else e0.

(** The binary64 value nearest to [n / d], ties to even, for [0 <= n] and
    [0 < d]: 53 significant bits.  The exponent range is not bounded here:
    a quotient of two list lengths lies between [2^-64] and [2^64]. *)
Definition round53 (n d : Z) : float :=
  if n =? 0 then {| mant := 0; expo := 0 |}
  else
    let e := ilog2 n d - 52 in
    let '(n', d') := scaled n d e in
    {| mant := round_half_even n' d'; expo := e |}.

(** [a / b] on [int]s: the correctly rounded quotient. *)
Definition truediv (a b : Z) : float := round53 a b.

(** [x * k] for a float [x] and a small [int] [k]: [k] converts exactly and
    the product is rounded. *)
Definition mul_int (x : float) (k : Z) : float :=
  let '(n, d) := scaled (mant x) 1 (- expo x) in
  round53 (n * k) d.

(** [int(x)]: truncation. *)
Definition to_int (x : float) : Z :=
  let '(n, d) := scaled (mant x) 1 (- expo x) in n / d.

(** [int((current_step / total_steps) * 100)] *)
Definition percent (current_step total_steps : Z) : Z :=
  to_int (mul_int (truediv current_step total_steps) 100).

End PyFloat.

(** ** compiler.py *)

Module Compiler.

Section WithEnv.
Context (E : Env).

(** The loop over [html_files]: the number of successes and the names of
    the files that failed. *)
Fixpoint compile_files (source_dir : pystr) (html_files : list pystr)
  (success_count : nat) (failed_files : list pystr)
  : M (nat * list pystr) :=
  match html_files with
  | [] => mret (success_count, failed_files)
  | html_file :: rest =>
      let pdf_file := stem html_file ++ u ".pdf" in
      act (emit (EvRender source_dir html_file));;
      content ← get (λ w, default [] (entries E source_dir w !! html_file));
      match write_pdf E source_dir html_file content with
      | Returns pdf =>
          act (write_file E source_dir pdf_file pdf);;
          compile_files source_dir rest (S success_count) failed_files
      | Raises _ =>
          compile_files source_dir rest success_count (failed_files ++ [html_file])
      end
  end.

Definition compile_html_to_pdf (source_dir : pystr) : M bool :=
  if negb (weasyprint_available E) then mret false
  else
    exists_dir ← get (dir_exists E source_dir);
    if negb (exists_dir : bool) then mret false
    else
      html_files ← get (glob_suffix E (u ".html") source_dir);
      '(success_count, _) ← compile_files source_dir html_files O [];
      mret (bool_decide (0 < success_count)%nat).

End WithEnv.

End Compiler.

(** ** app_ui.py: the background worker *)

Module Worker.

Import HtmlGenerator CompaniesProfile Compiler.

Record PipelineWorker := {
  worker_api_key : pystr;
  companies : list pystr;
  output_dir : pystr;
  template_name : pystr;
}.

Section WithEnv.
Context (E : Env).

(** [PipelineWorker(api_key, companies, output_dir, template_name)] *)
Definition new_worker (key : pystr) (names : list pystr) (dir tpl : pystr)
  : PipelineWorker :=
  {| worker_api_key := key;
     companies :=
       map (strip (isspace E))
           (filter (λ c, strip (isspace E) c ≠ []) names);
     output_dir := dir;
     template_name := tpl |}.

Definition signal (s : Signal) : M unit := act (emit (EvSignal s)).
Definition log (l : LogLine) : M unit := signal (SigLog l).

(** One read of [self.is_running]. *)
Definition is_running : M bool := λ w,
  (Ok (running_at E (flag_reads w)), count_flag_read w).

(** [for _ in range(n): if not self.is_running: return; time.sleep(1)];
    [false] when the worker returned. *)
Fixpoint cooldown (n : nat) : M bool :=
  match n with
  | O => mret true
  | S n' =>
      r ← is_running;
      if r : bool then act (emit (EvSleep 1));; cooldown n' else mret false
  end.

Section Run.
Context (self : PipelineWorker).

Definition total_steps : Z := (Z.of_nat (length (companies self)) * 3 + 1)%Z.

Definition emit_progress (current_step : Z) : M unit :=
  signal (SigProgress (PyFloat.percent current_step total_steps)).

(** Phase 1; [None] when the worker returned inside the loop. *)
Fixpoint phase1 (ai_gen : CorporateProfileGenerator)
  (required_fields : list pystr) (todo : list pystr) (current_step : Z)
  : M (option Z) :=
  match todo with
  | [] => mret (Some current_step)
  | company :: rest =>
      r ← is_running;
      if negb (r : bool) then mret None
      else
        log (LSearching company);;
        '(success, _, ai_gen') ←
          process_company E ai_gen company required_fields (output_dir self);
        log (if success : bool then LSaved else LGenerationFailed);;
        let current_step := (current_step + 1)%Z in
        emit_progress current_step;;
        continue ←
          (if bool_decide (rest ≠ [])
           then log LCooldown;; cooldown 10
           else mret true);
        if continue : bool then phase1 ai_gen' required_fields rest current_step
        else mret None
  end.

Definition safe_name_of_file (json_file : pystr) : pystr :=
  remove_sub (u "_data") (stem json_file).

(** The body of the loop of phase 2, up to the step counter. *)
Definition acquire_logo (json_file : pystr) : M unit :=
  let safe_name := safe_name_of_file json_file in
  let company_name := replace_char UNDERSCORE SPACE safe_name in
  let logo_filename := safe_name ++ u "_logo.png" in
  logo_exists ← get (entry_exists E (output_dir self) logo_filename);
  if logo_exists : bool then log (LLogoExists company_name)
  else
    log (LSearchingLogo company_name);;
    let query := company_name ++ u " logo" in
    act (emit (EvLogoSearch query));;
    match logo_search E query with
    | Raises msg => raise (OtherError msg)
    | Returns (Some ((_ :: _) as img_url)) =>
        act (emit (EvLogoDownload img_url (output_dir self) logo_filename));;
        match logo_download E img_url (output_dir self) logo_filename with
        | Raises msg => raise (OtherError msg)
        | Returns (Some bytes) =>
            act (store E (output_dir self) logo_filename bytes);;
            log LDownloaded
        | Returns None => log LDownloadFailed
        end
    | Returns _ => log LNoImage
    end.

(** Phase 2 *)
Fixpoint phase2 (json_files : list pystr) (current_step : Z) : M (option Z) :=
  match json_files with
  | [] => mret (Some current_step)
  | json_file :: rest =>
      r ← is_running;
      if negb (r : bool) then mret None
      else
        acquire_logo json_file;;
        let current_step := (current_step + 1)%Z in
        emit_progress current_step;;
        phase2 rest current_step
  end.

(** The body of the [try] in phase 3 *)
Definition build_html (html_gen : HtmlProfileGenerator) (json_file : pystr)
  : M unit :=
  let safe_name := safe_name_of_file json_file in
  let logo_filename := safe_name ++ u "_logo.png" in
  text ← get (λ w, entries E (output_dir self) w !! json_file);
  match text ≫= json_loads E with
  | Some (JDict data) =>
      let data := dict_set (u "logo_filename") (JStr logo_filename) data in
      html_content ← get_or_raise (generate_html_content E html_gen (JDict data));
      act (write_file E (output_dir self) (safe_name ++ u "_profile.html") html_content);;
      log (LBuilt safe_name)
  | _ => raise (OtherError [])
  end.

(** Phase 3 *)
Fixpoint phase3 (html_gen : HtmlProfileGenerator) (json_files : list pystr)
  (current_step : Z) : M (option Z) :=
  match json_files with
  | [] => mret (Some current_step)
  | json_file :: rest =>
      r ← is_running;
      if negb (r : bool) then mret None
      else
        try_except (build_html html_gen json_file) (λ _, log LHtmlError);;
        let current_step := (current_step + 1)%Z in
        emit_progress current_step;;
        phase3 html_gen rest current_step
  end.

(** The body of the outer [try] of [run], in two parts.  The first part
    runs from the start to the end of phase 1; its result is [None] when
    the worker returned, and the HTML generator and the step counter
    otherwise. *)
Definition analyse_and_generate : M (option (HtmlProfileGenerator * Z)) :=
  let current_step := 0%Z in
  act (mkdir E (output_dir self));;
  log LPhase0;;
  let template_path :=
    path_str (joinpath (Path (u "templates")) (template_name self)) in
  template_exists ← get (path_exists E template_path);
  if negb (template_exists : bool)
  then signal (SigError (u "Template not found: " ++ template_path));; mret None
  else
    let html_gen := new_generator template_path in
    required_fields ← get (get_template_variables E html_gen);
    log (match required_fields with
         | [] => LNoVariables
         | _ => LFoundFields (length required_fields) (take 5 required_fields)
         end);;
    log LPhase1;;
    made ← try_except (Some <$> init (Some (worker_api_key self)))
                      (λ e, signal (SigError (exn_text e));; mret None);
    match made with
    | None => mret None
    | Some ai_gen =>
        s1 ← phase1 ai_gen required_fields (companies self) current_step;
        match s1 with
        | None => mret None
        | Some current_step => mret (Some (html_gen, current_step))
        end
    end.

(** The second part: phases 2, 3 and 4. *)
Definition acquire_build_render (html_gen : HtmlProfileGenerator)
  (current_step : Z) : M unit :=
  log LPhase2;;
  json_files ← get (glob_suffix E (u "_data.json") (output_dir self));
  s2 ← phase2 json_files current_step;
  match s2 with
  | None => mret tt
  | Some current_step =>
      log LPhase3;;
      s3 ← phase3 html_gen json_files current_step;
      match s3 with
      | None => mret tt
      | Some _ =>
          log LPhase4;;
          success ← compile_html_to_pdf E (output_dir self);
          log (if success : bool then LComplete else LPdfErrors);;
          signal (SigProgress 100);;
          signal SigFinished
      end
  end.

Definition run_body : M unit :=
  reached ← analyse_and_generate;
  match reached with
  | None => mret tt
  | Some (html_gen, current_step) => acquire_build_render html_gen current_step
  end.

(** [PipelineWorker.run] *)
Definition run : M unit :=
  try_except run_body
    (λ e, signal (SigError (u "Critical Pipeline Error: " ++ exn_text e))).

End Run.
End WithEnv.

End Worker.

(** ** main.py: the batch entry point *)

Module Main.

Import HtmlGenerator CompaniesProfile Compiler.

Definition OUTPUT_DIR : pystr := u "output".
Definition TEMPLATE_FILE : pystr := u "profile_template.html".

Definition TARGET_COMPANIES : list pystr :=
  [u "Nokia"; u "Rovio Entertainment"; u "Kone"; u "Supercell"].

Section WithEnv.
Context (E : Env).

(** [ai_gen.process_companies_from_list(companies, output_dir)]: the
    attribute is looked up on the object first; the class defines the
    methods listed in [CompaniesProfile.methods] and no other, so the lookup
    of any other name raises before anything is called. *)
Definition process_companies_from_list (ai_gen : CorporateProfileGenerator)
  (names : list pystr) (dir : pystr) : M unit :=
  let attr := u "process_companies_from_list" in
  if bool_decide (attr ∈ methods) then mret tt
  else raise (AttributeError attr).

(** Step 2, the loop over the data files *)
Fixpoint acquire_logos (json_files : list pystr) : M unit :=
  match json_files with
  | [] => mret tt
  | json_file :: rest =>
      let safe_name := remove_sub (u "_data") (stem json_file) in
      let company_name := replace_char UNDERSCORE SPACE safe_name in
      let logo_filename := safe_name ++ u "_logo.png" in
      logo_exists ← get (entry_exists E OUTPUT_DIR logo_filename);
      if logo_exists : bool then acquire_logos rest
      else
        let query := company_name ++ u " logo" in
        act (emit (EvLogoSearch query));;
        match logo_search E query with
        | Raises msg => raise (OtherError msg)
        | Returns (Some ((_ :: _) as img_url)) =>
            act (emit (EvLogoDownload img_url OUTPUT_DIR logo_filename));;
            match logo_download E img_url OUTPUT_DIR logo_filename with
            | Raises msg => raise (OtherError msg)
            | Returns (Some bytes) =>
                act (store E OUTPUT_DIR logo_filename bytes)
            | Returns None => mret tt
            end
        | Returns _ => mret tt
        end;;
        act (emit (EvSleep 1));;
        acquire_logos rest
  end.

(** Step 3, the body of the [try] for one data file *)
Definition build_dossier (html_gen : HtmlProfileGenerator) (json_file : pystr)
  : M unit :=
  let safe_name := remove_sub (u "_data") (stem json_file) in
  let logo_filename := safe_name ++ u "_logo.png" in
  text ← get (λ w, entries E OUTPUT_DIR w !! json_file);
  match text ≫= json_loads E with
  | Some (JDict data) =>
      let data := dict_set (u "logo_filename") (JStr logo_filename) data in
      html_content ← get_or_raise (generate_html_content E html_gen (JDict data));
      act (write_file E OUTPUT_DIR (safe_name ++ u "_profile.html") html_content)
  | _ => raise (OtherError [])
  end.

Fixpoint build_dossiers (html_gen : HtmlProfileGenerator)
  (json_files : list pystr) : M unit :=
  match json_files with
  | [] => mret tt
  | json_file :: rest =>
      try_except (build_dossier html_gen json_file) (λ _, mret tt);;
      build_dossiers html_gen rest
  end.

(** [main()] *)
Definition main : M unit :=
  key ← get api_key_env;
  match key with
  | Some ((_ :: _) as key) =>
      act (mkdir E OUTPUT_DIR);;
      ai_gen ← init (Some key);
      process_companies_from_list ai_gen TARGET_COMPANIES OUTPUT_DIR;;
      json_files ← get (glob_suffix E (u "_data.json") OUTPUT_DIR);
      match json_files with
      | [] => mret tt
      | _ =>
          acquire_logos json_files;;
          let html_gen := new_generator TEMPLATE_FILE in
          build_dossiers html_gen json_files;;
          _ ← compile_html_to_pdf E OUTPUT_DIR;
          mret tt
      end
  | _ => mret tt
  end.

End WithEnv.

End Main.

(** ** Vocabulary of the statements *)

(** A non-empty word over [[a-zA-Z0-9_]]. *)
Definition is_identifier (id : pystr) : Prop :=
  id ≠ [] ∧ Forall (λ c, is_ident_char c = true) id.

(** [id] occurs in [content] as [${id}]. *)
Definition occurs_as_placeholder (id content : pystr) : Prop :=
  is_identifier id ∧
  ∃ pre post, content = pre ++ [DOLLAR; LBRACE] ++ id ++ RBRACE :: post.

(** One of the three keys of [SYSTEM_VARIABLES]. *)
Definition is_system_key (id : pystr) : Prop :=
  id = u "timestamp" ∨ id = u "case_number" ∨ id = u "logo_filename".

(** A value that is neither [None], a list nor a dict. *)
Definition is_scalar (v : Json) : Prop :=
  match v with
  | JNone | JList _ | JDict _ => False
  | _ => True
  end.

(** The items of a list with a comma and a space between any two of
    them. *)
Definition comma_separated (items : list pystr) : pystr :=
  match items with
  | [] => []
  | first :: others => first ++ concat (map (λ item, u ", " ++ item) others)
  end.

(** The truthy values of a dict, in its order. *)
Definition truthy_values (d : list (pystr * Json)) : list Json :=
  filter (λ v, truthy v = true) d.*2.

(** The formatting of a JSON value, in the words of its description:
    [None] gives [N/A]; a list gives its formatted elements, comma
    separated; a dict gives the text of [str] of its truthy values, comma
    separated and without recursion into them; another value gives the
    text of its [str]. *)
Fixpoint formatted (E : Env) (v : Json) : pystr :=
  match v with
  | JNone => u "N/A"
  | JList l => comma_separated (map (formatted E) l)
  | JDict d => comma_separated (map (HtmlGenerator.str_text E) (truthy_values d))
  | _ => HtmlGenerator.str_text E v
  end.

(** The activations that formatting a value puts on the stack, one above
    the other: the call itself, and for a list or a dict its generator
    expression, in which the elements of a list are formatted. *)
Fixpoint activations (v : Json) : nat :=
  match v with
  | JList l => 2 + foldr Nat.max O (map activations l)
  | JDict _ => 2
  | _ => 1
  end.

(** [str] raises on no value, at no depth. *)
Definition str_never_raises (E : Env) : Prop :=
  ∀ depth v, str_raises E depth v = None.

(** The value [v] inside [n] lists of one element. *)
Definition nested (n : nat) (v : Json) : Json :=
  Nat.iter n (λ x, JList [x]) v.

(** An identifier that [string.Template] accepts: it does not start with a
    digit. *)
Definition starts_like_id (id : pystr) : bool :=
  match id with
  | c :: _ => is_id_start c
  | [] => false
  end.

Definition is_template_id (id : pystr) : Prop :=
  is_identifier id ∧ starts_like_id id = true.

#[global] Instance is_identifier_dec id : Decision (is_identifier id).
Proof. unfold is_identifier. apply _. Defined.

#[global] Instance is_template_id_dec id : Decision (is_template_id id).
Proof. unfold is_template_id. apply _. Defined.

(** The text [${key}]. *)
Definition placeholder (key : pystr) : pystr :=
  [DOLLAR; LBRACE] ++ key ++ [RBRACE].

(** An ASCII letter or digit, [-] or [_]. *)
Definition ascii_safe (c : N) : bool :=
  is_digit c || is_upper c || is_lower c || (c =? HYPHEN) || (c =? UNDERSCORE).

(** A computation that leaves directories as they are, whatever its
    outcome. *)
Definition keeps_dirs {A} (m : M A) : Prop :=
  ∀ w, dirs (m w).2 = dirs w.

(** A computation that returns without an exception and leaves the file
    system and the environment variable as they are. *)
Definition read_only {A} (m : M A) : Prop :=
  ∀ w, ∃ a w', m w = (Ok a, w') ∧
    dirs w' = dirs w ∧ api_key_env w' = api_key_env w.

(** The address a request goes to, and the world after one request. *)
Definition request_url (self : CompaniesProfile.CorporateProfileGenerator)
  (url : pystr) : pystr :=
  url ++ u "?key=" ++ CompaniesProfile.api_key self.

Definition after_request (self : CompaniesProfile.CorporateProfileGenerator)
  (url prompt : pystr) (w : World) : World :=
  count_request (emit (EvHttp (request_url self url) prompt) w).

(** Does WeasyPrint render the entry [f] of [dir], as the directory is in
    [w]? *)
Definition renders (E : Env) (dir : pystr) (w : World) (f : pystr) : bool :=
  match write_pdf E dir f (default [] (entries E dir w !! f)) with
  | Returns _ => true
  | Raises _ => false
  end.

(** The files handed to WeasyPrint, in order. *)
Definition render_attempts (evs : list Event) : list pystr :=
  omap (λ e, match e with EvRender _ f => Some f | _ => None end) evs.

(** The two factors of [PyFloat.scaled]: their quotient is [2 ^ e]. *)
Definition pow_den (e : Z) : Z := (2 ^ Z.max e 0)%Z.
Definition pow_num (e : Z) : Z := (2 ^ Z.max (- e) 0)%Z.

(** The value of a float as a fraction, and the order of two values. *)
Definition frac (x : PyFloat.float) : Z * Z :=
  PyFloat.scaled (PyFloat.mant x) 1 (- PyFloat.expo x).

Definition float_le (x y : PyFloat.float) : Prop :=
  ((frac x).1 * (frac y).2 ≤ (frac y).1 * (frac x).2)%Z.

(** The phase a log line belongs to. *)
Definition phase_of_log (l : LogLine) : nat :=
  match l with
  | LPhase0 | LNoVariables | LFoundFields _ _ => 0
  | LPhase1 | LSearching _ | LSaved | LGenerationFailed | LCooldown => 1
  | LPhase2 | LLogoExists _ | LSearchingLogo _ | LDownloaded
  | LDownloadFailed | LNoImage => 2
  | LPhase3 | LBuilt _ | LHtmlError => 3
  | LPhase4 | LComplete | LPdfErrors => 4
  end.

(** The phase an event of the worker belongs to: 0 template analysis, 1 AI
    text generation, 2 logo acquisition, 3 HTML substitution, 4 PDF
    rendering.  Progress and error signals belong to no phase; a written
    file belongs to the phase that writes files of its kind. *)
Definition phase_of (e : Event) : option nat :=
  match e with
  | EvHttp _ _ => Some 1%nat
  | EvSleep _ => Some 1%nat
  | EvWrite _ name =>
      if endswith (u "_data.json") name then Some 1%nat
      else if endswith (u "_profile.html") name then Some 3%nat
      else if endswith (u ".pdf") name then Some 4%nat
      else None
  | EvLogoSearch _ => Some 2%nat
  | EvLogoDownload _ _ _ => Some 2%nat
  | EvRender _ _ => Some 4%nat
  | EvSignal (SigLog l) => Some (phase_of_log l)
  | EvSignal SigFinished => Some 4%nat
  | EvSignal (SigProgress _) => None
  | EvSignal (SigError _) => None
  end.

(** An event that may occur during phase [i]. *)
Definition in_phase (i : nat) (e : Event) : Prop :=
  phase_of e = None ∨ phase_of e = Some i.

(** The progress values emitted, in order. *)
Definition progress_values (evs : list Event) : list Z :=
  omap (λ e, match e with EvSignal (SigProgress v) => Some v | _ => None end) evs.

(** The companies whose processing was started, in order. *)
Definition searched (evs : list Event) : list pystr :=
  omap (λ e, match e with EvSignal (SigLog (LSearching c)) => Some c | _ => None end) evs.

(** The steps [c + 1], ..., [c + j]. *)
Definition steps (c : Z) (j : nat) : list Z :=
  map (λ i, (c + Z.of_nat i)%Z) (seq 1 j).

(** The data files the worker finds at the start of phase 2; none when the
    run ends before. *)
Definition data_files_found (E : Env) (self : Worker.PipelineWorker) (w : World)
  : list pystr :=
  match Worker.analyse_and_generate E self w with
  | (Ok (Some _), w1) => glob_suffix E (u "_data.json") (Worker.output_dir self) w1
  | _ => []
  end.

(** An event of phase [i] that is neither a progress or error signal nor
    the start of a company. *)
Definition plain (i : nat) (e : Event) : Prop :=
  phase_of e = Some i ∧
  match e with
  | EvSignal (SigLog (LSearching _)) => False
  | _ => True
  end.

(** A computation whose events all satisfy [P], whatever its outcome. *)
Definition only (P : Event → Prop) {A} (m : M A) : Prop :=
  ∀ w, ∃ evs, trace (m w).2 = trace w ++ evs ∧ Forall P evs.

(** A computation that returns without an exception and whose events all
    satisfy [P]. *)
Definition returns_only (P : Event → Prop) {A} (m : M A) : Prop :=
  ∀ w, ∃ a w' evs, m w = (Ok a, w') ∧ trace w' = trace w ++ evs ∧ Forall P evs.

(** The progress value of step [k] in a run of [self]. *)
Definition percent_of (self : Worker.PipelineWorker) (k : Z) : Z :=
  PyFloat.percent k (Worker.total_steps self).

(** ** Concrete inputs *)

Module Examples.

Definition empty_world : World :=
  {| api_key_env := None; dirs := ∅;
     requests_sent := O; flag_reads := O; trace := [] |}.

(** In the environments below a directory is denoted by its normalised
    path: one working directory, without links. *)
Definition plain_realpath (path : pystr) : pystr := path.

(** The world with a regular file at [path]. *)
Definition with_file (path content : pystr) (w : World) : World :=
  match parent_and_name (Path path) with
  | Some (parent, name) =>
      set_dirs (<[parent := <[name := content]> (default ∅ (dirs w !! parent))]>
                  (dirs w)) w
  | None => w
  end.

Definition with_key (key : pystr) (w : World) : World :=
  {| api_key_env := Some key;
     dirs := dirs w; requests_sent := requests_sent w;
     flag_reads := flag_reads w; trace := trace w |}.

(** A template that names two fields twice, a system key and a word that
    starts with a digit. *)
Definition sample_template : pystr :=
  u "<h1>${name}</h1><p>${city} ${timestamp} ${name} ${1st}</p>".

Definition sample_generator : HtmlGenerator.HtmlProfileGenerator :=
  {| HtmlGenerator.template_path := u "templates/profile.html" |}.

Definition sample_world : World :=
  with_file (u "templates/profile.html") sample_template empty_world.

(** [str.isalnum] and [str.isspace] on the code points below 256, as the
    Unicode database has them; no character beyond is used below. *)
Definition latin1_isalnum (c : N) : bool :=
  is_digit c || is_upper c || is_lower c
  || (c =? 170) || (c =? 178) || (c =? 179) || (c =? 181) || (c =? 185)
  || (c =? 186) || between 188 190 c || between 192 214 c
  || between 216 246 c || between 248 255 c.

Definition latin1_isspace (c : N) : bool :=
  between 9 13 c || between 28 32 c || (c =? 133) || (c =? 160).

(** [str] on [None], booleans, integers and strings; the inputs below hold
    no float and no container where [str] is applied.  [str] raises on no
    value, and the stack has room for 665 activations, as in CPython 3.11
    with its default recursion limit when [generate_html_content] is called
    from a script. *)
Definition scalar_str (v : Json) : pystr :=
  match v with
  | JNone => u "None"
  | JBool true => u "True"
  | JBool false => u "False"
  | JInt n => u (pretty n)
  | JStr s => s
  | _ => []
  end.

(** The bodies and file contents that occur below, with their parse. *)
Definition QUOTE : N := 34.

Definition nokia_profile : Json :=
  JDict [(u "name", JStr (u "Nokia")); (u "city", JStr (u "Espoo"))].

Definition nokia_text : pystr :=
  u "{" ++ [QUOTE] ++ u "name" ++ [QUOTE] ++ u ": " ++ [QUOTE] ++ u "Nokia"
    ++ [QUOTE] ++ u ", " ++ [QUOTE] ++ u "city" ++ [QUOTE] ++ u ": "
    ++ [QUOTE] ++ u "Espoo" ++ [QUOTE] ++ u "}".

(** A Gemini response body whose candidate text is [text]: the body is
    kept symbolic, as the tag [body:] followed by the text. *)
Definition body_with (text : pystr) : pystr := u "body:" ++ text.

Definition response_json (text : pystr) : Json :=
  JDict [(u "candidates",
          JList [JDict [(u "content",
                         JDict [(u "parts",
                                 JList [JDict [(u "text", JStr text)]])])]])].

Definition sample_loads (s : pystr) : option Json :=
  if bool_decide (s = nokia_text) then Some nokia_profile
  else if bool_decide (s = u "{}") then Some (JDict [])
  else if startswith (u "body:") s then Some (response_json (drop 5 s))
  else None.

Definition sample_dumps (v : Json) : pystr :=
  match v with
  | JDict [] => u "{}"
  | JDict _ => nokia_text
  | _ => u "null"
  end.

(** An environment in which the [n]-th request is answered by [answers n],
    the worker is never stopped, every logo search finds nothing and every
    rendering succeeds. *)
Definition sample_env (answers : nat → HttpOutcome) : Env :=
  {| isalnum := latin1_isalnum;
     isspace := latin1_isspace;
     py_str := scalar_str;
     str_raises := λ _ _, None;
     stack_room := 665;
     recursion_text := u "maximum recursion depth exceeded";
     json_loads := sample_loads;
     json_dumps := sample_dumps;
     http_post := λ n _ _, answers n;
     clock_stamp := u "2025-01-01 12:00";
     clock_hhmm := u "1200";
     realpath := plain_realpath;
     open_error := λ _, u "No such file or directory";
     running_at := λ _, true;
     logo_search := λ _, Returns None;
     logo_download := λ _ _ _, Returns None;
     write_pdf := λ _ _ _, Returns (u "%PDF");
     weasyprint_available := true |}.

Definition always (r : HttpOutcome) : nat → HttpOutcome := λ _, r.

(** A template whose only placeholder starts with a digit. *)
Definition digit_template : pystr := u "${1st}".

Definition digit_world : World :=
  with_file (u "templates/profile.html") digit_template empty_world.

Definition digit_info : list (pystr * Json) := [(u "1st", JStr (u "x"))].

Definition quiet_env : Env := sample_env (always HttpRaises).

Definition nokia_items : list (pystr * Json) :=
  [(u "name", JStr (u "Nokia")); (u "city", JStr (u "Espoo"))].

(** The name [Caf\u00e9]: its last character is the code point 233. *)
Definition cafe : pystr := [67; 97; 102; 233].

(** A generator as [__init__] leaves it, and one whose model is known. *)
Definition fresh_generator : CompaniesProfile.CorporateProfileGenerator :=
  {| CompaniesProfile.api_key := u "k";
     CompaniesProfile.models := [u "gemini-2.5-flash"];
     CompaniesProfile.working_model := None |}.

Definition ready_generator : CompaniesProfile.CorporateProfileGenerator :=
  CompaniesProfile.set_working_model (u "gemini-2.5-flash") fresh_generator.

(** Every request is answered with status 200 and the candidate text [{}]. *)
Definition empty_dict_env : Env :=
  sample_env (always (HttpResponse 200 (body_with (u "{}")))).

(** Every request is answered with status 200 and the Nokia profile. *)
Definition nokia_env : Env :=
  sample_env (always (HttpResponse 200 (body_with nokia_text))).

(** Every request is answered with status 429. *)
Definition busy_env : Env := sample_env (always (HttpResponse 429 [])).


(** A worker for two companies on the sample template. *)
Definition sample_worker : Worker.PipelineWorker :=
  Worker.new_worker nokia_env (u "k") [u "Nokia"; u " Kone "; u "  "]
    (u "output") (u "profile.html").

(** A directory with two pages, of which WeasyPrint cannot render the
    one that is listed first. *)
Definition pages_world : World :=
  set_dirs {[ u "output" := {[ u "a.html" := u "<p>ok</p>"; u "b.html" := u "<broken" ]} ]}
           empty_world.

Definition picky_env : Env :=
  {| isalnum := latin1_isalnum;
     isspace := latin1_isspace;
     py_str := scalar_str;
     str_raises := λ _ _, None;
     stack_room := 665;
     recursion_text := u "maximum recursion depth exceeded";
     json_loads := sample_loads;
     json_dumps := sample_dumps;
     http_post := λ _ _ _, HttpRaises;
     clock_stamp := u "2025-01-01 12:00";
     clock_hhmm := u "1200";
     realpath := plain_realpath;
     open_error := λ _, u "No such file or directory";
     running_at := λ _, true;
     logo_search := λ _, Returns None;
     logo_download := λ _ _ _, Returns None;
     write_pdf := λ _ _ content,
       if bool_decide (content = u "<broken") then Raises (u "parse error")
       else Returns (u "%PDF");
     weasyprint_available := true |}.

End Examples.

(** ** Vocabulary of further statements *)

(** The keys of [company_info] when it is a [dict], none otherwise. *)
Definition provided_keys (company_info : Json) : list pystr :=
  match company_info with
  | JDict d => d.*1
  | _ => []
  end.

(** The text of the probe request of [find_working_model]. *)
Definition PROBE : pystr := u "Return the word 'OK'".

(** Is the probe of [model], sent as request number [n], answered with
    status 200? *)
Definition probe_works (E : Env)
  (self : CompaniesProfile.CorporateProfileGenerator) (n : nat) (model : pystr)
  : bool :=
  let url := request_url self (CompaniesProfile.model_url model) in
  match http_post E n url PROBE with
  | HttpResponse status _ => (status =? 200)%Z
  | HttpRaises => false
  end.

(** The world after the probes of [ms], one after the other. *)
Definition after_probes (self : CompaniesProfile.CorporateProfileGenerator)
  (ms : list pystr) (w : World) : World :=
  foldl (λ w m, after_request self (CompaniesProfile.model_url m) PROBE w) w ms.

(** A string that does not start with whitespace. *)
Definition clean_head (ws : N → bool) (s : pystr) : Prop :=
  match s with
  | [] => True
  | c :: _ => ws c = false
  end.

(** [sub in s] *)
Fixpoint contains (sub s : pystr) : bool :=
  startswith sub s
  || match s with
     | [] => false
     | _ :: r => contains sub r
     end.

(** The backtick of a markdown fence. *)
Definition BACKTICK : N := 96.

(** A computation that leaves the observation [f] of the world as it is,
    whatever its outcome. *)
Definition preserves {X A} (f : World → X) (m : M A) : Prop :=
  ∀ w, f (m w).2 = f w.

(** What lies outside a directory: the environment variable and every
    other directory, with its files. *)
Definition outside (E : Env) (dir : pystr) (w : World)
  : option pystr * gmap pystr (gmap pystr pystr) :=
  (api_key_env w, delete (dir_key E dir) (dirs w)).

(** [Q] holds of the outcome and of the final world of [m], started in
    [w]. *)
Definition wp {A} (m : M A) (Q : Res A → World → Prop) (w : World) : Prop :=
  Q (m w).1 (m w).2.

(** The probe a generator may still send: one, as long as it knows no
    working model. *)
Definition probes_owed (g : CompaniesProfile.CorporateProfileGenerator) : nat :=
  match CompaniesProfile.working_model g with
  | Some (_ :: _) => 0
  | _ => 1
  end.

(** An event that is neither the [finished] nor the [error] signal. *)
Definition quiet (e : Event) : Prop :=
  match e with
  | EvSignal SigFinished | EvSignal (SigError _) => False
  | _ => True
  end.

(** The worker is stopped at some point: a read of [is_running] gives
    [False]. *)
Definition stopped (E : Env) : Prop := ∃ n, running_at E n = false.

(** The trace of [w'] continues [t0] with events that satisfy [P]. *)
Definition continues (P : Event → Prop) (t0 : list Event) (w' : World) : Prop :=
  ∃ evs, trace w' = t0 ++ evs ∧ Forall P evs.

(** What the client does to the outside: a request, or the wait of 20
    seconds after a rate limit. *)
Definition client_event (e : Event) : Prop :=
  match e with
  | EvHttp _ _ => True
  | EvSleep s => s = 20%Z
  | _ => False
  end.

(** An answer that is neither empty nor text nor a list: a number other
    than zero, [True], or a non-empty dict. *)
Definition not_sliceable (r : Json) : Prop :=
  truthy r = true ∧
  match r with
  | JBool _ | JInt _ | JFloat _ | JDict _ => True
  | _ => False
  end.

(** The one model of a new generator. *)
Definition GEMINI_MODEL : pystr := u "gemini-2.5-flash".

(** A generator as [__init__] makes it for [key], before or after its
    probe succeeded. *)
Definition made_for (key : pystr)
  (g : CompaniesProfile.CorporateProfileGenerator) : Prop :=
  CompaniesProfile.api_key g = key ∧
  CompaniesProfile.models g = [GEMINI_MODEL] ∧
  (CompaniesProfile.working_model g = None ∨
   CompaniesProfile.working_model g = Some GEMINI_MODEL).

(** What a request of a run of [self] may be: it goes to the endpoint of
    the one model with [key], and carries the probe or the prompt for one
    of the companies that lists [fields]. *)
Definition run_request (self : Worker.PipelineWorker) (key : pystr)
  (fields : list pystr) (e : Event) : Prop :=
  match e with
  | EvHttp url text =>
      url = CompaniesProfile.model_url GEMINI_MODEL ++ u "?key=" ++ key ∧
      (text = PROBE ∨
       ∃ c, c ∈ Worker.companies self ∧
            text = CompaniesProfile.prompt_for c fields)
  | _ => True
  end.

(** ** Further concrete inputs *)

Module MoreExamples.

Import Examples.

Definition world_with_template (content : pystr) : World :=
  with_file (u "templates/profile.html") content empty_world.

(** An escaped [$], an unbraced name, and no [$] at all. *)
Definition fee_template : pystr := u "<p>Fee: $$5 for ${name}</p>".
Definition greeting_template : pystr := u "Hello $name!".
Definition static_template : pystr := u "<p>static</p>".

(** A generator with three models in its priority list. *)
Definition three_models : CompaniesProfile.CorporateProfileGenerator :=
  {| CompaniesProfile.api_key := u "k";
     CompaniesProfile.models := [u "m1"; u "m2"; u "m3"];
     CompaniesProfile.working_model := None |}.

(** The first request fails, the second is answered with 404, every later
    one with 200 and the Nokia profile. *)
Definition third_time_env : Env :=
  sample_env (λ n, match n with
                   | O => HttpRaises
                   | 1%nat => HttpResponse 404 []
                   | _ => HttpResponse 200 (body_with nokia_text)
                   end).

(** A worker for one company, in a directory that holds two data files
    of an earlier run. *)
Definition nokia_worker : Worker.PipelineWorker :=
  Worker.new_worker nokia_env (u "k") [u "Nokia"] (u "output") (u "profile.html").

Definition crowded_world : World :=
  with_file (u "output/Kone_data.json") nokia_text
    (with_file (u "output/Rovio_data.json") nokia_text sample_world).

(** The worker is stopped before its first read of the flag. *)
Definition stopped_env : Env :=
  {| isalnum := latin1_isalnum;
     isspace := latin1_isspace;
     py_str := scalar_str;
     str_raises := λ _ _, None;
     stack_room := 665;
     recursion_text := u "maximum recursion depth exceeded";
     json_loads := sample_loads;
     json_dumps := sample_dumps;
     http_post := λ _ _ _, HttpResponse 200 (body_with nokia_text);
     clock_stamp := u "2025-01-01 12:00";
     clock_hhmm := u "1200";
     realpath := plain_realpath;
     open_error := λ _, u "No such file or directory";
     running_at := λ _, false;
     logo_search := λ _, Returns None;
     logo_download := λ _ _ _, Returns None;
     write_pdf := λ _ _ _, Returns (u "%PDF");
     weasyprint_available := true |}.

(** The flag is cleared during the fourth second of a cooldown. *)
Definition interrupted_env : Env :=
  {| isalnum := latin1_isalnum;
     isspace := latin1_isspace;
     py_str := scalar_str;
     str_raises := λ _ _, None;
     stack_room := 665;
     recursion_text := u "maximum recursion depth exceeded";
     json_loads := sample_loads;
     json_dumps := sample_dumps;
     http_post := λ _ _ _, HttpRaises;
     clock_stamp := u "2025-01-01 12:00";
     clock_hhmm := u "1200";
     realpath := plain_realpath;
     open_error := λ _, u "No such file or directory";
     running_at := λ n, bool_decide (n < 3)%nat;
     logo_search := λ _, Returns None;
     logo_download := λ _ _ _, Returns None;
     write_pdf := λ _ _ _, Returns (u "%PDF");
     weasyprint_available := true |}.

(** Every logo search finds an image and every download succeeds. *)
Definition logo_env : Env :=
  {| isalnum := latin1_isalnum;
     isspace := latin1_isspace;
     py_str := scalar_str;
     str_raises := λ _ _, None;
     stack_room := 665;
     recursion_text := u "maximum recursion depth exceeded";
     json_loads := sample_loads;
     json_dumps := sample_dumps;
     http_post := λ _ _ _, HttpRaises;
     clock_stamp := u "2025-01-01 12:00";
     clock_hhmm := u "1200";
     realpath := plain_realpath;
     open_error := λ _, u "No such file or directory";
     running_at := λ _, true;
     logo_search := λ _, Returns (Some (u "http://img/logo.png"));
     logo_download := λ _ _ _, Returns (Some (u "PNG"));
     write_pdf := λ _ _ _, Returns (u "%PDF");
     weasyprint_available := true |}.

(** A template that shows the logo, and a data file for it. *)
Definition logo_template : pystr := u "<img src='${logo_filename}'>".

Definition logo_world : World :=
  with_file (u "output/Nokia_data.json") nokia_text
    (world_with_template logo_template).

(** The probe succeeds; the answer to the query has the number 5 where
    the text should be. *)
Definition number_env : Env :=
  {| isalnum := latin1_isalnum;
     isspace := latin1_isspace;
     py_str := scalar_str;
     str_raises := λ _ _, None;
     stack_room := 665;
     recursion_text := u "maximum recursion depth exceeded";
     json_loads := λ _,
       Some (JDict [(u "candidates",
               JList [JDict [(u "content",
                        JDict [(u "parts",
                                JList [JDict [(u "text", JInt 5)]])])]])]);
     json_dumps := sample_dumps;
     http_post := λ _ _ _, HttpResponse 200 [];
     clock_stamp := u "2025-01-01 12:00";
     clock_hhmm := u "1200";
     realpath := plain_realpath;
     open_error := λ _, u "No such file or directory";
     running_at := λ _, true;
     logo_search := λ _, Returns None;
     logo_download := λ _ _ _, Returns None;
     write_pdf := λ _ _ _, Returns (u "%PDF");
     weasyprint_available := true |}.

(** A directory with a data file that is no JSON text. *)
Definition broken_data_world : World :=
  with_file (u "output/Kone_data.json") (u "oops") sample_world.

End MoreExamples.


(** * Theorems *)

Import HtmlGenerator CompaniesProfile Compiler.

(** ** Strings *)

Section StringFacts.

Lemma str_leb_refl s : str_leb s s = true.
Proof.
  induction s as [|a s IH]; simpl; [done|].
  rewrite N.ltb_irrefl, N.eqb_refl. exact IH.
Qed.

Lemma str_leb_total s t : str_leb s t = true ∨ str_leb t s = true.
Proof.
  revert t. induction s as [|a s IH]; intros [|b t]; simpl; auto.
  destruct (N.ltb_spec a b), (N.ltb_spec b a); auto; try lia.
  assert (a = b) as -> by lia. rewrite N.eqb_refl. apply IH.
Qed.

Lemma str_leb_trans s t r :
  str_leb s t = true → str_leb t r = true → str_leb s r = true.
Proof.
  revert t r. induction s as [|a s IH]; intros [|b t] [|c r]; simpl; auto;
    try discriminate.
  destruct (N.ltb_spec a b), (N.ltb_spec b c), (N.ltb_spec a c); auto;
    try lia; try discriminate;
    destruct (N.eqb_spec a b), (N.eqb_spec b c), (N.eqb_spec a c);
    try lia; try discriminate; eauto.
Qed.

Lemma str_leb_antisym s t :
  str_leb s t = true → str_leb t s = true → s = t.
Proof.
  revert t. induction s as [|a s IH]; intros [|b t]; simpl; auto;
    try discriminate.
  intros H1 H2.
  destruct (N.ltb_spec a b), (N.ltb_spec b a),
    (N.eqb_spec a b), (N.eqb_spec b a); try lia; try discriminate.
  subst. f_equal. by apply IH.
Qed.

#[global] Instance str_le_total : Total str_le.
Proof. intros s t. apply str_leb_total. Qed.

#[global] Instance str_le_trans : Transitive str_le.
Proof. intros s t r. apply str_leb_trans. Qed.

#[global] Instance str_le_refl : Reflexive str_le.
Proof. intros s. apply str_leb_refl. Qed.

#[global] Instance str_le_antisym : AntiSymm (=) str_le.
Proof. intros s t. apply str_leb_antisym. Qed.

Lemma span_spec p s run rest :
  span p s = (run, rest) →
  s = run ++ rest ∧ Forall (λ c, p c = true) run ∧
  match rest with [] => True | c :: _ => p c = false end.
Proof.
  revert run rest. induction s as [|c s IH]; intros run rest; simpl.
  - intros [= <- <-]. auto.
  - destruct (p c) eqn:Hc.
    + destruct (span p s) as [run' rest'] eqn:Hs. intros [= <- <-].
      destruct (IH _ _ eq_refl) as (-> & Hall & Hrest). auto.
    + intros [= <- <-]. simpl. auto.
Qed.

Lemma span_stop p run c rest :
  Forall (λ c, p c = true) run → p c = false →
  span p (run ++ c :: rest) = (run, c :: rest).
Proof.
  intros Hall Hc. induction Hall as [|a run Ha _ IH]; simpl.
  - by rewrite Hc.
  - by rewrite Ha, IH.
Qed.

(** A run never goes past a character outside the class. *)
Lemma span_inside p a c b run rest :
  p c = false → span p (a ++ c :: b) = (run, rest) →
  ∃ a', a = run ++ a' ∧ rest = a' ++ c :: b.
Proof.
  intros Hc. revert run rest. induction a as [|x a IH]; intros run rest; simpl.
  - rewrite Hc. intros [= <- <-]. by exists [].
  - destruct (p x) eqn:Hx.
    + destruct (span p (a ++ c :: b)) as [run' rest'] eqn:Hs.
      intros [= <- <-]. destruct (IH _ _ eq_refl) as (a' & -> & ->).
      by exists a'.
    + intros [= <- <-]. by exists (x :: a).
Qed.

End StringFacts.

(** ** Template scanning *)

Section Scanning.

Lemma match_placeholder_Some s id r :
  match_placeholder s = Some (id, r) →
  is_identifier id ∧ s = [DOLLAR; LBRACE] ++ id ++ RBRACE :: r.
Proof.
  unfold match_placeholder.
  destruct s as [|c1 [|c2 s]]; try discriminate.
  destruct (N.eqb_spec c1 DOLLAR) as [->|]; [|discriminate].
  destruct (N.eqb_spec c2 LBRACE) as [->|]; [|discriminate]. simpl.
  destruct (span is_ident_char s) as [run rest] eqn:Hs.
  destruct (span_spec _ _ _ _ Hs) as (-> & Hall & _).
  destruct run as [|x run]; [discriminate|].
  destruct rest as [|c3 rest]; [discriminate|].
  destruct (N.eqb_spec c3 RBRACE) as [->|]; [|discriminate].
  intros [= <- <-]. unfold is_identifier. split_and!; [done|exact Hall|done].
Qed.

Lemma match_placeholder_here id post :
  is_identifier id →
  match_placeholder ([DOLLAR; LBRACE] ++ id ++ RBRACE :: post) = Some (id, post).
Proof.
  intros [Hne Hall]. simpl.
  rewrite (span_stop is_ident_char id RBRACE post Hall eq_refl).
  destruct id; [done|]. reflexivity.
Qed.

Lemma match_placeholder_shorter s id r :
  match_placeholder s = Some (id, r) → (length r < length s)%nat.
Proof.
  intros H. apply match_placeholder_Some in H as [_ ->].
  simpl. rewrite length_app. simpl. lia.
Qed.

(** Every word the scan reports is a placeholder of the text. *)
Lemma findall_fuel_sound fuel s id :
  id ∈ findall_fuel fuel s → occurs_as_placeholder id s.
Proof.
  revert s. induction fuel as [|fuel IH]; intros s; simpl.
  - by intros ?%elem_of_nil.
  - destruct s as [|c r]; [by intros ?%elem_of_nil|].
    destruct (match_placeholder (c :: r)) as [[id' r']|] eqn:Hm.
    + apply match_placeholder_Some in Hm as [Hid Heq].
      intros [->|Hin]%elem_of_cons.
      * split; [done|]. exists [], r'. by rewrite Heq.
      * destruct (IH _ Hin) as [Hid' (pre & post & ->)].
        split; [done|]. rewrite Heq.
        exists ([DOLLAR; LBRACE] ++ id' ++ RBRACE :: pre), post.
        by rewrite <- !app_assoc.
    + intros Hin. destruct (IH _ Hin) as [Hid' (pre & post & ->)].
      split; [done|]. by exists (c :: pre), post.
Qed.

(** A match that starts before a placeholder ends before it: the scan
    cannot jump over [${id}]. *)
Lemma match_before_placeholder c pre tail id' r' :
  match_placeholder (c :: pre ++ DOLLAR :: tail) = Some (id', r') →
  ∃ pre', r' = pre' ++ DOLLAR :: tail ∧ (length pre' < length (c :: pre))%nat.
Proof.
  unfold match_placeholder.
  destruct pre as [|c2 pre]; simpl.
  { destruct (c =? DOLLAR); simpl; discriminate. }
  destruct ((c =? DOLLAR) && (c2 =? LBRACE)); [|discriminate].
  destruct (span is_ident_char (pre ++ DOLLAR :: tail)) as [run rest] eqn:Hs.
  apply span_inside in Hs as (a' & -> & ->); [|reflexivity].
  destruct run as [|x run]; [discriminate|].
  destruct a' as [|c3 a']; simpl.
  { discriminate. }
  destruct (c3 =? RBRACE); [|discriminate].
  intros [= <- <-]. exists a'. split; [done|].
  rewrite length_app. simpl. lia.
Qed.

(** Every placeholder of the text is reported. *)
Lemma findall_fuel_complete fuel pre id post :
  is_identifier id →
  (length (pre ++ [DOLLAR; LBRACE] ++ id ++ RBRACE :: post) ≤ fuel)%nat →
  id ∈ findall_fuel fuel (pre ++ [DOLLAR; LBRACE] ++ id ++ RBRACE :: post).
Proof.
  intros Hid. revert pre.
  induction fuel as [|fuel IH]; intros pre Hlen.
  { rewrite length_app in Hlen. simpl in Hlen. lia. }
  destruct pre as [|c pre].
  - cbn [app findall_fuel].
    change (DOLLAR :: LBRACE :: id ++ RBRACE :: post)
      with ([DOLLAR; LBRACE] ++ id ++ RBRACE :: post).
    rewrite match_placeholder_here by done. apply list_elem_of_here.
  - change ((c :: pre) ++ [DOLLAR; LBRACE] ++ id ++ RBRACE :: post)
      with (c :: pre ++ DOLLAR :: (LBRACE :: id ++ RBRACE :: post)) in *.
    cbn [findall_fuel].
    destruct (match_placeholder _) as [[id' r']|] eqn:Hm.
    + apply match_before_placeholder in Hm as (pre' & -> & Hshort).
      apply list_elem_of_further. apply (IH pre').
      simpl in *. rewrite length_app in *. simpl in *. lia.
    + apply (IH pre). simpl in *. lia.
Qed.

Lemma findall_spec content id :
  id ∈ findall content ↔ occurs_as_placeholder id content.
Proof.
  split.
  - apply findall_fuel_sound.
  - intros [Hid (pre & post & ->)]. by apply findall_fuel_complete.
Qed.

End Scanning.

Lemma elem_of_SYSTEM_VARIABLES id :
  id ∈ SYSTEM_VARIABLES ↔ is_system_key id.
Proof.
  unfold SYSTEM_VARIABLES, is_system_key.
  rewrite !elem_of_union, !elem_of_singleton. tauto.
Qed.

Lemma get_template_variables_elem (E : Env) self w content id :
  read_file E (template_path self) w = Some content →
  id ∈ get_template_variables E self w ↔
  occurs_as_placeholder id content ∧ ¬ is_system_key id.
Proof.
  intros Hfile. unfold get_template_variables. rewrite Hfile.
  rewrite merge_sort_Permutation, elem_of_elements, elem_of_difference,
    elem_of_list_to_set, findall_spec, elem_of_SYSTEM_VARIABLES.
  done.
Qed.

(** C2: for a readable template, [get_template_variables] returns the
    sorted, duplicate-free list of the identifiers that occur in the text
    as [${identifier}], without the three system keys; it is the only list
    with these properties, and it holds no system key. *)
Theorem get_template_variables_spec (E : Env) self w content :
  read_file E (template_path self) w = Some content →
  let vars := get_template_variables E self w in
  StronglySorted str_le vars ∧
  NoDup vars ∧
  (∀ id, id ∈ vars ↔ occurs_as_placeholder id content ∧ ¬ is_system_key id) ∧
  (∀ id, is_system_key id → id ∉ vars) ∧
  (∀ l, StronglySorted str_le l → NoDup l →
        (∀ id, id ∈ l ↔ occurs_as_placeholder id content ∧ ¬ is_system_key id) →
        l = vars).
Proof.
  intros Hfile vars.
  assert (Hmem : ∀ id, id ∈ vars ↔
            occurs_as_placeholder id content ∧ ¬ is_system_key id).
  { intros id. by apply get_template_variables_elem. }
  assert (Hsorted : StronglySorted str_le vars).
  { unfold vars, get_template_variables. rewrite Hfile.
    apply StronglySorted_merge_sort; apply _. }
  assert (Hnodup : NoDup vars).
  { unfold vars, get_template_variables. rewrite Hfile.
    rewrite merge_sort_Permutation. apply NoDup_elements. }
  split_and!; try done.
  - intros id Hsys [_ Hno]%Hmem. by apply Hno.
  - intros l Hl Hnd Hl_mem. apply (StronglySorted_unique str_le); try done.
    apply NoDup_Permutation; try done.
    intros id. by rewrite Hl_mem, Hmem.
Qed.

(** The theorem at the sample template. *)
Lemma get_template_variables_spec_witness :
  read_file Examples.quiet_env (template_path Examples.sample_generator)
    Examples.sample_world
    = Some Examples.sample_template ∧
  NoDup (get_template_variables Examples.quiet_env Examples.sample_generator
           Examples.sample_world).
Proof.
  assert (H : read_file Examples.quiet_env
                (template_path Examples.sample_generator) Examples.sample_world
              = Some Examples.sample_template) by (vm_compute; reflexivity).
  split; [exact H|].
  exact (proj1 (proj2 (get_template_variables_spec _ _ _ _ H))).
Defined.

Example get_template_variables_sample :
  get_template_variables Examples.quiet_env Examples.sample_generator
    Examples.sample_world
  = [u "1st"; u "city"; u "name"].
Proof. vm_compute. reflexivity. Qed.

(** ** Value formatting *)

Section Formatting.
Context (E : Env).

(** Induction on JSON values that reaches the elements of a list. *)
Lemma Json_list_ind (P : Json → Prop) :
  P JNone →
  (∀ b, P (JBool b)) →
  (∀ n, P (JInt n)) →
  (∀ f, P (JFloat f)) →
  (∀ s, P (JStr s)) →
  (∀ l, Forall P l → P (JList l)) →
  (∀ d, P (JDict d)) →
  ∀ v, P v.
Proof.
  intros Hnone Hbool Hint Hfloat Hstr Hlist Hdict.
  fix IH 1.
  intros [| b | n | f | s | l | d];
    [apply Hnone | apply Hbool | apply Hint | apply Hfloat | apply Hstr
    | | apply Hdict].
  apply Hlist. induction l as [|x l IHl]; constructor; [apply IH|exact IHl].
Qed.

(** [str.join] puts the separator between any two items. *)
Lemma join_cons sep x xs :
  join sep (x :: xs) = x ++ concat (map (λ y, sep ++ y) xs).
Proof.
  revert x. induction xs as [|y xs IH]; intros x.
  - simpl. by rewrite app_nil_r.
  - change (join sep (x :: y :: xs)) with (x ++ sep ++ join sep (y :: xs)).
    rewrite IH. simpl. by rewrite <- app_assoc.
Qed.

Lemma join_comma_separated xs : join (u ", ") xs = comma_separated xs.
Proof. destruct xs as [|x xs]; [done|]. apply join_cons. Qed.

(** The results of a sequence of evaluations that all return. *)
Lemma collect_all_ok {A B} (f : A → Res B) (g : A → B) l :
  Forall (λ x, f x = Ok (g x)) l → collect (map f l) = Ok (map g l).
Proof.
  induction 1 as [|x l Hx _ IH]; [done|]. simpl. by rewrite Hx, IH.
Qed.

Lemma collect_ok_inv {A B} (f : A → Res B) l ys :
  collect (map f l) = Ok ys → Forall2 (λ x y, f x = Ok y) l ys.
Proof.
  revert ys. induction l as [|x l IH]; intros ys; simpl.
  - intros [= <-]. constructor.
  - destruct (f x) as [y|e] eqn:Hx; [|done].
    destruct (collect (map f l)) as [ys'|e] eqn:Hl; [|done].
    intros [= <-]. constructor; [done|]. by apply IH.
Qed.

(** When one exception is the only one that occurs, and it occurs, it is
    the outcome. *)
Lemma collect_some_exc {A B} (f : A → Res B) e l :
  Forall (λ x, (∃ y, f x = Ok y) ∨ f x = Exc e) l →
  Exists (λ x, f x = Exc e) l →
  collect (map f l) = Exc e.
Proof.
  induction 1 as [|x l Hx Hl IH]; intros Hex; [by apply Exists_nil in Hex|].
  simpl. destruct Hx as [[y Hy]|Hx]; [|by rewrite Hx].
  rewrite Hy. apply Exists_cons in Hex as [Hex|Hex]; [congruence|].
  by rewrite IH.
Qed.

Lemma max_bound (f : Json → nat) l x :
  x ∈ l → (f x ≤ foldr Nat.max O (map f l))%nat.
Proof.
  induction 1 as [x l|x y l _ IH]; simpl; lia.
Qed.

Lemma max_attained (f : Json → nat) l :
  (0 < foldr Nat.max O (map f l))%nat →
  ∃ x, x ∈ l ∧ f x = foldr Nat.max O (map f l).
Proof.
  induction l as [|y l IH]; simpl; [lia|]. intros Hpos.
  destruct (Nat.max_spec (f y) (foldr Nat.max O (map f l)))
    as [[Hlt ->]|[Hle ->]].
  - destruct IH as (x & Hx & Hfx); [lia|].
    exists x. split; [by apply list_elem_of_further|done].
  - exists y. split; [apply list_elem_of_here|done].
Qed.

Lemma stack_full_false depth :
  (depth < stack_room E)%nat → stack_full E depth = false.
Proof.
  intros H. unfold stack_full. apply negb_false_iff. by apply Nat.ltb_lt.
Qed.

Lemma stack_full_true depth :
  (stack_room E ≤ depth)%nat → stack_full E depth = true.
Proof.
  intros H. unfold stack_full. apply negb_true_iff. apply Nat.ltb_ge. lia.
Qed.

Lemma str_at_text depth v s : str_at E depth v = Ok s → s = str_text E v.
Proof.
  unfold str_at, str_text.
  destruct v; try (destruct (str_raises E depth _)); congruence.
Qed.

Lemma str_at_total depth v :
  str_never_raises E → str_at E depth v = Ok (str_text E v).
Proof.
  intros Hstr. unfold str_at, str_text. destruct v; by rewrite ?Hstr.
Qed.

(** A string that [_format_value] returns is the formatting described,
    whatever [str] and the recursion limit are. *)
Lemma format_value_sound v depth s :
  _format_value E depth v = Ok s → s = formatted E v.
Proof.
  revert depth s.
  induction v as [| b | n | f | s0 | l IHl | d] using Json_list_ind;
    intros depth s; cbn [_format_value formatted];
    destruct (stack_full E depth); try done;
    try (by apply str_at_text); try congruence.
  - destruct (stack_full E (S depth)); [done|].
    destruct (collect (map (_format_value E (S (S depth))) l)) as [ss|e] eqn:Hl;
      [|done].
    simpl. intros [= <-]. rewrite join_comma_separated. f_equal.
    apply collect_ok_inv in Hl. clear -IHl Hl.
    induction Hl as [|x y l ys Hxy _ IH]; [done|].
    apply Forall_cons in IHl as [Hx Hrest]. simpl. f_equal; [|by apply IH].
    by apply (Hx (S (S depth))).
  - destruct (stack_full E (S depth)); [done|].
    destruct (collect (map (str_at E (S (S depth))) _)) as [ss|e] eqn:Hl; [|done].
    simpl. intros [= <-]. rewrite join_comma_separated. f_equal.
    apply collect_ok_inv in Hl. unfold truthy_values.
    change (d.*2) with (map snd d).
    induction Hl as [|x y l' ys Hxy _ IH]; [done|].
    simpl. f_equal; [|exact IH]. by apply str_at_text in Hxy.
Qed.

(** When [str] does not raise, the stack decides the outcome: the value
    is formatted if and only if the activations it takes fit. *)
Lemma format_value_exact v depth :
  str_never_raises E →
  _format_value E depth v
  = if bool_decide (depth + activations v ≤ stack_room E)%nat
    then Ok (formatted E v)
    else Exc (RecursionError (recursion_text E)).
Proof.
  intros Hstr. revert depth.
  induction v as [| b | n | f | s0 | l IHl | d] using Json_list_ind;
    intros depth; cbn [_format_value formatted activations].
  1-5: destruct (decide (depth < stack_room E)%nat) as [Hlt|Hge];
    [rewrite stack_full_false, bool_decide_true by lia;
       try done; by rewrite str_at_total
    |rewrite stack_full_true, bool_decide_false by lia; done].
  - set (deepest := foldr Nat.max O (map activations l)).
    destruct (decide (depth < stack_room E)%nat) as [Hlt|Hge].
    2:{ rewrite stack_full_true, bool_decide_false by lia. done. }
    rewrite stack_full_false by done.
    destruct (decide (S depth < stack_room E)%nat) as [Hlt1|Hge1].
    2:{ rewrite stack_full_true, bool_decide_false by lia. done. }
    rewrite stack_full_false by done.
    destruct (decide (depth + (2 + deepest) ≤ stack_room E)%nat) as [Hfit|Hno].
    + rewrite bool_decide_true by done.
      rewrite (collect_all_ok _ (formatted E)).
      { simpl. by rewrite join_comma_separated. }
      apply Forall_forall. intros x Hx.
      rewrite Forall_forall in IHl. rewrite (IHl x Hx).
      pose proof (max_bound activations l x Hx). fold deepest in H.
      by rewrite bool_decide_true by lia.
    + rewrite bool_decide_false by done.
      rewrite (collect_some_exc _ (RecursionError (recursion_text E))); [done| |].
      * apply Forall_forall. intros x Hx.
        rewrite Forall_forall in IHl. rewrite (IHl x Hx).
        destruct (bool_decide _); [left; by eexists|by right].
      * destruct (max_attained activations l) as (x & Hx & Hmax);
          [fold deepest; lia|].
        apply Exists_exists. exists x. split; [done|].
        rewrite Forall_forall in IHl. rewrite (IHl x Hx).
        fold deepest in Hmax. by rewrite bool_decide_false by lia.
  - destruct (decide (depth < stack_room E)%nat) as [Hlt|Hge].
    2:{ rewrite stack_full_true, bool_decide_false by lia. done. }
    rewrite stack_full_false by done.
    destruct (decide (S depth < stack_room E)%nat) as [Hlt1|Hge1].
    2:{ rewrite stack_full_true, bool_decide_false by lia. done. }
    rewrite stack_full_false, bool_decide_true by lia.
    rewrite (collect_all_ok _ (str_text E)).
    { simpl. by rewrite join_comma_separated. }
    apply Forall_forall. intros x _. by apply str_at_total.
Qed.

End Formatting.

(** C8, as amended: provided [str] raises on none of its parts,
    [_format_value] returns a string exactly when the activations the
    value takes fit on the stack; the string is the formatting described:
    [N/A] for [None], the comma-separated recursive formatting for a list,
    the comma-separated [str] of the truthy values for a dict (no
    recursion into them), [str] for every other value.  When they do not
    fit, [RecursionError] is raised.  And whatever [str] and the stack
    are, a string that is returned is the formatting described. *)
Theorem format_value_spec (E : Env) depth v :
  str_never_raises E →
  ((depth + activations v ≤ stack_room E)%nat →
   _format_value E depth v = Ok (formatted E v)) ∧
  ((stack_room E < depth + activations v)%nat →
   _format_value E depth v = Exc (RecursionError (recursion_text E))) ∧
  (∀ E' depth' s, _format_value E' depth' v = Ok s → s = formatted E' v).
Proof.
  intros Hstr. split_and!.
  - intros Hfit. rewrite format_value_exact by done.
    by rewrite bool_decide_true.
  - intros Hno. rewrite format_value_exact by done.
    by rewrite bool_decide_false by lia.
  - intros E' depth' s. apply format_value_sound.
Qed.

Section FormattingCases.
Context (E : Env).

(** Falsy values of a dict are dropped: [0], the empty string and [None]. *)
Lemma format_value_drops_falsy depth d1 d2 k v :
  truthy v = false →
  _format_value E depth (JDict (d1 ++ (k, v) :: d2))
  = _format_value E depth (JDict (d1 ++ d2)).
Proof.
  intros Hv. simpl. rewrite !map_app, !filter_app. simpl.
  rewrite filter_cons_False by (rewrite Hv; done). done.
Qed.

(** The value of a dict is not formatted as a list is: its [str] is
    taken. *)
Lemma format_value_dict_no_recursion depth k l :
  l ≠ [] →
  str_never_raises E → (depth + 2 ≤ stack_room E)%nat →
  _format_value E depth (JDict [(k, JList l)]) = Ok (py_str E (JList l)).
Proof.
  intros Hl Hstr Hfit. rewrite format_value_exact by done.
  rewrite bool_decide_true by (simpl; lia).
  f_equal. cbn [formatted]. unfold truthy_values.
  change ([(k, JList l)].*2) with [JList l].
  rewrite filter_cons_True by (by destruct l).
  rewrite filter_nil. simpl. by rewrite app_nil_r.
Qed.

End FormattingCases.

(** The theorem at a list that holds a number, [None], a list of two
    strings and a dict with a falsy value. *)
Lemma format_value_spec_witness :
  _format_value Examples.quiet_env 0
    (JList [JInt 1; JNone; JList [JStr (u "a"); JStr (u "b")];
            JDict [(u "x", JStr (u "y")); (u "z", JInt 0)]])
  = Ok (formatted Examples.quiet_env
          (JList [JInt 1; JNone; JList [JStr (u "a"); JStr (u "b")];
                  JDict [(u "x", JStr (u "y")); (u "z", JInt 0)]])).
Proof.
  assert (Hstr : str_never_raises Examples.quiet_env)
    by (intros depth v; reflexivity).
  assert (Hfit : (0 + activations
                        (JList [JInt 1; JNone; JList [JStr (u "a"); JStr (u "b")];
                                JDict [(u "x", JStr (u "y")); (u "z", JInt 0)]])
                  ≤ stack_room Examples.quiet_env)%nat)
    by (vm_compute; lia).
  exact (proj1 (format_value_spec Examples.quiet_env 0%nat _ Hstr) Hfit).
Defined.

Example formatted_sample :
  formatted Examples.quiet_env
    (JList [JInt 1; JNone; JList [JStr (u "a"); JStr (u "b")];
            JDict [(u "x", JStr (u "y")); (u "z", JInt 0)]])
  = u "1, N/A, a, b, y".
Proof. vm_compute. reflexivity. Qed.

(** C8, the claim as stated fails: the number 1 inside 333 lists is a
    finitely nested value, and [_format_value] raises [RecursionError] on
    it where the stack has room for 665 activations; inside 332 lists it
    is formatted. *)
Lemma format_value_deep_list_counterexample :
  _format_value Examples.quiet_env 0 (nested 333 (JInt 1))
  = Exc (RecursionError (u "maximum recursion depth exceeded")) ∧
  _format_value Examples.quiet_env 0 (nested 332 (JInt 1)) = Ok (u "1").
Proof. split; vm_compute; reflexivity. Qed.

(** ** Template substitution *)

Section Substitution.
Context (E : Env).

Lemma span_suffix p s run rest :
  span p s = (run, rest) → s = run ++ rest.
Proof. intros H. by apply span_spec in H as (-> & _). Qed.

(** A greedy run in front of a character outside the class is the run of
    the text before it. *)
Lemma span_app_stop p a c b :
  p c = false →
  span p (a ++ c :: b) = ((span p a).1, (span p a).2 ++ c :: b).
Proof.
  intros Hc. induction a as [|x a IH]; simpl.
  - by rewrite Hc.
  - destruct (p x); [|done]. rewrite IH. by destruct (span p a).
Qed.

Lemma match_id_suffix s id rest :
  match_id s = Some (id, rest) → s = id ++ rest ∧ id ≠ [].
Proof.
  destruct s as [|c r]; simpl; [done|].
  destruct (is_id_start c); [|done].
  destruct (span is_ident_char r) as [run rest'] eqn:Hs.
  intros [= <- <-]. apply span_suffix in Hs as ->. done.
Qed.

Lemma match_id_app_dollar s t :
  s ≠ [] →
  match_id (s ++ DOLLAR :: t)
  = (λ '(id, rest), (id, rest ++ DOLLAR :: t)) <$> match_id s.
Proof.
  destruct s as [|c r]; [done|]. intros _. simpl.
  destruct (is_id_start c); [|done].
  rewrite (span_app_stop is_ident_char r DOLLAR t eq_refl).
  by destruct (span is_ident_char r).
Qed.

(** What follows a match is a suffix of the text. *)
Lemma template_match_suffix s m rest :
  template_match s = (m, rest) → ∃ used, s = used ++ rest.
Proof.
  unfold template_match. destruct s as [|c r].
  { intros [= <- <-]. by exists []. }
  destruct (c =? DOLLAR).
  { intros [= <- <-]. by exists [c]. }
  destruct (match_id (c :: r)) as [[id rest']|] eqn:Hid.
  { intros [= <- <-]. apply match_id_suffix in Hid as [-> _]. by exists id. }
  destruct (c =? LBRACE); [|intros [= <- <-]; by exists []].
  destruct (match_id r) as [[id [|c' rest']]|] eqn:Hid';
    try (intros [= <- <-]; by exists []).
  destruct (c' =? RBRACE); [|intros [= <- <-]; by exists []].
  intros [= <- <-]. apply match_id_suffix in Hid' as [-> _].
  exists (c :: id ++ [c']). simpl. by rewrite <- app_assoc.
Qed.

Lemma template_match_shorter s m rest :
  template_match s = (m, rest) → (length rest ≤ length s)%nat.
Proof.
  intros [used ->]%template_match_suffix. rewrite length_app. lia.
Qed.

(** The fuel is enough as soon as it covers the text. *)
Lemma substitute_fuel_enough mapping f1 f2 s :
  (length s ≤ f1)%nat → (length s ≤ f2)%nat →
  substitute_fuel f1 mapping s = substitute_fuel f2 mapping s.
Proof.
  revert f2 s. induction f1 as [|f1 IH]; intros f2 s H1 H2.
  - destruct s; [|simpl in H1; lia]. by destruct f2.
  - destruct s as [|c r]; [by destruct f2|].
    destruct f2 as [|f2]; [simpl in H2; lia|]. simpl in *.
    destruct (c =? DOLLAR).
    + destruct (template_match r) as [m rest] eqn:Hm.
      apply template_match_shorter in Hm.
      f_equal. apply IH; lia.
    + f_equal. apply IH; lia.
Qed.

(** The equations of [safe_substitute]. *)
Lemma safe_substitute_nil mapping : safe_substitute mapping [] = [].
Proof. done. Qed.

Lemma safe_substitute_dollar mapping r :
  safe_substitute mapping (DOLLAR :: r)
  = convert mapping (template_match r).1
      ++ safe_substitute mapping (template_match r).2.
Proof.
  unfold safe_substitute. simpl.
  destruct (template_match r) as [m rest] eqn:Hm. simpl.
  f_equal. apply substitute_fuel_enough; [|done].
  by apply template_match_shorter in Hm.
Qed.

Lemma safe_substitute_text mapping c r :
  c ≠ DOLLAR →
  safe_substitute mapping (c :: r) = c :: safe_substitute mapping r.
Proof.
  intros Hc. unfold safe_substitute. simpl.
  by destruct (N.eqb_spec c DOLLAR).
Qed.

(** Text without a [$] is copied. *)
Lemma safe_substitute_plain mapping s :
  DOLLAR ∉ s → safe_substitute mapping s = s.
Proof.
  induction s as [|c r IH]; [done|].
  intros Hnot. apply not_elem_of_cons in Hnot as [Hc Hr].
  rewrite safe_substitute_text by done. by rewrite IH.
Qed.

Lemma safe_substitute_plain_app mapping s t :
  DOLLAR ∉ s →
  safe_substitute mapping (s ++ t) = s ++ safe_substitute mapping t.
Proof.
  induction s as [|c r IH]; [done|].
  intros Hnot. apply not_elem_of_cons in Hnot as [Hc Hr]. simpl.
  rewrite safe_substitute_text by done. by rewrite IH.
Qed.

(** In front of a [$], a match is the match of the text before it, unless
    that text is empty. *)
Lemma template_match_app_dollar s t :
  s ≠ [] →
  template_match (s ++ DOLLAR :: t)
  = ((template_match s).1, (template_match s).2 ++ DOLLAR :: t).
Proof.
  intros Hs. destruct s as [|c r]; [done|].
  unfold template_match. cbn [app].
  destruct (c =? DOLLAR); [done|].
  change (c :: r ++ DOLLAR :: t) with ((c :: r) ++ DOLLAR :: t).
  rewrite match_id_app_dollar by done.
  destruct (match_id (c :: r)) as [[id rest]|]; [done|]. cbn [fmap option_fmap option_map].
  destruct (c =? LBRACE); [|done].
  destruct r as [|c2 r2].
  - reflexivity.
  - rewrite match_id_app_dollar by done.
    destruct (match_id (c2 :: r2)) as [[id [|c' rest]]|]; try done.
    cbn. by destruct (c' =? RBRACE).
Qed.

(** Substitution splits in front of a [$] that does not follow a [$]. *)
Lemma safe_substitute_app_dollar mapping pre t :
  last pre ≠ Some DOLLAR →
  safe_substitute mapping (pre ++ DOLLAR :: t)
  = safe_substitute mapping pre ++ safe_substitute mapping (DOLLAR :: t).
Proof.
  set (X := safe_substitute mapping (DOLLAR :: t)).
  remember (length pre) as n eqn:Hn. revert pre Hn.
  induction n as [n IH] using lt_wf_ind. intros pre -> Hlast.
  destruct pre as [|c r]; [done|].
  destruct (decide (c = DOLLAR)) as [->|Hc].
  - destruct r as [|c2 r2]; [done|].
    cbn [app]. rewrite !safe_substitute_dollar.
    change (c2 :: r2 ++ DOLLAR :: t) with ((c2 :: r2) ++ DOLLAR :: t).
    rewrite template_match_app_dollar by done. cbn [fst snd].
    destruct (template_match (c2 :: r2)) as [m rest] eqn:Hm. cbn [fst snd].
    rewrite <- app_assoc. f_equal.
    pose proof (template_match_suffix _ _ _ Hm) as [used Hused].
    apply (IH (length rest)); [|done|].
    + apply template_match_shorter in Hm. simpl in *. lia.
    + intros Hrest. apply Hlast.
      change (last (DOLLAR :: c2 :: r2)) with (last (c2 :: r2)).
      rewrite Hused. destruct rest; [done|].
      by rewrite last_app, Hrest.
  - cbn [app]. rewrite !safe_substitute_text by done.
    cbn [app]. f_equal.
    apply (IH (length r)); [simpl; lia|done|].
    intros Hr. apply Hlast. destruct r; [done|]. exact Hr.
Qed.

End Substitution.

Section Placeholders.
Context (E : Env).

Lemma identifier_no_dollar key : is_identifier key → DOLLAR ∉ key.
Proof.
  intros [_ Hall] Hin. rewrite Forall_forall in Hall.
  by specialize (Hall _ Hin).
Qed.

(** A braced Template identifier is the [braced] group. *)
Lemma template_match_braced key post :
  is_template_id key →
  template_match (LBRACE :: key ++ RBRACE :: post) = (Braced key, post).
Proof.
  intros [[_ Hall] Hc]. destruct key as [|c r]; [done|]. simpl in Hc.
  apply Forall_cons in Hall as [_ Hall].
  unfold template_match. simpl. rewrite Hc.
  by rewrite (span_stop is_ident_char r RBRACE post Hall eq_refl).
Qed.

(** A braced word that starts with a digit matches no group. *)
Lemma template_match_not_id key post :
  is_identifier key → ¬ is_template_id key →
  template_match (LBRACE :: key ++ RBRACE :: post)
  = (Invalid, LBRACE :: key ++ RBRACE :: post).
Proof.
  intros Hid Hnot. unfold template_match. simpl.
  destruct key as [|c r]; [by destruct Hid|]. simpl.
  destruct (is_id_start c) eqn:Hc; [|done].
  destruct Hnot. by split.
Qed.

Lemma safe_substitute_placeholder mapping key post :
  is_identifier key →
  safe_substitute mapping (placeholder key ++ post)
  = (if decide (is_template_id key)
     then default (placeholder key) (mapping !! key)
     else placeholder key)
    ++ safe_substitute mapping post.
Proof.
  intros Hid. unfold placeholder. cbn [app].
  rewrite safe_substitute_dollar. rewrite <- app_assoc. cbn [app].
  destruct (decide (is_template_id key)) as [Htid|Hnot].
  - by rewrite template_match_braced.
  - rewrite template_match_not_id by done. cbn [fst snd convert].
    rewrite safe_substitute_text by done.
    rewrite safe_substitute_plain_app by (by apply identifier_no_dollar).
    rewrite safe_substitute_text by done.
    simpl. by rewrite <- app_assoc.
Qed.

(** The context after the loop over the items of the dict. *)
Lemma add_items_notin (d : list (pystr * Json)) (ctx ctx' : gmap pystr pystr) key :
  key ∉ d.*1 → add_items E d ctx = Ok ctx' → ctx' !! key = ctx !! key.
Proof.
  revert ctx. induction d as [|[k v] d IH]; intros ctx Hnot; simpl.
  { by intros [= <-]. }
  simpl in Hnot. apply not_elem_of_cons in Hnot as [Hk Hd].
  destruct (_format_value E 0 v) as [s|e]; [|done].
  intros Hadd. rewrite (IH _ Hd Hadd). by rewrite lookup_insert_ne.
Qed.

Lemma add_items_in (d : list (pystr * Json)) (ctx ctx' : gmap pystr pystr) key v :
  NoDup d.*1 → (key, v) ∈ d → add_items E d ctx = Ok ctx' →
  ctx' !! key = Some (formatted E v).
Proof.
  revert ctx. induction d as [|[k v'] d IH]; intros ctx Hnd Hin.
  { by apply elem_of_nil in Hin. }
  simpl in *. apply NoDup_cons in Hnd as [Hk Hnd].
  destruct (_format_value E 0 v') as [s|e] eqn:Hv; [|done].
  intros Hadd. apply elem_of_cons in Hin as [[= <- <-]|Hin].
  - rewrite (add_items_notin _ _ _ _ Hk Hadd), lookup_insert_eq.
    f_equal. by apply format_value_sound in Hv.
  - by apply (IH (<[k:=s]> ctx)).
Qed.

(** The loop raises what the first value raises that is not formatted. *)
Lemma add_items_raises (d : list (pystr * Json)) (ctx : gmap pystr pystr) e :
  add_items E d ctx = Exc e ↔
  ∃ before k v after,
    d = before ++ (k, v) :: after ∧
    Forall (λ kv, ∃ s, _format_value E 0 kv.2 = Ok s) before ∧
    _format_value E 0 v = Exc e.
Proof.
  revert ctx. induction d as [|[k0 v0] d IH]; intros ctx.
  { split; [done|]. intros (before & k & v & after & Hd & _).
    by destruct before. }
  simpl. destruct (_format_value E 0 v0) as [s|e0] eqn:Hv0.
  - rewrite IH. split.
    + intros (before & k & v & after & -> & Hall & Hv).
      exists ((k0, v0) :: before), k, v, after. split_and!; [done| |done].
      constructor; [by exists s|done].
    + intros (before & k & v & after & Hd & Hall & Hv).
      destruct before as [|x before]; simpl in Hd.
      * injection Hd as <- <- <-. congruence.
      * injection Hd as <- ->. apply Forall_cons in Hall as [_ Hall].
        by exists before, k, v, after.
  - split.
    + intros [= <-]. exists [], k0, v0, d. by split_and!.
    + intros (before & k & v & after & Hd & Hall & Hv).
      destruct before as [|x before]; simpl in Hd.
      * injection Hd as <- <- <-. congruence.
      * injection Hd as <- ->. apply Forall_cons in Hall as [[s Hs] _].
        simpl in Hs. congruence.
Qed.

(** The loop ends with the first exception, and with no other one. *)
Lemma add_items_outcome (d : list (pystr * Json)) (ctx : gmap pystr pystr) :
  str_never_raises E →
  if bool_decide (Forall (λ kv, activations kv.2 ≤ stack_room E)%nat d)
  then ∃ ctx', add_items E d ctx = Ok ctx'
  else add_items E d ctx = Exc (RecursionError (recursion_text E)).
Proof.
  intros Hstr. revert ctx. induction d as [|[k v] d IH]; intros ctx.
  { rewrite bool_decide_true by constructor. by eexists. }
  simpl. rewrite format_value_exact by done. simpl.
  destruct (decide (activations v ≤ stack_room E)%nat) as [Hfit|Hno].
  - rewrite (bool_decide_true (activations v ≤ _)%nat) by done.
    specialize (IH (<[k := formatted E v]> ctx)).
    destruct (decide (Forall (λ kv, activations kv.2 ≤ stack_room E)%nat d))
      as [Hall|Hnot].
    + rewrite bool_decide_true by (by constructor).
      by rewrite bool_decide_true in IH by done.
    + rewrite bool_decide_false by (by intros [_ ?]%Forall_cons).
      by rewrite bool_decide_false in IH by done.
  - rewrite (bool_decide_false (activations v ≤ _)%nat) by done.
    by rewrite bool_decide_false by (by intros [? _]%Forall_cons).
Qed.

Lemma build_context_provided d context key v :
  NoDup d.*1 → (key, v) ∈ d → build_context E (JDict d) = Ok context →
  context !! key = Some (formatted E v).
Proof. intros Hnd Hin. unfold build_context. by apply add_items_in. Qed.

Lemma build_context_missing d context key :
  key ∉ d.*1 → key ≠ u "timestamp" → key ≠ u "case_number" →
  build_context E (JDict d) = Ok context →
  context !! key = None.
Proof.
  intros Hnot H1 H2. unfold build_context. intros Hadd.
  rewrite (add_items_notin _ _ _ _ Hnot Hadd).
  rewrite lookup_insert_ne by done. rewrite lookup_insert_ne by done. done.
Qed.

(** The page when the values are formatted. *)
Lemma generate_html_content_ok self company_info context w :
  build_context E company_info = Ok context →
  generate_html_content E self company_info w
  = Ok match read_file E (template_path self) w with
       | Some template_str => safe_substitute context template_str
       | None => error_page E self
       end.
Proof. intros H. unfold generate_html_content. by rewrite H. Qed.

(** C3, as amended.  The values are formatted before the [try]:
    [generate_html_content] raises exactly when [_format_value] raises on
    a value of the dictionary, and then what the first such value raises.
    It does not raise when [str] does not raise and the activations of
    every value fit on the stack; when those of one value do not fit,
    [RecursionError] is raised.  When the values are formatted, a page is
    returned (the error page stands for every exception of the substitution
    step).  For a readable template, a placeholder [${key}] that does not
    follow a [$] is then replaced by the formatted value when [key] is
    provided and is an identifier [string.Template] accepts; it is left
    unchanged when [key] is missing from the context, and also when [key]
    starts with a digit. *)
Theorem generate_html_content_placeholder self w d pre key post :
  read_file E (template_path self) w = Some (pre ++ placeholder key ++ post) →
  last pre ≠ Some DOLLAR →
  is_identifier key →
  NoDup d.*1 →
  let out := generate_html_content E self (JDict d) w in
  (∀ e, out = Exc e ↔
        ∃ before k v after,
          d = before ++ (k, v) :: after ∧
          Forall (λ kv, ∃ s, _format_value E 0 kv.2 = Ok s) before ∧
          _format_value E 0 v = Exc e) ∧
  (str_never_raises E →
   Forall (λ kv, activations kv.2 ≤ stack_room E)%nat d →
   ∃ context,
     build_context E (JDict d) = Ok context ∧
     out = Ok (safe_substitute context (pre ++ placeholder key ++ post))) ∧
  (str_never_raises E →
   ¬ Forall (λ kv, activations kv.2 ≤ stack_room E)%nat d →
   out = Exc (RecursionError (recursion_text E))) ∧
  (∀ context, build_context E (JDict d) = Ok context →
     let around r :=
       safe_substitute context pre ++ r ++ safe_substitute context post in
     (∀ v, (key, v) ∈ d → is_template_id key →
           out = Ok (around (formatted E v))) ∧
     (context !! key = None → out = Ok (around (placeholder key))) ∧
     (key ∉ d.*1 → key ≠ u "timestamp" → key ≠ u "case_number" →
      out = Ok (around (placeholder key))) ∧
     (¬ is_template_id key → out = Ok (around (placeholder key)))).
Proof.
  intros Hfile Hlast Hid Hnd out. split_and!.
  - intros e. rewrite <- (add_items_raises d
      (<[u "case_number" := u "OP-D-V-" ++ clock_hhmm E]>
         (<[u "timestamp" := clock_stamp E]> ∅)) e).
    unfold out, generate_html_content, build_context.
    destruct (add_items E d _); split; congruence.
  - intros Hstr Hall.
    pose proof (add_items_outcome d
      (<[u "case_number" := u "OP-D-V-" ++ clock_hhmm E]>
         (<[u "timestamp" := clock_stamp E]> ∅)) Hstr) as H.
    rewrite bool_decide_true in H by done. destruct H as [context Hctx].
    change (build_context E (JDict d) = Ok context) in Hctx.
    exists context. split; [done|].
    unfold out. by rewrite (generate_html_content_ok _ _ _ _ Hctx), Hfile.
  - intros Hstr Hnot. unfold out, generate_html_content, build_context.
    pose proof (add_items_outcome d
      (<[u "case_number" := u "OP-D-V-" ++ clock_hhmm E]>
         (<[u "timestamp" := clock_stamp E]> ∅)) Hstr) as H.
    rewrite bool_decide_false in H by done. by rewrite H.
  - intros context Hctx around.
    assert (Hout : out = Ok (around
              (if decide (is_template_id key)
               then default (placeholder key) (context !! key)
               else placeholder key))).
    { unfold out. rewrite (generate_html_content_ok _ _ _ _ Hctx), Hfile.
      f_equal.
      change (placeholder key ++ post)
        with (DOLLAR :: (LBRACE :: key ++ [RBRACE]) ++ post).
      rewrite safe_substitute_app_dollar by done.
      change (DOLLAR :: (LBRACE :: key ++ [RBRACE]) ++ post)
        with (placeholder key ++ post).
      by rewrite (safe_substitute_placeholder _ key post Hid). }
    split_and!.
    + intros v Hin Htid. rewrite Hout. rewrite decide_True by done.
      by rewrite (build_context_provided d context key v).
    + intros Hnone. rewrite Hout, Hnone. by destruct (decide _).
    + intros Hnot H1 H2. rewrite Hout.
      rewrite (build_context_missing d context key) by done.
      by destruct (decide _).
    + intros Hnot. rewrite Hout. by rewrite decide_False.
Qed.

End Placeholders.

(** C3, the claim as stated fails twice.  The key [1st] is provided, and
    the placeholder [${1st}] is the whole template, yet the output is the
    placeholder and not the formatted value.  And for a dictionary whose
    value is the number 1 inside 333 lists, [generate_html_content] raises
    [RecursionError], where the stack has room for 665 activations. *)
Lemma generate_html_content_counterexample :
  read_file Examples.quiet_env (template_path Examples.sample_generator)
    Examples.digit_world
    = Some (placeholder (u "1st")) ∧
  (u "1st", JStr (u "x")) ∈ Examples.digit_info ∧
  generate_html_content Examples.quiet_env Examples.sample_generator
    (JDict Examples.digit_info) Examples.digit_world
    = Ok (placeholder (u "1st")) ∧
  generate_html_content Examples.quiet_env Examples.sample_generator
    (JDict Examples.digit_info) Examples.digit_world
    ≠ _format_value Examples.quiet_env 0 (JStr (u "x")) ∧
  generate_html_content Examples.quiet_env Examples.sample_generator
    (JDict [(u "name", nested 333 (JInt 1))]) Examples.sample_world
    = Exc (RecursionError (u "maximum recursion depth exceeded")).
Proof.
  split_and!.
  - vm_compute. reflexivity.
  - apply list_elem_of_here.
  - vm_compute. reflexivity.
  - vm_compute. discriminate.
  - vm_compute. reflexivity.
Qed.

(** The theorem at the sample template, for its first placeholder. *)
Lemma generate_html_content_placeholder_witness :
  generate_html_content Examples.quiet_env Examples.sample_generator
    (JDict Examples.nokia_items) Examples.sample_world
  = Ok (u "<h1>Nokia</h1><p>Espoo 2025-01-01 12:00 Nokia ${1st}</p>").
Proof.
  assert (Hfile : read_file Examples.quiet_env
                    (template_path Examples.sample_generator)
                    Examples.sample_world
                  = Some (u "<h1>" ++ placeholder (u "name")
                            ++ u "</h1><p>${city} ${timestamp} ${name} ${1st}</p>"))
    by (vm_compute; reflexivity).
  assert (Hlast : last (u "<h1>") ≠ Some DOLLAR) by (vm_compute; discriminate).
  assert (Hid : is_identifier (u "name"))
    by (apply (bool_decide_unpack _); vm_compute; exact I).
  assert (Htid : is_template_id (u "name"))
    by (apply (bool_decide_unpack _); vm_compute; exact I).
  assert (Hnd : NoDup Examples.nokia_items.*1)
    by (apply (bool_decide_unpack _); vm_compute; exact I).
  assert (Hin : (u "name", JStr (u "Nokia")) ∈ Examples.nokia_items)
    by apply list_elem_of_here.
  pose proof (generate_html_content_placeholder Examples.quiet_env
                _ _ _ _ _ _ Hfile Hlast Hid Hnd) as (_ & _ & _ & H).
  destruct (build_context Examples.quiet_env (JDict Examples.nokia_items))
    as [context|e] eqn:Hctx; [|vm_compute in Hctx; discriminate].
  rewrite (proj1 (H context eq_refl) _ Hin Htid).
  vm_compute in Hctx. injection Hctx as <-. vm_compute. reflexivity.
Defined.

Example generate_html_content_sample :
  generate_html_content Examples.quiet_env Examples.sample_generator
    (JDict Examples.nokia_items) Examples.sample_world
  = Ok (u "<h1>Nokia</h1><p>Espoo 2025-01-01 12:00 Nokia ${1st}</p>").
Proof. vm_compute. reflexivity. Qed.

(** ** File names *)

Section FileNames.
Context (E : Env).

Lemma Forall_lstrip (P : N → Prop) ws s : Forall P s → Forall P (lstrip ws s).
Proof.
  induction 1 as [|c s Hc Hs IH]; simpl; [constructor|].
  destruct (ws c); [exact IH|by constructor].
Qed.

Lemma Forall_strip (P : N → Prop) ws s : Forall P s → Forall P (strip ws s).
Proof.
  intros H. unfold strip, rstrip.
  apply Forall_rev, Forall_lstrip, Forall_rev, Forall_lstrip, H.
Qed.

(** C7, as amended: the name of the data file is the safe name followed by
    [_data.json]; the safe name holds only characters for which
    [str.isalnum] is true (non-ASCII letters and digits among them), [-] and
    [_], and no space; it is made by dropping every other character but the
    space, stripping, and turning each space into [_]. *)
Theorem data_file_name_spec company_name :
  data_file_name E company_name = safe_name_of E company_name ++ u "_data.json" ∧
  Forall (λ c, isalnum E c = true ∨ c = HYPHEN ∨ c = UNDERSCORE)
         (safe_name_of E company_name) ∧
  (SPACE ∉ safe_name_of E company_name) ∧
  safe_name_of E company_name
  = replace_char SPACE UNDERSCORE
      (strip (isspace E)
         (filter (λ c, isalnum E c = true ∨ c = SPACE ∨ c = HYPHEN ∨ c = UNDERSCORE)
                 company_name)).
Proof.
  split_and!.
  - reflexivity.
  - unfold safe_name_of, replace_char. apply Forall_fmap.
    apply Forall_strip. apply Forall_forall. intros c Hc.
    apply list_elem_of_filter in Hc as [Hc _]. simpl.
    destruct (N.eqb_spec c SPACE) as [->|Hne]; [by auto|].
    apply orb_prop in Hc as [Hc|Hc]; [by auto|].
    apply bool_decide_eq_true in Hc.
    rewrite !elem_of_cons, elem_of_nil in Hc. naive_solver.
  - unfold safe_name_of, replace_char. intros Hin.
    apply list_elem_of_fmap in Hin as (c & Hc & _).
    by destruct (N.eqb_spec c SPACE).
  - unfold safe_name_of. do 2 f_equal.
    apply list_filter_iff. intros c.
    rewrite orb_true_iff, bool_decide_eq_true, !elem_of_cons, elem_of_nil.
    naive_solver.
Qed.

End FileNames.

(** C7, the claim as stated fails: the letter with code point 233 is kept
    in the name of the data file, and it is no ASCII letter or digit. *)
Lemma data_file_name_non_ascii_counterexample :
  data_file_name Examples.quiet_env Examples.cafe
    = Examples.cafe ++ u "_data.json" ∧
  ¬ Forall (λ c, ascii_safe c = true)
           (safe_name_of Examples.quiet_env Examples.cafe).
Proof.
  split; [vm_compute; reflexivity|].
  intros H. assert (Hin : (233 : N) ∈ safe_name_of Examples.quiet_env Examples.cafe).
  { vm_compute. do 3 apply list_elem_of_further. apply list_elem_of_here. }
  rewrite Forall_forall in H. specialize (H _ Hin). vm_compute in H. discriminate.
Qed.

(** ** Effects of the Gemini client *)

(** Lists of events up to the bracketing of [++]. *)
Ltac list_norm :=
  repeat (progress (simpl; rewrite <- ?app_assoc, ?app_nil_r)).

Ltac unfold_M :=
  unfold mbind, M_bind, mret, M_ret, fmap, M_fmap, act, get, get_or_raise,
    raise, try_except.

Section Client.
Context (E : Env).

Lemma read_only_ret {A} (a : A) : read_only (mret a).
Proof. intros w. by exists a, w. Qed.

Lemma read_only_bind {A B} (m : M A) (k : A → M B) :
  read_only m → (∀ a, read_only (k a)) → read_only (m ≫= k).
Proof.
  intros Hm Hk w. destruct (Hm w) as (a & w1 & Hmw & Hd & Ha).
  destruct (Hk a w1) as (b & w2 & Hkw & Hd' & Ha').
  exists b, w2. unfold_M. rewrite Hmw, Hkw. split_and!; congruence.
Qed.

Lemma read_only_emit e : read_only (act (emit e)).
Proof. intros w. by exists tt, (emit e w). Qed.

Lemma read_only_post self url text : read_only (post E self url text).
Proof. intros w. eexists _, _. by split. Qed.

Lemma read_only_try_models self ms : read_only (try_models E self ms).
Proof.
  induction ms as [|model ms IH]; simpl; [apply read_only_ret|].
  apply read_only_bind; [apply read_only_post|].
  intros [status body|]; [|exact IH].
  destruct (status =? 200)%Z; [apply read_only_ret|exact IH].
Qed.

Lemma read_only_attempts n self url prompt :
  read_only (attempts E n self url prompt).
Proof.
  induction n as [|n IH]; simpl; [apply read_only_ret|].
  apply read_only_bind; [apply read_only_post|].
  intros [status body|]; [|apply read_only_ret].
  destruct (status =? 200)%Z; [apply read_only_ret|].
  destruct (status =? 429)%Z; [|apply read_only_ret].
  apply read_only_bind; [apply read_only_emit|]. intros _. exact IH.
Qed.

(** A property of the two ways of a query, with the model known and with
    the probe first, holds of [query_gemini]. *)
Lemma query_gemini_either (P : M (Json * CorporateProfileGenerator) → Prop)
  self prompt :
  (∀ m, P (r ← attempts E 3 self (model_url m) prompt; mret (r, self))) →
  P ('(base_url, self') ← find_working_model E self;
     match base_url with
     | None => mret (JNone, self')
     | Some base_url =>
         r ← attempts E 3 self' base_url prompt; mret (r, self')
     end) →
  P (query_gemini E self prompt).
Proof.
  intros Hready Hprobe. unfold query_gemini.
  destruct (working_model self) as [[|c m]|]; [exact Hprobe| |exact Hprobe].
  apply Hready.
Qed.

Lemma query_gemini_known self m prompt :
  working_model self = Some m → m ≠ [] →
  query_gemini E self prompt
  = (r ← attempts E 3 self (model_url m) prompt; mret (r, self)).
Proof.
  intros H Hm. unfold query_gemini. rewrite H. by destruct m.
Qed.

Lemma query_gemini_unknown self prompt :
  working_model self = None ∨ working_model self = Some [] →
  query_gemini E self prompt
  = ('(base_url, self') ← find_working_model E self;
     match base_url with
     | None => mret (JNone, self')
     | Some base_url =>
         r ← attempts E 3 self' base_url prompt; mret (r, self')
     end).
Proof. intros [H|H]; unfold query_gemini; by rewrite H. Qed.

Lemma read_only_query_gemini self prompt :
  read_only (query_gemini E self prompt).
Proof.
  apply query_gemini_either.
  - intros m. apply read_only_bind; [apply read_only_attempts|].
    intros. apply read_only_ret.
  - apply read_only_bind; [apply read_only_try_models|].
    intros [[url|] self']; [|apply read_only_ret].
    apply read_only_bind; [apply read_only_attempts|].
    intros. apply read_only_ret.
Qed.

Lemma keeps_dirs_generate_company_info self name fields :
  keeps_dirs (generate_company_info E self name fields).
Proof.
  intros w. unfold generate_company_info. unfold_M.
  destruct (read_only_query_gemini self (prompt_for name fields) w)
    as ([result self'] & w1 & -> & Hd & _).
  destruct (truthy result); [|done]. by destruct result.
Qed.

End Client.

Section ProcessCompany.
Context (E : Env).

Lemma entries_mkdir dir w : entries E dir (mkdir E dir w) = entries E dir w.
Proof.
  unfold entries, mkdir.
  destruct (dirs w !! dir_key E dir) eqn:Hd; [by rewrite Hd|].
  simpl. by rewrite lookup_insert_eq.
Qed.

Lemma entries_store dir name content w :
  entries E dir (store E dir name content w)
  = <[name := content]> (entries E dir w).
Proof. unfold entries, store. simpl. by rewrite lookup_insert_eq. Qed.

Lemma entries_write_file dir name content w :
  entries E dir (write_file E dir name content w)
  = <[name := content]> (entries E dir w).
Proof. apply entries_store. Qed.

Lemma entries_write_file_other dir key name content w :
  dir_key E dir ≠ key →
  dirs (write_file E dir name content w) !! key = dirs w !! key.
Proof. intros Hne. unfold write_file. simpl. by rewrite lookup_insert_ne. Qed.

(** C9, as amended: when [generate_company_info] yields a truthy value, a
    non-empty dictionary, [process_company] returns [(True, path)] and
    writes the one data file at [path]; when it yields [None], or the
    empty dictionary, [process_company] returns [(False, None)] and the
    output directory holds the entries it held before; when it raises,
    [process_company] raises and writes nothing either. *)
Theorem process_company_spec self company_name required_fields dir w :
  ∃ outcome w1,
    generate_company_info E self company_name required_fields (mkdir E dir w)
      = (outcome, w1) ∧
    entries E dir w1 = entries E dir w ∧
    truthy JNone = false ∧
    truthy (JDict []) = false ∧
    (∀ kv d, truthy (JDict (kv :: d)) = true) ∧
    match outcome with
    | Ok (info, self') =>
        if truthy info then
          let fname := data_file_name E company_name in
          let w' := write_file E dir fname (json_dumps E info) w1 in
          process_company E self company_name required_fields dir w
            = (Ok (true, Some (dir, fname), self'), w') ∧
          entries E dir w' = <[fname := json_dumps E info]> (entries E dir w) ∧
          trace w' = trace w1 ++ [EvWrite dir fname]
        else
          process_company E self company_name required_fields dir w
            = (Ok (false, None, self'), w1)
    | Exc e =>
        process_company E self company_name required_fields dir w = (Exc e, w1)
    end.
Proof.
  pose proof (keeps_dirs_generate_company_info E self company_name
                required_fields (mkdir E dir w)) as Hdirs.
  destruct (generate_company_info E self company_name required_fields
              (mkdir E dir w)) as [outcome w1] eqn:Hgen.
  simpl in Hdirs. exists outcome, w1.
  assert (Hentries : entries E dir w1 = entries E dir w).
  { unfold entries at 1. rewrite Hdirs. apply entries_mkdir. }
  split_and!; try done.
  unfold process_company. unfold_M. rewrite Hgen.
  destruct outcome as [[info self']|e]; [|done].
  destruct (truthy info); [|done].
  split_and!; [done| |done].
  by rewrite entries_write_file, Hentries.
Qed.

End ProcessCompany.

(** C9, the claim as stated fails: Gemini answers with the text [{}],
    [generate_company_info] yields the empty dictionary, and
    [process_company] returns [(False, None)] and writes nothing. *)
Lemma process_company_empty_dict_counterexample :
  (generate_company_info Examples.empty_dict_env Examples.fresh_generator
     (u "Nokia") [u "name"]
     (mkdir Examples.empty_dict_env (u "output") Examples.empty_world)).1
  = Ok (JDict [], Examples.ready_generator) ∧
  (process_company Examples.empty_dict_env Examples.fresh_generator
     (u "Nokia") [u "name"] (u "output") Examples.empty_world).1
  = Ok (false, None, Examples.ready_generator) ∧
  entries Examples.empty_dict_env (u "output")
    (process_company Examples.empty_dict_env Examples.fresh_generator
       (u "Nokia") [u "name"] (u "output") Examples.empty_world).2
  = ∅.
Proof. split_and!; vm_compute; reflexivity. Qed.

Example process_company_nokia :
  (process_company Examples.nokia_env Examples.fresh_generator
     (u "Nokia") [u "name"; u "city"] (u "output") Examples.empty_world).1
  = Ok (true, Some (u "output", u "Nokia_data.json"), Examples.ready_generator) ∧
  entries Examples.nokia_env (u "output")
    (process_company Examples.nokia_env Examples.fresh_generator
       (u "Nokia") [u "name"; u "city"] (u "output") Examples.empty_world).2
  !! u "Nokia_data.json" = Some Examples.nokia_text.
Proof. split; vm_compute; reflexivity. Qed.

(** ** The retry loop *)

Section Retry.
Context (E : Env).

(** One iteration of the loop, at any attempt. *)
Lemma attempts_step n self url prompt w :
  attempts E (S n) self url prompt w
  = match http_post E (requests_sent w) (request_url self url) prompt with
    | HttpResponse status body =>
        if (status =? 200)%Z
        then (Ok (default JNone (extract_text E body)), after_request self url prompt w)
        else if (status =? 429)%Z
        then attempts E n self url prompt
               (emit (EvSleep 20) (after_request self url prompt w))
        else (Ok JNone, after_request self url prompt w)
    | HttpRaises => (Ok JNone, after_request self url prompt w)
    end.
Proof.
  simpl. unfold_M. unfold post, after_request, request_url.
  destruct (http_post E _ _ _) as [status body|]; [|done].
  destruct (status =? 200)%Z; [done|]. by destruct (status =? 429)%Z.
Qed.

Lemma attempts_requests n self url prompt w :
  (requests_sent (attempts E n self url prompt w).2 ≤ requests_sent w + n)%nat.
Proof.
  revert w. induction n as [|n IH]; intros w; [simpl; lia|].
  rewrite attempts_step.
  destruct (http_post E _ _ _) as [status body|]; [|simpl; lia].
  destruct (status =? 200)%Z; [simpl; lia|].
  destruct (status =? 429)%Z; [|simpl; lia].
  etrans; [apply IH|]. simpl. lia.
Qed.

Lemma attempts_returns n self url prompt w :
  ∃ v, (attempts E n self url prompt w).1 = Ok v.
Proof.
  destruct (read_only_attempts E n self url prompt w) as (v & w' & -> & _).
  by exists v.
Qed.




Lemma query_gemini_ready self m prompt w :
  working_model self = Some m → m ≠ [] →
  query_gemini E self prompt w
  = match attempts E 3 self (model_url m) prompt w with
    | (Ok r, w') => (Ok (r, self), w')
    | (Exc e, w') => (Exc e, w')
    end.
Proof.
  intros H Hm. unfold query_gemini. rewrite H.
  destruct m as [|c m]; [done|]. by unfold_M.
Qed.

(** Without a model, the query starts with [find_working_model]. *)
Lemma query_gemini_fresh self prompt w :
  working_model self = None ∨ working_model self = Some [] →
  query_gemini E self prompt w
  = match find_working_model E self w with
    | (Ok (Some base_url, self'), w0) =>
        match attempts E 3 self' base_url prompt w0 with
        | (Ok r, w') => (Ok (r, self'), w')
        | (Exc e, w') => (Exc e, w')
        end
    | (Ok (None, self'), w0) => (Ok (JNone, self'), w0)
    | (Exc e, w0) => (Exc e, w0)
    end.
Proof.
  intros [H|H]; unfold query_gemini; rewrite H; unfold_M;
    destruct (find_working_model E self w) as [[[[url|] self']|e] w0]; done.
Qed.

Lemma post_eq self url text w :
  post E self url text w
  = (Ok (http_post E (requests_sent w) (request_url self url) text),
     after_request self url text w).
Proof. done. Qed.

Lemma try_models_step self model ms w :
  try_models E self (model :: ms) w
  = if probe_works E self (requests_sent w) model
    then (Ok (Some (model_url model), set_working_model model self),
          after_request self (model_url model) PROBE w)
    else try_models E self ms (after_request self (model_url model) PROBE w).
Proof.
  unfold probe_works. simpl. unfold mbind, M_bind. rewrite post_eq.
  fold PROBE.
  destruct (http_post E (requests_sent w) _ PROBE) as [status body|]; [|done].
  by destruct (status =? 200)%Z.
Qed.

Lemma requests_after_probes self ms w :
  requests_sent (after_probes self ms w) = (requests_sent w + length ms)%nat.
Proof.
  revert w. induction ms as [|m ms IH]; intros w; simpl.
  - lia.
  - rewrite IH. simpl. lia.
Qed.

Lemma trace_after_probes self ms w :
  trace (after_probes self ms w)
  = trace w ++ map (λ m, EvHttp (request_url self (model_url m)) PROBE) ms.
Proof.
  revert w. induction ms as [|m ms IH]; intros w; simpl.
  - by rewrite app_nil_r.
  - rewrite IH. simpl. by rewrite <- app_assoc.
Qed.



End Retry.

(** Without a working model, [query_gemini] starts with the probe of
    [find_working_model]: one request, not retried.  Unless it is answered
    with status 200, the result is [None]. *)
Lemma query_gemini_probe (E : Env) self model prompt w :
  working_model self = None → models self = [model] →
  let probe := u "Return the word 'OK'" in
  let w1 := after_request self (model_url model) probe w in
  match http_post E (requests_sent w) (request_url self (model_url model)) probe with
  | HttpResponse status _ =>
      if (status =? 200)%Z then
        query_gemini E self prompt w
        = match attempts E 3 (set_working_model model self) (model_url model) prompt w1 with
          | (Ok r, w') => (Ok (r, set_working_model model self), w')
          | (Exc e, w') => (Exc e, w')
          end
      else query_gemini E self prompt w = (Ok (JNone, self), w1)
  | HttpRaises => query_gemini E self prompt w = (Ok (JNone, self), w1)
  end.
Proof.
  intros Hnone Hmodels probe w1.
  unfold query_gemini, find_working_model. rewrite Hnone, Hmodels.
  simpl. unfold_M. unfold post. fold (request_url self (model_url model)).
  destruct (http_post E _ _ _) as [status body|]; [|done].
  by destruct (status =? 200)%Z.
Qed.

(** A generator whose model is the empty string probes again, as one
    without a model does. *)
Example query_gemini_empty_model :
  let g := {| api_key := u "k"; models := [u "gemini-2.5-flash"];
              working_model := Some [] |} in
  (query_gemini Examples.nokia_env g (u "hi") Examples.empty_world).1
  = Ok (JStr Examples.nokia_text, Examples.ready_generator) ∧
  requests_sent
    (query_gemini Examples.nokia_env g (u "hi") Examples.empty_world).2 = 2%nat.
Proof. split; vm_compute; reflexivity. Qed.

(** The query of a generator whose model is known, with every request
    answered 429: three requests, each followed by a wait. *)
Example query_gemini_busy :
  query_gemini Examples.busy_env Examples.ready_generator (u "hi")
    Examples.empty_world
  = (Ok (JNone, Examples.ready_generator),
     Nat.iter 3
       (λ w, emit (EvSleep 20)
               (after_request Examples.ready_generator
                  (model_url (u "gemini-2.5-flash")) (u "hi") w))
       Examples.empty_world).
Proof. vm_compute. reflexivity. Qed.


(** ** PDF rendering *)

Section Rendering.
Context (E : Env).

Lemma html_is_not_pdf f g :
  endswith (u ".html") f = true → f ≠ stem g ++ u ".pdf".
Proof.
  intros H ->. unfold endswith in H. rewrite rev_app_distr in H.
  simpl in H. discriminate.
Qed.

Lemma elem_of_glob_suffix suffix dir w f :
  f ∈ glob_suffix E suffix dir w → endswith suffix f = true.
Proof. unfold glob_suffix. by intros [? _]%list_elem_of_filter. Qed.

Lemma renders_ext dir w1 w2 f :
  entries E dir w1 !! f = entries E dir w2 !! f →
  renders E dir w1 f = renders E dir w2 f.
Proof. intros H. unfold renders. by rewrite H. Qed.

Lemma filter_renders_ext dir w1 w2 l :
  Forall (λ f, entries E dir w1 !! f = entries E dir w2 !! f) l →
  filter (λ f, renders E dir w1 f = true) l
  = filter (λ f, renders E dir w2 f = true) l.
Proof.
  induction 1 as [|f l Hf _ IH]; [done|].
  rewrite !filter_cons, IH, (renders_ext dir w1 w2 f Hf). done.
Qed.

(** The loop: every file is handed to WeasyPrint, in order, and the
    counter grows by the number of files that render. *)
Lemma compile_files_spec dir html_files success_count failed_files w :
  Forall (λ f, endswith (u ".html") f = true) html_files →
  ∃ failed' evs w',
    compile_files E dir html_files success_count failed_files w
    = (Ok ((success_count
            + length (filter (λ f, renders E dir w f = true) html_files))%nat,
           failed'), w') ∧
    trace w' = trace w ++ evs ∧
    render_attempts evs = html_files ∧
    ∀ f, endswith (u ".html") f = true →
         entries E dir w' !! f = entries E dir w !! f.
Proof.
  intros Hall. revert success_count failed_files w.
  induction Hall as [|f rest Hf Hrest IH]; intros success_count failed_files w.
  { exists failed_files, [], w. split_and!; try done.
    - simpl. unfold_M. by rewrite Nat.add_0_r.
    - by rewrite app_nil_r. }
  assert (Hstep : compile_files E dir (f :: rest) success_count failed_files w
    = match write_pdf E dir f (default [] (entries E dir w !! f)) with
      | Returns pdf =>
          compile_files E dir rest (S success_count) failed_files
            (write_file E dir (stem f ++ u ".pdf") pdf (emit (EvRender dir f) w))
      | Raises _ =>
          compile_files E dir rest success_count (failed_files ++ [f])
            (emit (EvRender dir f) w)
      end).
  { cbn [compile_files]. unfold_M. unfold entries. simpl.
    by destruct (write_pdf E dir f _). }
  rewrite Hstep. clear Hstep.
  destruct (write_pdf E dir f (default [] (entries E dir w !! f))) as [pdf|msg] eqn:Hw.
  - rewrite filter_cons_True by (unfold renders; by rewrite Hw).
    set (w1 := write_file E dir (stem f ++ u ".pdf") pdf (emit (EvRender dir f) w)).
    destruct (IH (S success_count) failed_files w1)
      as (failed' & evs & w' & Heq & Htrace & Hatt & Hkeep).
    assert (Hkeep1 : ∀ g, endswith (u ".html") g = true →
              entries E dir w1 !! g = entries E dir w !! g).
    { intros g Hg. unfold w1. rewrite entries_write_file.
      rewrite lookup_insert_ne by (apply not_eq_sym; by apply html_is_not_pdf).
      done. }
    exists failed', (EvRender dir f :: EvWrite dir (stem f ++ u ".pdf") :: evs), w'.
    split_and!.
    + rewrite Heq. do 3 f_equal.
      rewrite (filter_renders_ext dir w1 w).
      * simpl. lia.
      * eapply Forall_impl; [exact Hrest|]. intros g Hg. by apply Hkeep1.
    + rewrite Htrace. unfold w1. simpl. by rewrite <- !app_assoc.
    + simpl. by rewrite Hatt.
    + intros g Hg. by rewrite Hkeep, Hkeep1.
  - rewrite filter_cons_False by (unfold renders; by rewrite Hw).
    set (w1 := emit (EvRender dir f) w).
    destruct (IH success_count (failed_files ++ [f]) w1)
      as (failed' & evs & w' & Heq & Htrace & Hatt & Hkeep).
    exists failed', (EvRender dir f :: evs), w'.
    split_and!.
    + rewrite Heq. do 3 f_equal.
    + rewrite Htrace. unfold w1. simpl. by rewrite <- !app_assoc.
    + simpl. by rewrite Hatt.
    + intros g Hg. by rewrite Hkeep.
Qed.

Lemma compile_html_to_pdf_returns source_dir w :
  ∃ b, (compile_html_to_pdf E source_dir w).1 = Ok b.
Proof.
  unfold compile_html_to_pdf.
  destruct (weasyprint_available E); simpl; [|by eexists].
  unfold_M. destruct (dir_exists E source_dir w); simpl; [|by eexists].
  destruct (compile_files_spec source_dir
              (glob_suffix E (u ".html") source_dir w) O [] w)
    as (failed' & evs & w' & Heq & _).
  { apply Forall_forall. intros f. apply elem_of_glob_suffix. }
  rewrite Heq. by eexists.
Qed.

(** C10: [compile_html_to_pdf] does not raise; it returns [False] when
    WeasyPrint is unavailable or the source directory does not exist;
    otherwise it hands every [*.html] entry of the directory to WeasyPrint,
    in order and whether or not earlier ones failed; and it returns [True]
    if and only if at least one of these files was rendered. *)
Theorem compile_html_to_pdf_spec source_dir w :
  let html_files := glob_suffix E (u ".html") source_dir w in
  ∃ b evs w',
    compile_html_to_pdf E source_dir w = (Ok b, w') ∧
    trace w' = trace w ++ evs ∧
    (weasyprint_available E = false → b = false ∧ w' = w) ∧
    (dir_exists E source_dir w = false → b = false ∧ w' = w) ∧
    (weasyprint_available E = true → dir_exists E source_dir w = true →
       render_attempts evs = html_files) ∧
    (b = true ↔
       weasyprint_available E = true ∧ dir_exists E source_dir w = true ∧
       ∃ f, f ∈ html_files ∧ renders E source_dir w f = true).
Proof.
  intros html_files. unfold compile_html_to_pdf.
  destruct (weasyprint_available E) eqn:Havail; simpl.
  2:{ exists false, [], w. unfold_M. rewrite app_nil_r.
      split_and!; try done. split; [done|]. by intros [? _]. }
  unfold_M.
  destruct (dir_exists E source_dir w) eqn:Hdir; simpl.
  2:{ exists false, [], w. rewrite app_nil_r.
      split_and!; try done.
      split; [done|]. by intros (_ & ? & _). }
  destruct (compile_files_spec source_dir html_files O [] w)
    as (failed' & evs & w' & Heq & Htrace & Hatt & _).
  { apply Forall_forall. intros f. apply elem_of_glob_suffix. }
  fold html_files. rewrite Heq. simpl.
  eexists _, evs, w'. split_and!; try done.
  rewrite bool_decide_eq_true. split.
  - intros Hpos. split_and!; [done|done|].
    destruct (filter _ html_files) as [|f l] eqn:Hfilter; [simpl in Hpos; lia|].
    assert (Hf : f ∈ filter (λ f, renders E source_dir w f = true) html_files)
      by (rewrite Hfilter; apply list_elem_of_here).
    apply list_elem_of_filter in Hf as [Hf Hin]. by exists f.
  - intros (_ & _ & f & Hin & Hf).
    assert (Hin' : f ∈ filter (λ f, renders E source_dir w f = true) html_files)
      by (by apply list_elem_of_filter).
    destruct (filter _ html_files); [by apply elem_of_nil in Hin'|simpl; lia].
Qed.

End Rendering.

Example compile_html_to_pdf_after_failure :
  glob_suffix Examples.picky_env (u ".html") (u "output") Examples.pages_world
    = [u "b.html"; u "a.html"] ∧
  renders Examples.picky_env (u "output") Examples.pages_world (u "b.html") = false ∧
  (compile_html_to_pdf Examples.picky_env (u "output") Examples.pages_world).1
    = Ok true ∧
  render_attempts
    (trace (compile_html_to_pdf Examples.picky_env (u "output")
              Examples.pages_world).2)
    = [u "b.html"; u "a.html"].
Proof. split_and!; vm_compute; reflexivity. Qed.

(** ** The batch entry point *)

Section Batch.
Context (E : Env).

(** With the key set, [main] stops at the call of
    [process_companies_from_list]: the class has no such attribute.  The
    output directory has been created, and nothing else has happened. *)
Lemma main_stops_at_missing_method w c key :
  api_key_env w = Some (c :: key) →
  Main.main E w
  = (Exc (AttributeError (u "process_companies_from_list")),
     mkdir E Main.OUTPUT_DIR w).
Proof.
  intros Hkey. unfold Main.main. unfold_M. rewrite Hkey.
  unfold init. simpl. reflexivity.
Qed.

(** Without the key, [main] returns at once. *)
Lemma main_without_key w :
  api_key_env w = None → Main.main E w = (Ok tt, w).
Proof. intros Hkey. unfold Main.main. unfold_M. by rewrite Hkey. Qed.

End Batch.

(** C1, the code at a failing input: the key is set, the target list is
    the non-empty list of the source, and every request would be answered
    with a profile.  [main] raises [AttributeError]; no request is sent, no
    logo is searched, no file is written and nothing is rendered. *)
Theorem main_raises_before_any_phase :
  Main.TARGET_COMPANIES ≠ [] ∧
  (Main.main Examples.nokia_env
     (Examples.with_key (u "k") Examples.empty_world)).1
  = Exc (AttributeError (u "process_companies_from_list")) ∧
  trace (Main.main Examples.nokia_env
           (Examples.with_key (u "k") Examples.empty_world)).2 = [] ∧
  entries Examples.nokia_env Main.OUTPUT_DIR
    (Main.main Examples.nokia_env
       (Examples.with_key (u "k") Examples.empty_world)).2 = ∅.
Proof. split_and!; [done|vm_compute; reflexivity..]. Qed.

(** ** The progress computation in binary64 *)

Section FloatFacts.
Import PyFloat.
Local Open Scope Z_scope.


Lemma pow_den_pos e : 0 < pow_den e.
Proof. unfold pow_den. apply Z.pow_pos_nonneg; lia. Qed.
Lemma pow_num_pos e : 0 < pow_num e.
Proof. unfold pow_num. apply Z.pow_pos_nonneg; lia. Qed.

Lemma pow2_ge_2 f : 1 <= f -> 2 <= 2 ^ f.
Proof.
  intros H. replace f with (1 + (f - 1)) by lia.
  rewrite Z.pow_add_r by lia. 
  assert (0 < 2 ^ (f - 1)) by (apply Z.pow_pos_nonneg; lia). lia.
Qed.

(** [pow_den e / pow_num e] is [2 ^ e]: a shift of the exponent by [f]
    multiplies by [2 ^ f]. *)
Lemma pow_den_nonneg e : 0 <= e -> pow_den e = 2 ^ e.
Proof. intros. unfold pow_den. by rewrite Z.max_l. Qed.
Lemma pow_den_neg e : e <= 0 -> pow_den e = 1.
Proof. intros. unfold pow_den. by rewrite Z.max_r. Qed.
Lemma pow_num_nonneg e : 0 <= e -> pow_num e = 1.
Proof. intros. unfold pow_num. rewrite Z.max_r by lia. reflexivity. Qed.
Lemma pow_num_neg e : e <= 0 -> pow_num e = 2 ^ (- e).
Proof. intros. unfold pow_num. rewrite Z.max_l by lia. reflexivity. Qed.

Lemma shift_exponent e f :
  0 <= f -> pow_den (e + f) * pow_num e = 2 ^ f * pow_den e * pow_num (e + f).
Proof.
  intros Hf.
  destruct (Z.le_gt_cases 0 e) as [He|He].
  - rewrite !pow_den_nonneg, !pow_num_nonneg by lia.
    rewrite Z.pow_add_r by lia. ring.
  - destruct (Z.le_gt_cases 0 (e + f)) as [Hef|Hef].
    + rewrite (pow_den_nonneg (e + f)), (pow_num_neg e), (pow_den_neg e), (pow_num_nonneg (e + f)) by lia.
      rewrite <- Z.pow_add_r by lia. 
      replace (e + f + - e) with f by lia. ring.
    + rewrite (pow_den_neg (e + f)), (pow_num_neg e), (pow_den_neg e), (pow_num_neg (e + f)) by lia.
      replace (2 ^ f * 1 * 2 ^ (- (e + f))) with (2 ^ f * 2 ^ (- (e + f))) by ring.
      rewrite <- Z.pow_add_r by lia.
      replace (f + - (e + f)) with (- e) by lia. ring.
Qed.

Lemma log_exponent a b :
  0 <= a -> 0 <= b -> 2 ^ a * pow_num (a - b) = 2 ^ b * pow_den (a - b).
Proof.
  intros Ha Hb.
  destruct (Z.le_gt_cases b a) as [H|H].
  - rewrite pow_num_nonneg, pow_den_nonneg by lia.
    rewrite <- Z.pow_add_r by lia. replace (b + (a - b)) with a by lia. ring.
  - rewrite pow_num_neg, pow_den_neg by lia.
    rewrite <- Z.pow_add_r by lia. replace (a + - (a - b)) with b by lia. ring.
Qed.

Lemma scaled_eq n d e : scaled n d e = (n * pow_num e, d * pow_den e).
Proof. reflexivity. Qed.

Lemma mul_lt_cancel a b c : 0 < c -> a * c < b * c -> a < b.
Proof. intros. nia. Qed.
Lemma mul_le_cancel a b c : 0 < c -> a * c <= b * c -> a <= b.
Proof. intros. nia. Qed.

Lemma ilog2_spec n d :
  0 < n -> 0 < d ->
  d * pow_den (ilog2 n d) <= n * pow_num (ilog2 n d) < 2 * (d * pow_den (ilog2 n d)).
Proof.
  intros Hn Hd. unfold ilog2. rewrite scaled_eq.
  set (ln := Z.log2 n). set (ld := Z.log2 d). set (e0 := ln - ld).
  pose proof (Z.log2_spec n Hn) as [Hn1 Hn2]. fold ln in Hn1, Hn2.
  pose proof (Z.log2_spec d Hd) as [Hd1 Hd2]. fold ld in Hd1, Hd2.
  rewrite Z.pow_succ_r in Hn2, Hd2 by apply Z.log2_nonneg.
  pose proof (log_exponent ln ld (Z.log2_nonneg n) (Z.log2_nonneg d)) as HF.
  fold e0 in HF.
  pose proof (pow_den_pos e0) as HP. pose proof (pow_num_pos e0) as HN.
  assert (0 < 2 ^ ln) by (apply Z.pow_pos_nonneg; [lia|apply Z.log2_nonneg]).
  assert (0 < 2 ^ ld) by (apply Z.pow_pos_nonneg; [lia|apply Z.log2_nonneg]).
  assert (HA : n * pow_num e0 < 2 * (d * pow_den e0)).
  { assert (n * pow_num e0 < 2 * 2 ^ ln * pow_num e0) by nia.
    assert (2 ^ ld * pow_den e0 <= d * pow_den e0) by nia. nia. }
  assert (HB : d * pow_den e0 < 2 * (n * pow_num e0)).
  { assert (d * pow_den e0 < 2 * 2 ^ ld * pow_den e0) by nia.
    assert (2 ^ ln * pow_num e0 <= n * pow_num e0) by nia. nia. }
  destruct (Z.ltb_spec (n * pow_num e0) (d * pow_den e0)) as [Hlt|Hge].
  - pose proof (shift_exponent (e0 - 1) 1 ltac:(lia)) as HS.
    replace (e0 - 1 + 1) with e0 in HS by lia. change (2 ^ 1) with 2 in HS.
    pose proof (pow_den_pos (e0 - 1)). pose proof (pow_num_pos (e0 - 1)).
    split.
    + apply (mul_le_cancel _ _ (pow_num e0)); [lia|].
      assert (d * pow_den (e0 - 1) * pow_num e0 * 2 = d * (pow_den e0 * pow_num (e0 - 1))) by (rewrite HS; ring).
      assert (d * pow_den e0 * pow_num (e0 - 1) <= 2 * (n * pow_num e0) * pow_num (e0 - 1)) by nia.
      nia.
    + apply (mul_lt_cancel _ _ (pow_num e0)); [lia|].
      assert (n * pow_num e0 * pow_num (e0 - 1) < d * pow_den e0 * pow_num (e0 - 1)) by nia.
      assert (d * pow_den e0 * pow_num (e0 - 1) = d * (2 * pow_den (e0 - 1) * pow_num e0)) by (rewrite <- HS; ring).
      nia.
  - lia.
Qed.

Lemma round_half_even_spec n d :
  0 < d ->
  let m := round_half_even n d in
  - d <= 2 * (n - m * d) <= d /\
  (2 * (n - m * d) = d -> Z.even m = true) /\
  (2 * (n - m * d) = - d -> Z.even m = true).
Proof.
  intros Hd. unfold round_half_even.
  pose proof (Z.div_mod n d ltac:(lia)) as Hdm.
  pose proof (Z.mod_pos_bound n d Hd) as Hr.
  set (q := n / d) in *. set (r := n mod d) in *.
  destruct (Z.ltb_spec (2 * r) d) as [H1|H1]; cbv zeta.
  { split_and!; [nia|nia|nia|nia]. }
  destruct (Z.ltb_spec d (2 * r)) as [H2|H2].
  { split_and!; [nia|nia|nia|nia]. }
  destruct (Z.even q) eqn:Hev.
  - split_and!; [nia|nia|done|done].
  - assert (Hev' : Z.even (q + 1) = true).
    { rewrite Z.add_1_r, Z.even_succ, <- Z.negb_even, Hev. done. }
    split_and!; [nia|nia|done|done].
Qed.

Lemma round_half_even_mono n1 d1 n2 d2 :
  0 < d1 -> 0 < d2 -> n1 * d2 <= n2 * d1 ->
  round_half_even n1 d1 <= round_half_even n2 d2.
Proof.
  intros Hd1 Hd2 Hle.
  destruct (round_half_even_spec n1 d1 Hd1) as ([Hlo1 Hhi1] & Hup1 & Hdn1).
  destruct (round_half_even_spec n2 d2 Hd2) as ([Hlo2 Hhi2] & Hup2 & Hdn2).
  set (m1 := round_half_even n1 d1) in *. set (m2 := round_half_even n2 d2) in *.
  destruct (Z.le_gt_cases m1 m2) as [|Hgt]; [done|exfalso].
  assert (H1 : (2 * m1 - 1) * (d1 * d2) <= 2 * n1 * d2) by nia.
  assert (H2 : 2 * n2 * d1 <= (2 * m2 + 1) * (d1 * d2)) by nia.
  assert (Hdd : 0 < d1 * d2) by nia.
  assert (H3 : (2 * m1 - 1) * (d1 * d2) <= (2 * m2 + 1) * (d1 * d2)) by lia.
  assert (Hm : m1 = m2 + 1) by nia.
  assert (E1 : 2 * (n1 - m1 * d1) = - d1) by nia.
  assert (E2 : 2 * (n2 - m2 * d2) = d2) by nia.
  apply Hdn1 in E1. apply Hup2 in E2.
  apply Z.even_spec in E1 as [k1 E1]. apply Z.even_spec in E2 as [k2 E2]. lia.
Qed.

Lemma round_half_even_exact m d : 0 < d -> round_half_even (m * d) d = m.
Proof.
  intros Hd. unfold round_half_even.
  rewrite Z.div_mul, Z.mod_mul by lia.
  destruct (Z.ltb_spec (2 * 0) d); [done|lia].
Qed.

Lemma round_half_even_bounds lo hi n d :
  0 < d -> lo * d <= n <= hi * d -> lo <= round_half_even n d <= hi.
Proof.
  intros Hd [H1 H2]. split.
  - rewrite <- (round_half_even_exact lo d Hd).
    apply round_half_even_mono; nia.
  - rewrite <- (round_half_even_exact hi d Hd).
    apply round_half_even_mono; nia.
Qed.

Lemma ilog2_mono n1 d1 n2 d2 :
  0 < n1 -> 0 < d1 -> 0 < n2 -> 0 < d2 -> n1 * d2 <= n2 * d1 ->
  ilog2 n1 d1 <= ilog2 n2 d2.
Proof.
  intros Hn1 Hd1 Hn2 Hd2 Hle.
  pose proof (ilog2_spec n1 d1 Hn1 Hd1) as [Hx _].
  pose proof (ilog2_spec n2 d2 Hn2 Hd2) as [_ Hy].
  set (E1 := ilog2 n1 d1) in *. set (E2 := ilog2 n2 d2) in *.
  destruct (Z.le_gt_cases E1 E2) as [|Hgt]; [done|exfalso].
  pose proof (shift_exponent E2 (E1 - E2) ltac:(lia)) as HS.
  replace (E2 + (E1 - E2)) with E1 in HS by lia.
  pose proof (pow2_ge_2 (E1 - E2) ltac:(lia)) as Hf.
  set (F := 2 ^ (E1 - E2)) in *.
  pose proof (pow_den_pos E1) as HP1. pose proof (pow_num_pos E1) as HN1.
  pose proof (pow_den_pos E2) as HP2. pose proof (pow_num_pos E2) as HN2.
  set (p1 := pow_den E1) in *. set (q1 := pow_num E1) in *.
  set (p2 := pow_den E2) in *. set (q2 := pow_num E2) in *.
  assert (A1 : d1 * p1 * (d2 * q2) <= n1 * q1 * (d2 * q2)) by nia.
  assert (A2 : n1 * d2 * (q1 * q2) <= n2 * d1 * (q1 * q2)) by nia.
  assert (A3 : d1 * d2 * (p1 * q2) <= n2 * q2 * (d1 * q1)) by nia.
  rewrite HS in A3.
  assert (A4 : d2 * F * p2 * (d1 * q1) <= n2 * q2 * (d1 * q1)) by nia.
  assert (A5 : d2 * F * p2 <= n2 * q2).
  { apply (mul_le_cancel _ _ (d1 * q1)); nia. }
  nia.
Qed.


Lemma round53_zero d : round53 0 d = {| mant := 0; expo := 0 |}.
Proof. reflexivity. Qed.

Lemma round53_pos n d :
  0 < n -> 0 < d ->
  expo (round53 n d) = ilog2 n d - 52 /\
  2 ^ 52 <= mant (round53 n d) <= 2 ^ 53.
Proof.
  intros Hn Hd. unfold round53.
  destruct (Z.eqb_spec n 0) as [|_]; [lia|].
  rewrite scaled_eq. cbn [mant expo]. split; [done|].
  pose proof (ilog2_spec n d Hn Hd) as [Hlo Hhi].
  set (E := ilog2 n d) in *.
  pose proof (shift_exponent (E - 52) 52 ltac:(lia)) as HS.
  replace (E - 52 + 52) with E in HS by lia.
  pose proof (pow_den_pos E). pose proof (pow_num_pos E).
  pose proof (pow_den_pos (E - 52)). pose proof (pow_num_pos (E - 52)).
  set (p := pow_den E) in *. set (q := pow_num E) in *.
  set (p' := pow_den (E - 52)) in *. set (q' := pow_num (E - 52)) in *.
  set (T := 2 ^ 52) in *.
  assert (HT : 2 ^ 53 = 2 * T) by reflexivity. rewrite HT.
  assert (0 < T) by reflexivity.
  apply round_half_even_bounds; [nia|].
  split.
  - apply (mul_le_cancel _ _ q); [lia|].
    assert (T * (d * p') * q = d * (T * p' * q)) by ring.
    assert (d * (p * q') <= n * q * q') by nia.
    rewrite HS in *. nia.
  - apply (mul_le_cancel _ _ q); [lia|].
    assert (2 * T * (d * p') * q = 2 * d * (T * p' * q)) by ring.
    assert (n * q * q' <= 2 * (d * p) * q') by nia.
    assert (2 * (d * p) * q' = 2 * d * (p * q')) by ring.
    rewrite HS in *. nia.
Qed.

Lemma round53_mant_nonneg n d : 0 <= n -> 0 < d -> 0 <= mant (round53 n d).
Proof.
  intros Hn Hd. destruct (Z.eq_dec n 0) as [->|Hne]; [done|].
  destruct (round53_pos n d ltac:(lia) Hd) as [_ [H _]].
  assert (0 < 2 ^ 52) by reflexivity. lia.
Qed.

Lemma round53_mono n1 d1 n2 d2 :
  0 <= n1 -> 0 < d1 -> 0 <= n2 -> 0 < d2 -> n1 * d2 <= n2 * d1 ->
  float_le (round53 n1 d1) (round53 n2 d2).
Proof.
  intros Hn1 Hd1 Hn2 Hd2 Hle. unfold float_le, frac. rewrite !scaled_eq.
  cbn [fst snd].
  destruct (Z.eq_dec n1 0) as [->|Hne1].
  { rewrite round53_zero. cbn [mant expo].
    pose proof (round53_mant_nonneg n2 d2 Hn2 Hd2).
    pose proof (pow_num_pos (- expo (round53 n2 d2))).
    pose proof (pow_den_pos (- 0)). nia. }
  assert (Hp1 : 0 < n1) by lia.
  assert (Hp2 : 0 < n2) by nia.
  destruct (round53_pos n1 d1 Hp1 Hd1) as [He1 [Hlo1 Hhi1]].
  destruct (round53_pos n2 d2 Hp2 Hd2) as [He2 [Hlo2 Hhi2]].
  pose proof (ilog2_mono n1 d1 n2 d2 Hp1 Hd1 Hp2 Hd2 Hle) as HE.
  destruct (Z.eq_dec (ilog2 n1 d1) (ilog2 n2 d2)) as [Heq|Hneq].
  - assert (Hm : mant (round53 n1 d1) <= mant (round53 n2 d2)).
    { unfold round53.
      destruct (Z.eqb_spec n1 0); [lia|]. destruct (Z.eqb_spec n2 0); [lia|].
      rewrite !scaled_eq. cbn [mant]. rewrite Heq.
      set (e := ilog2 n2 d2 - 52).
      pose proof (pow_den_pos e). pose proof (pow_num_pos e).
      apply round_half_even_mono; [nia|nia|].
      assert (n1 * d2 * (pow_num e * pow_den e) <= n2 * d1 * (pow_num e * pow_den e)) by nia.
      nia. }
    rewrite He1, He2, Heq.
    set (e := - (ilog2 n2 d2 - 52)).
    pose proof (pow_den_pos e). pose proof (pow_num_pos e). nia.
  - rewrite He1, He2.
    set (e1 := ilog2 n1 d1 - 52) in *. set (e2 := ilog2 n2 d2 - 52) in *.
    pose proof (shift_exponent (- e2) (e2 - e1) ltac:(lia)) as HS.
    replace (- e2 + (e2 - e1)) with (- e1) in HS by lia.
    pose proof (pow2_ge_2 (e2 - e1) ltac:(lia)) as Hf.
    set (F := 2 ^ (e2 - e1)) in *.
    pose proof (pow_den_pos (- e1)). pose proof (pow_num_pos (- e1)).
    pose proof (pow_den_pos (- e2)). pose proof (pow_num_pos (- e2)).
    set (p1 := pow_den (- e1)) in *. set (q1 := pow_num (- e1)) in *.
    set (p2 := pow_den (- e2)) in *. set (q2 := pow_num (- e2)) in *.
    set (m1 := mant (round53 n1 d1)) in *. set (m2 := mant (round53 n2 d2)) in *.
    set (T := 2 ^ 52) in *. assert (HT : 2 ^ 53 = 2 * T) by reflexivity.
    rewrite HT in *. assert (0 < T) by reflexivity.
    assert (m2 * q2 * (1 * p1) = m2 * (p1 * q2)) by ring.
    assert (A : m1 * (p2 * q1) <= 2 * T * (p2 * q1)) by nia.
    assert (B : 2 * T * (p2 * q1) <= m2 * (F * (p2 * q1))) by nia.
    assert (C : m2 * (p1 * q2) = m2 * (F * (p2 * q1))) by (rewrite HS; ring).
    nia.
Qed.

Lemma to_int_mono x y :
  0 <= mant x -> float_le x y -> to_int x <= to_int y.
Proof.
  unfold float_le, to_int, frac. rewrite !scaled_eq. cbn [fst snd].
  intros Hx Hle.
  pose proof (pow_den_pos (- expo x)). pose proof (pow_num_pos (- expo x)).
  pose proof (pow_den_pos (- expo y)). pose proof (pow_num_pos (- expo y)).
  set (a := mant x * pow_num (- expo x)) in *. set (b := 1 * pow_den (- expo x)) in *.
  set (c := mant y * pow_num (- expo y)) in *. set (d := 1 * pow_den (- expo y)) in *.
  assert (Hb : 0 < b) by (unfold b; lia). assert (Hd : 0 < d) by (unfold d; lia).
  apply Z.div_le_lower_bound; [done|].
  pose proof (Z.mul_div_le a b Hb).
  assert (0 <= a / b) by (apply Z.div_pos; nia).
  apply (mul_le_cancel _ _ b); [done|]. nia.
Qed.

Lemma mul_int_mono x y k :
  0 <= k -> 0 <= mant x -> 0 <= mant y -> float_le x y ->
  float_le (mul_int x k) (mul_int y k).
Proof.
  unfold float_le at 1, frac, mul_int. rewrite !scaled_eq. cbn [fst snd].
  intros Hk Hx Hy Hle.
  pose proof (pow_den_pos (- expo x)). pose proof (pow_num_pos (- expo x)).
  pose proof (pow_den_pos (- expo y)). pose proof (pow_num_pos (- expo y)).
  apply round53_mono; nia.
Qed.

Lemma mul_int_mant_nonneg x k : 0 <= k -> 0 <= mant x -> 0 <= mant (mul_int x k).
Proof.
  intros Hk Hx. unfold mul_int. rewrite scaled_eq.
  pose proof (pow_den_pos (- expo x)). pose proof (pow_num_pos (- expo x)).
  apply round53_mant_nonneg; nia.
Qed.

Lemma percent_mono k k' t :
  0 <= k <= k' -> 0 < t -> percent k t <= percent k' t.
Proof.
  intros [Hk Hkk] Ht. unfold percent, truediv.
  apply to_int_mono.
  - apply mul_int_mant_nonneg; [lia|]. by apply round53_mant_nonneg.
  - apply mul_int_mono; [lia| | |].
    + by apply round53_mant_nonneg.
    + apply round53_mant_nonneg; lia.
    + apply round53_mono; nia.
Qed.

Lemma percent_zero t : percent 0 t = 0.
Proof. reflexivity. Qed.

Lemma truediv_same t : 0 < t -> truediv t t = {| mant := 2 ^ 52; expo := -52 |}.
Proof.
  intros Ht. unfold truediv, round53.
  destruct (Z.eqb_spec t 0); [lia|].
  assert (Hlog : ilog2 t t = 0).
  { unfold ilog2. rewrite Z.sub_diag, scaled_eq.
    by rewrite Z.ltb_irrefl. }
  rewrite Hlog, scaled_eq. f_equal.
  change (pow_num (0 - 52)) with (2 ^ 52). change (pow_den (0 - 52)) with 1.
  rewrite (Z.mul_comm t (2 ^ 52)), Z.mul_1_r.
  by apply round_half_even_exact.
Qed.

Lemma percent_full t : 0 < t -> percent t t = 100.
Proof. intros Ht. unfold percent. by rewrite truediv_same. Qed.

Lemma percent_range k t : 0 <= k <= t -> 0 < t -> 0 <= percent k t <= 100.
Proof.
  intros [Hk Hkt] Ht. split.
  - rewrite <- (percent_zero t). apply percent_mono; lia.
  - rewrite <- (percent_full t Ht). apply percent_mono; lia.
Qed.

End FloatFacts.

(** ** Events of a run *)

Section Events.
Context (E : Env).

Lemma only_ret (P : Event → Prop) {A} (a : A) : only P (mret a).
Proof. intros w. exists []. by rewrite app_nil_r. Qed.

Lemma only_raise (P : Event → Prop) {A} e : only P (raise (A:=A) e).
Proof. intros w. exists []. by rewrite app_nil_r. Qed.

Lemma only_get (P : Event → Prop) {A} (f : World → A) : only P (get f).
Proof. intros w. exists []. by rewrite app_nil_r. Qed.

Lemma only_get_or_raise (P : Event → Prop) {A} (f : World → Res A) :
  only P (get_or_raise f).
Proof. intros w. exists []. by rewrite app_nil_r. Qed.

Lemma only_emit (P : Event → Prop) e : P e → only P (act (emit e)).
Proof. intros He w. exists [e]. split; [done|]. by constructor. Qed.

Lemma only_act (P : Event → Prop) f :
  (∀ w, trace (f w) = trace w) → only P (act f).
Proof. intros Hf w. exists []. simpl. by rewrite Hf, app_nil_r. Qed.

Lemma only_bind (P : Event → Prop) {A B} (m : M A) (k : A → M B) :
  only P m → (∀ a, only P (k a)) → only P (m ≫= k).
Proof.
  intros Hm Hk w. destruct (Hm w) as (evs1 & Ht1 & H1).
  unfold_M. destruct (m w) as [[a|e] w1]; simpl in *.
  - destruct (Hk a w1) as (evs2 & Ht2 & H2).
    exists (evs1 ++ evs2). rewrite Ht2, Ht1, app_assoc.
    split; [done|]. by apply Forall_app.
  - by exists evs1.
Qed.

Lemma only_try_except (P : Event → Prop) {A} (m : M A) h :
  only P m → (∀ e, only P (h e)) → only P (try_except m h).
Proof.
  intros Hm Hh w. destruct (Hm w) as (evs1 & Ht1 & H1).
  unfold try_except. destruct (m w) as [[a|e] w1]; simpl in *.
  - by exists evs1.
  - destruct (Hh e w1) as (evs2 & Ht2 & H2).
    exists (evs1 ++ evs2). rewrite Ht2, Ht1, app_assoc.
    split; [done|]. by apply Forall_app.
Qed.

Lemma only_mono (P Q : Event → Prop) {A} (m : M A) :
  (∀ e, P e → Q e) → only P m → only Q m.
Proof.
  intros HPQ Hm w. destruct (Hm w) as (evs & Ht & H).
  exists evs. split; [done|]. by eapply Forall_impl.
Qed.

Lemma startswith_app p q : startswith p (p ++ q) = true.
Proof. induction p as [|a p IH]; [done|]. simpl. by rewrite N.eqb_refl. Qed.

Lemma endswith_app s x : endswith s (x ++ s) = true.
Proof. unfold endswith. rewrite rev_app_distr. apply startswith_app. Qed.

Lemma plain_http url text : plain 1 (EvHttp url text).
Proof. done. Qed.

Lemma plain_sleep s : plain 1 (EvSleep s).
Proof. done. Qed.

Lemma plain_write_data dir x : plain 1 (EvWrite dir (x ++ u "_data.json")).
Proof. split; [|done]. simpl. by rewrite endswith_app. Qed.

Lemma plain_write_html dir x : plain 3 (EvWrite dir (x ++ u "_profile.html")).
Proof.
  split; [|done]. simpl. rewrite endswith_app.
  unfold endswith. by rewrite rev_app_distr.
Qed.

Lemma plain_write_pdf dir x : plain 4 (EvWrite dir (x ++ u ".pdf")).
Proof.
  split; [|done]. simpl. rewrite endswith_app.
  unfold endswith. by rewrite !rev_app_distr.
Qed.

Lemma plain_log l :
  (∀ c, l ≠ LSearching c) → plain (phase_of_log l) (EvSignal (SigLog l)).
Proof. intros Hl. split; [done|]. destruct l; try done. by destruct (Hl company). Qed.

Lemma plain_in_phase i e : plain i e → in_phase i e.
Proof. intros [H _]. by right. Qed.

Lemma only_post self url text : only (plain 1) (post E self url text).
Proof. intros w. eexists [_]. split; [done|]. by constructor. Qed.

Lemma only_try_models self ms : only (plain 1) (try_models E self ms).
Proof.
  induction ms as [|model ms IH]; simpl; [apply only_ret|].
  apply only_bind; [apply only_post|].
  intros [status body|]; [|exact IH].
  destruct (status =? 200)%Z; [apply only_ret|exact IH].
Qed.

Lemma only_attempts n self url prompt :
  only (plain 1) (attempts E n self url prompt).
Proof.
  induction n as [|n IH]; simpl; [apply only_ret|].
  apply only_bind; [apply only_post|].
  intros [status body|]; [|apply only_ret].
  destruct (status =? 200)%Z; [apply only_ret|].
  destruct (status =? 429)%Z; [|apply only_ret].
  apply only_bind; [by apply only_emit|]. intros _. exact IH.
Qed.

Lemma only_query_gemini self prompt :
  only (plain 1) (query_gemini E self prompt).
Proof.
  apply query_gemini_either.
  - intros m. apply only_bind; [apply only_attempts|]. intros. apply only_ret.
  - apply only_bind; [apply only_try_models|].
    intros [[url|] self']; [|apply only_ret].
    apply only_bind; [apply only_attempts|]. intros. apply only_ret.
Qed.

Lemma only_process_company self name fields dir :
  only (plain 1) (process_company E self name fields dir).
Proof.
  unfold process_company.
  apply only_bind.
  { apply only_act. intros w. unfold mkdir. by destruct (dirs w !! dir_key E dir). }
  intros _. apply only_bind.
  { unfold generate_company_info.
    apply only_bind; [apply only_query_gemini|].
    intros [result self']. destruct (truthy result); [|apply only_ret].
    destruct result; (apply only_ret || apply only_raise). }
  intros [info self']. destruct (truthy info); [|apply only_ret].
  apply only_bind; [|intros; apply only_ret].
  intros w. exists [EvWrite dir (data_file_name E name)].
  split; [done|]. constructor; [|done]. apply plain_write_data.
Qed.

Lemma only_compile_files dir html_files c failed :
  only (plain 4) (compile_files E dir html_files c failed).
Proof.
  revert c failed. induction html_files as [|f rest IH]; intros c failed; simpl.
  { apply only_ret. }
  apply only_bind; [by apply only_emit|]. intros _.
  apply only_bind; [apply only_get|]. intros content.
  destruct (write_pdf E dir f content); [|apply IH].
  apply only_bind; [|intros; apply IH].
  intros w. exists [EvWrite dir (stem f ++ u ".pdf")].
  split; [done|]. constructor; [|done]. apply plain_write_pdf.
Qed.

Lemma only_compile_html_to_pdf dir :
  only (plain 4) (compile_html_to_pdf E dir).
Proof.
  unfold compile_html_to_pdf.
  destruct (weasyprint_available E); simpl; [|apply only_ret].
  apply only_bind; [apply only_get|]. intros [|]; simpl; [|apply only_ret].
  apply only_bind; [apply only_get|]. intros html_files.
  apply only_bind; [apply only_compile_files|]. intros [? ?]. apply only_ret.
Qed.

End Events.

(** ** The phases of the worker *)

Section Phases.
Context (E : Env) (self : Worker.PipelineWorker).

Import Worker.

Lemma returns_only_intro (P : Event → Prop) {A} (m : M A) :
  only P m → (∀ w, ∃ a, (m w).1 = Ok a) → returns_only P m.
Proof.
  intros Hm Hok w. destruct (Hm w) as (evs & Ht & H), (Hok w) as [a Ha].
  destruct (m w) as [r w'] eqn:Hmw. simpl in *. subst r. by exists a, w', evs.
Qed.

Lemma returns_cooldown n : returns_only (plain 1) (cooldown E n).
Proof.
  induction n as [|n IH]; intros w; simpl.
  { exists true, w, []. by rewrite app_nil_r. }
  unfold_M. unfold is_running. simpl.
  destruct (running_at E (flag_reads w)).
  - destruct (IH (emit (EvSleep 1) (count_flag_read w)))
      as (b & w' & evs & -> & Ht & Hall).
    exists b, w', (EvSleep 1 :: evs). split; [done|]. split.
    + rewrite Ht. simpl. by rewrite <- app_assoc.
    + constructor; [done|exact Hall].
  - exists false, (count_flag_read w), []. by rewrite app_nil_r.
Qed.

Lemma trace_emit e w : trace (emit e w) = trace w ++ [e].
Proof. done. Qed.

Lemma progress_values_app evs1 evs2 :
  progress_values (evs1 ++ evs2) = progress_values evs1 ++ progress_values evs2.
Proof. apply omap_app. Qed.

Lemma searched_app evs1 evs2 :
  searched (evs1 ++ evs2) = searched evs1 ++ searched evs2.
Proof. apply omap_app. Qed.

Lemma progress_values_plain i evs :
  Forall (plain i) evs → progress_values evs = [].
Proof.
  induction 1 as [|e evs [He _] _ IH]; [done|].
  destruct e as [| | | | | |[]]; solve [by simpl in He | exact IH].
Qed.

Lemma searched_plain i evs : Forall (plain i) evs → searched evs = [].
Proof.
  induction 1 as [|e evs [_ He] _ IH]; [done|].
  destruct e as [| | | | | |[[]| | |]]; solve [by simpl in He | exact IH].
Qed.

Lemma Forall_plain_in_phase i evs :
  Forall (plain i) evs → Forall (in_phase i) evs.
Proof. intros H. eapply Forall_impl; [exact H|]. apply plain_in_phase. Qed.

Lemma steps_S c j : steps c (S j) = (c + 1)%Z :: steps (c + 1) j.
Proof.
  unfold steps. simpl. f_equal.
  rewrite <- seq_shift, map_map. apply map_ext. intros i. lia.
Qed.

Lemma length_steps c j : length (steps c j) = j.
Proof. unfold steps. by rewrite length_map, length_seq. Qed.

(** Phase 1, from [current_step] on: only events of phase 1 and progress
    signals; one progress value for each company handled; when the loop
    is left at its end, every company has been started, in order. *)
Lemma phase1_spec ai_gen fields todo current_step w :
  ∃ res w' evs j,
    phase1 E self ai_gen fields todo current_step w = (res, w') ∧
    trace w' = trace w ++ evs ∧
    Forall (in_phase 1) evs ∧
    (j ≤ length todo)%nat ∧
    progress_values evs = map (percent_of self) (steps current_step j) ∧
    (∀ c', res = Ok (Some c') →
       c' = (current_step + Z.of_nat (length todo))%Z ∧
       j = length todo ∧ searched evs = todo).
Proof.
  revert ai_gen current_step w.
  induction todo as [|company rest IH]; intros ai_gen current_step w.
  { exists (Ok (Some current_step)), w, [], O. simpl. unfold_M.
    rewrite app_nil_r. split_and!; try done.
    intros c' [= <-]. split_and!; [lia|done..]. }
  cbn [phase1]. unfold_M. unfold is_running. cbn [fst snd].
  destruct (running_at E (flag_reads w)); cbn [negb].
  2:{ exists (Ok None), (count_flag_read w), [], O. simpl. rewrite app_nil_r.
      split_and!; try done. lia. }
  set (w1 := emit (EvSignal (SigLog (LSearching company))) (count_flag_read w)).
  change (log (LSearching company) (count_flag_read w)) with (Ok tt, w1).
  cbv iota.
  destruct (only_process_company E ai_gen company fields (output_dir self) w1)
    as (evs2 & Ht2 & Hall2).
  destruct (process_company E ai_gen company fields (output_dir self) w1)
    as [[[[success path] ai_gen']|e] w2]; simpl in Ht2.
  2:{ exists (Exc e), w2, (EvSignal (SigLog (LSearching company)) :: evs2), O.
      split_and!; try done.
      - rewrite Ht2. unfold w1. by list_norm.
      - constructor; [by right|by apply Forall_plain_in_phase].
      - lia.
      - change (progress_values (EvSignal (SigLog (LSearching company)) :: evs2))
          with (progress_values evs2).
        by rewrite (progress_values_plain 1). }
  set (l := if success then LSaved else LGenerationFailed).
  set (w3 := emit (EvSignal (SigProgress (percent_of self (current_step + 1))))
               (emit (EvSignal (SigLog l)) w2)).
  change (log l w2) with (Ok tt, emit (EvSignal (SigLog l)) w2). cbv iota.
  change (emit_progress self (current_step + 1) (emit (EvSignal (SigLog l)) w2))
    with (Ok tt, w3). cbv iota.
  assert (Hfinish : ∀ b w4 evs4,
    trace w4 = trace w3 ++ evs4 → Forall (plain 1) evs4 →
    ∃ res w' evs j,
      (if b : bool then phase1 E self ai_gen' fields rest (current_step + 1)
       else λ w0, (Ok None, w0)) w4 = (res, w') ∧
      trace w' = trace w ++ evs ∧
      Forall (in_phase 1) evs ∧
      (j ≤ length (company :: rest))%nat ∧
      progress_values evs = map (percent_of self) (steps current_step j) ∧
      (∀ c', res = Ok (Some c') →
         c' = (current_step + Z.of_nat (length (company :: rest)))%Z ∧
         j = length (company :: rest) ∧ searched evs = company :: rest)).
  { intros b w4 evs4 Ht4 Hall4.
    set (pre := [EvSignal (SigLog (LSearching company))] ++ evs2
                ++ [EvSignal (SigLog l);
                    EvSignal (SigProgress (percent_of self (current_step + 1)))]
                ++ evs4).
    assert (Hpre_trace : trace w4 = trace w ++ pre).
    { rewrite Ht4. unfold w3. simpl. rewrite Ht2. unfold w1, pre.
      by list_norm. }
    assert (Hpre_phase : Forall (in_phase 1) pre).
    { unfold pre. repeat apply Forall_app_2; try by apply Forall_plain_in_phase.
      - constructor; [by right|constructor].
      - constructor; [right; by destruct success|].
        constructor; [by left|constructor]. }
    assert (Hpre_prog : progress_values pre
                        = [percent_of self (current_step + 1)]).
    { unfold pre. rewrite !progress_values_app.
      rewrite (progress_values_plain 1 evs2), (progress_values_plain 1 evs4) by done.
      done. }
    assert (Hpre_search : searched pre = [company]).
    { unfold pre. rewrite !searched_app.
      rewrite (searched_plain 1 evs2), (searched_plain 1 evs4) by done.
      by destruct success. }
    destruct b.
    - destruct (IH ai_gen' (current_step + 1)%Z w4)
        as (res & w' & evsR & j & -> & HtR & HallR & Hj & HprogR & HdoneR).
      exists res, w', (pre ++ evsR), (S j). split_and!.
      + done.
      + by rewrite HtR, Hpre_trace, app_assoc.
      + by apply Forall_app_2.
      + simpl. lia.
      + by rewrite progress_values_app, Hpre_prog, HprogR, steps_S.
      + intros c' Hr. destruct (HdoneR c' Hr) as (-> & -> & Hs).
        split_and!; [simpl length; lia|done|].
        by rewrite searched_app, Hpre_search, Hs.
    - exists (Ok None), w4, pre, 1%nat. split_and!; try done.
      simpl. lia. }
  destruct (bool_decide (rest ≠ [])).
  - change (log LCooldown w3) with (Ok tt, emit (EvSignal (SigLog LCooldown)) w3).
    cbv iota.
    destruct (returns_cooldown 10 (emit (EvSignal (SigLog LCooldown)) w3))
      as (b & w4 & evs4 & -> & Ht4 & Hall4).
    apply (Hfinish b w4 (EvSignal (SigLog LCooldown) :: evs4)).
    + rewrite Ht4. by list_norm.
    + by constructor.
  - apply (Hfinish true w3 []); [by rewrite app_nil_r|done].
Qed.

Lemma only_log i l :
  phase_of_log l = i → (∀ c, l ≠ LSearching c) → only (plain i) (log l).
Proof. intros <- Hl. apply only_emit. by apply plain_log. Qed.

Lemma only_acquire_logo json_file : only (plain 2) (acquire_logo E self json_file).
Proof.
  unfold acquire_logo.
  apply only_bind; [apply only_get|]. intros [|].
  { by apply only_log. }
  apply only_bind; [by apply only_log|]. intros _.
  apply only_bind; [by apply only_emit|]. intros _.
  destruct (logo_search E _) as [[[|c url]|]|msg];
    try (by apply only_log); [|apply only_raise].
  apply only_bind; [by apply only_emit|]. intros _.
  destruct (logo_download E _ _ _) as [[bytes|]|msg];
    [|by apply only_log|apply only_raise].
  apply only_bind; [by apply only_act|]. intros _. by apply only_log.
Qed.

(** Phase 2, from [current_step] on: only events of phase 2 and progress
    signals; one progress value for each data file handled; the loop is
    left at its end only after every file. *)
Lemma phase2_spec json_files current_step w :
  ∃ res w' evs j,
    phase2 E self json_files current_step w = (res, w') ∧
    trace w' = trace w ++ evs ∧
    Forall (in_phase 2) evs ∧
    (j ≤ length json_files)%nat ∧
    progress_values evs = map (percent_of self) (steps current_step j) ∧
    (∀ c', res = Ok (Some c') →
       c' = (current_step + Z.of_nat (length json_files))%Z ∧
       j = length json_files).
Proof.
  revert current_step w.
  induction json_files as [|json_file rest IH]; intros current_step w.
  { exists (Ok (Some current_step)), w, [], O. simpl. unfold_M.
    rewrite app_nil_r. split_and!; try done.
    intros c' [= <-]. split; [lia|done]. }
  cbn [phase2]. unfold_M. unfold is_running. cbn [fst snd].
  destruct (running_at E (flag_reads w)); cbn [negb].
  2:{ exists (Ok None), (count_flag_read w), [], O. simpl. rewrite app_nil_r.
      split_and!; try done. lia. }
  destruct (only_acquire_logo json_file (count_flag_read w))
    as (evs1 & Ht1 & Hall1).
  destruct (acquire_logo E self json_file (count_flag_read w))
    as [[[]|e] w1]; simpl in Ht1.
  2:{ exists (Exc e), w1, evs1, O. split_and!; try done.
      - by apply Forall_plain_in_phase.
      - lia.
      - by rewrite (progress_values_plain 2). }
  set (w2 := emit (EvSignal (SigProgress (percent_of self (current_step + 1)))) w1).
  change (emit_progress self (current_step + 1) w1) with (Ok tt, w2). cbv iota.
  destruct (IH (current_step + 1)%Z w2)
    as (res & w' & evsR & j & -> & HtR & HallR & Hj & HprogR & HdoneR).
  exists res, w',
    (evs1 ++ [EvSignal (SigProgress (percent_of self (current_step + 1)))] ++ evsR),
    (S j).
  split_and!.
  - done.
  - rewrite HtR. unfold w2. simpl. rewrite Ht1. by rewrite <- !app_assoc.
  - repeat apply Forall_app_2; [by apply Forall_plain_in_phase| |done].
    constructor; [by left|constructor].
  - simpl. lia.
  - rewrite !progress_values_app, (progress_values_plain 2 evs1) by done.
    by rewrite HprogR, steps_S.
  - intros c' Hr. destruct (HdoneR c' Hr) as (-> & ->).
    split; [simpl length; lia|done].
Qed.

Lemma only_build_html html_gen json_file :
  only (plain 3) (build_html E self html_gen json_file).
Proof.
  unfold build_html.
  apply only_bind; [apply only_get|]. intros text.
  destruct (text ≫= json_loads E) as [[| | | | | |data]|]; try apply only_raise.
  apply only_bind; [apply only_get_or_raise|]. intros html.
  apply only_bind; [|intros; by apply only_log].
  intros w0. eexists [_]. split; [done|].
  constructor; [apply plain_write_html|done].
Qed.

(** Phase 3, from [current_step] on: it does not raise; only events of
    phase 3 and progress signals; one progress value for each data file. *)
Lemma phase3_spec html_gen json_files current_step w :
  ∃ r w' evs j,
    phase3 E self html_gen json_files current_step w = (Ok r, w') ∧
    trace w' = trace w ++ evs ∧
    Forall (in_phase 3) evs ∧
    (j ≤ length json_files)%nat ∧
    progress_values evs = map (percent_of self) (steps current_step j) ∧
    (∀ c', r = Some c' →
       c' = (current_step + Z.of_nat (length json_files))%Z ∧
       j = length json_files).
Proof.
  revert current_step w.
  induction json_files as [|json_file rest IH]; intros current_step w.
  { exists (Some current_step), w, [], O. simpl. unfold_M.
    rewrite app_nil_r. split_and!; try done.
    intros c' [= <-]. split; [lia|done]. }
  cbn [phase3]. unfold_M. unfold is_running. cbn [fst snd].
  destruct (running_at E (flag_reads w)); cbn [negb].
  2:{ exists None, (count_flag_read w), [], O. simpl. rewrite app_nil_r.
      split_and!; try done. lia. }
  assert (Htry : ∃ w1 evs1,
    try_except (build_html E self html_gen json_file) (λ _, log LHtmlError)
      (count_flag_read w) = (Ok tt, w1) ∧
    trace w1 = trace w ++ evs1 ∧ Forall (plain 3) evs1).
  { destruct (only_try_except (plain 3) (build_html E self html_gen json_file)
                (λ _, log LHtmlError) (only_build_html html_gen json_file)
                (λ _, only_log 3 LHtmlError eq_refl ltac:(done))
                (count_flag_read w)) as (evs1 & Ht1 & Hall1).
    unfold try_except in *.
    destruct (build_html E self html_gen json_file (count_flag_read w))
      as [[[]|e] w1]; simpl in *; by eexists _, evs1. }
  destruct Htry as (w1 & evs1 & Htry & Ht1 & Hall1).
  unfold try_except in Htry. unfold try_except. rewrite Htry. cbv iota.
  set (w2 := emit (EvSignal (SigProgress (percent_of self (current_step + 1)))) w1).
  change (emit_progress self (current_step + 1) w1) with (Ok tt, w2). cbv iota.
  destruct (IH (current_step + 1)%Z w2)
    as (r & w' & evsR & j & -> & HtR & HallR & Hj & HprogR & HdoneR).
  exists r, w',
    (evs1 ++ [EvSignal (SigProgress (percent_of self (current_step + 1)))] ++ evsR),
    (S j).
  split_and!.
  - done.
  - rewrite HtR. unfold w2. simpl. rewrite Ht1. by rewrite <- !app_assoc.
  - repeat apply Forall_app_2; [by apply Forall_plain_in_phase| |done].
    constructor; [by left|constructor].
  - simpl. lia.
  - rewrite !progress_values_app, (progress_values_plain 3 evs1) by done.
    by rewrite HprogR, steps_S.
  - intros c' Hr. destruct (HdoneR c' Hr) as (-> & ->).
    split; [simpl length; lia|done].
Qed.

End Phases.

(** ** The shape of a run *)

Section Run.
Context (E : Env) (self : Worker.PipelineWorker).

Import Worker.

(** The first part of a run: phase 0 then phase 1; at its regular end
    every company has been handled. *)
Lemma analyse_and_generate_spec w :
  ∃ res w1 evs0 evs1 j1,
    analyse_and_generate E self w = (res, w1) ∧
    trace w1 = trace w ++ evs0 ++ evs1 ∧
    Forall (in_phase 0) evs0 ∧ progress_values evs0 = [] ∧
    Forall (in_phase 1) evs1 ∧
    (j1 ≤ length (companies self))%nat ∧
    progress_values evs1 = map (percent_of self) (steps 0 j1) ∧
    (∀ g c, res = Ok (Some (g, c)) →
       c = Z.of_nat (length (companies self)) ∧
       j1 = length (companies self) ∧ searched evs1 = companies self).
Proof.
  unfold analyse_and_generate. unfold_M. unfold log, signal, act. cbn [fst snd].
  set (w0 := emit (EvSignal (SigLog LPhase0)) (mkdir E (output_dir self) w)).
  assert (Hw0 : trace w0 = trace w ++ [EvSignal (SigLog LPhase0)]).
  { unfold w0, mkdir. simpl. by destruct (dirs w !! dir_key E (output_dir self)). }
  destruct (path_exists E _ w0); cbn [negb].
  2:{ eexists (Ok None), _, [EvSignal (SigLog LPhase0); EvSignal (SigError _)], [], O.
      split_and!; try done.
      - rewrite trace_emit, Hw0. by rewrite <- app_assoc.
      - constructor; [by right|]. constructor; [by left|constructor].
      - lia. }
  set (fields := get_template_variables E _ w0).
  set (l0 := match fields with
             | [] => LNoVariables
             | _ :: _ => LFoundFields (length fields) (take 5 fields)
             end).
  set (evs0 := [EvSignal (SigLog LPhase0); EvSignal (SigLog l0)]).
  assert (Hevs0 : Forall (in_phase 0) evs0).
  { constructor; [by right|]. constructor; [right; by destruct fields|constructor]. }
  set (w2 := emit (EvSignal (SigLog LPhase1)) (emit (EvSignal (SigLog l0)) w0)).
  assert (Hw2 : trace w2 = trace w ++ evs0 ++ [EvSignal (SigLog LPhase1)]).
  { unfold w2. rewrite !trace_emit, Hw0. by rewrite <- !app_assoc. }
  unfold try_except, fmap, M_fmap.
  destruct (init (Some (worker_api_key self)) w2) as [[ai_gen|e] w3] eqn:Hinit.
  2:{ assert (w3 = w2) as ->.
      { unfold init in Hinit. by repeat case_match; simplify_eq. }
      eexists (Ok None), _, evs0,
        [EvSignal (SigLog LPhase1); EvSignal (SigError _)], O.
      split_and!; try done.
      - rewrite trace_emit, Hw2. by rewrite <- !app_assoc.
      - constructor; [by right|]. constructor; [by left|constructor].
      - lia. }
  assert (w3 = w2) as ->.
  { unfold init in Hinit. by repeat case_match; simplify_eq. }
  destruct (phase1_spec E self ai_gen fields (companies self) 0 w2)
    as (res & w' & evs & j & Hp1 & Ht & Hall & Hj & Hprog & Hdone).
  fold fields. rewrite Hp1.
  assert (Hcommon : trace w' = trace w ++ evs0 ++ EvSignal (SigLog LPhase1) :: evs).
  { rewrite Ht, Hw2. by rewrite <- !app_assoc. }
  assert (Hall1 : Forall (in_phase 1) (EvSignal (SigLog LPhase1) :: evs)).
  { constructor; [by right|done]. }
  destruct res as [[c|]|e].
  - eexists (Ok (Some (_, c))),
      w', evs0, (EvSignal (SigLog LPhase1) :: evs), j.
    split_and!; try done.
    intros g c' [= <- <-]. destruct (Hdone c eq_refl) as (-> & -> & Hs).
    split_and!; [lia|done|exact Hs].
  - exists (Ok None), w', evs0, (EvSignal (SigLog LPhase1) :: evs), j.
    split_and!; try done.
  - exists (Exc e), w', evs0, (EvSignal (SigLog LPhase1) :: evs), j.
    split_and!; try done.
Qed.

Lemma returns_compile_html_to_pdf dir :
  returns_only (plain 4) (compile_html_to_pdf E dir).
Proof.
  apply returns_only_intro; [apply only_compile_html_to_pdf|].
  intros w. apply compile_html_to_pdf_returns.
Qed.

(** The second part of a run: phases 2, 3 and 4 in this order; a phase is
    entered only after the one before has handled every data file; the
    value 100 is emitted just before the end. *)
Lemma acquire_build_render_spec g c w1 :
  let m := length (glob_suffix E (u "_data.json") (output_dir self) w1) in
  ∃ res w' evs2 evs3 evs4 j2 j3,
    acquire_build_render E self g c w1 = (res, w') ∧
    trace w' = trace w1 ++ evs2 ++ evs3 ++ evs4 ∧
    Forall (in_phase 2) evs2 ∧ Forall (in_phase 3) evs3 ∧
    Forall (in_phase 4) evs4 ∧
    (j2 ≤ m)%nat ∧
    progress_values evs2 = map (percent_of self) (steps c j2) ∧
    (j3 ≤ m)%nat ∧
    progress_values evs3 = map (percent_of self) (steps (c + Z.of_nat m) j3) ∧
    (progress_values evs4 = [] ∧ EvSignal SigFinished ∉ evs4 ∨
     progress_values evs4 = [100%Z]) ∧
    (evs3 ≠ [] → j2 = m) ∧
    (evs4 ≠ [] → j3 = m).
Proof.
  intros m. unfold acquire_build_render. unfold_M. unfold log, signal, act.
  cbn [fst snd].
  set (w2 := emit (EvSignal (SigLog LPhase2)) w1).
  change (glob_suffix E (u "_data.json") (output_dir self) w2)
    with (glob_suffix E (u "_data.json") (output_dir self) w1).
  set (json_files := glob_suffix E (u "_data.json") (output_dir self) w1) in *.
  destruct (phase2_spec E self json_files c w2)
    as (res2 & w3 & evs & j2 & -> & Ht2 & Hall2 & Hj2 & Hprog2 & Hdone2).
  assert (Ht2' : trace w3 = trace w1 ++ EvSignal (SigLog LPhase2) :: evs).
  { rewrite Ht2. unfold w2. rewrite trace_emit. by rewrite <- app_assoc. }
  assert (Hall2' : Forall (in_phase 2) (EvSignal (SigLog LPhase2) :: evs)).
  { constructor; [by right|done]. }
  destruct res2 as [[c2|]|e].
  2:{ exists (Ok tt), w3, (EvSignal (SigLog LPhase2) :: evs), [], [], j2, O.
      rewrite !app_nil_r. split_and!; try done; try lia.
      left. split; [done|]. apply not_elem_of_nil. }
  2:{ exists (Exc e), w3, (EvSignal (SigLog LPhase2) :: evs), [], [], j2, O.
      rewrite !app_nil_r. split_and!; try done; try lia.
      left. split; [done|]. apply not_elem_of_nil. }
  destruct (Hdone2 c2 eq_refl) as [-> ->].
  set (w4 := emit (EvSignal (SigLog LPhase3)) w3).
  destruct (phase3_spec E self g json_files (c + Z.of_nat (length json_files)) w4)
    as (r3 & w5 & evs3 & j3 & -> & Ht3 & Hall3 & Hj3 & Hprog3 & Hdone3).
  assert (Ht3' : trace w5 = trace w1 ++ (EvSignal (SigLog LPhase2) :: evs)
                             ++ EvSignal (SigLog LPhase3) :: evs3).
  { rewrite Ht3. unfold w4. rewrite trace_emit, Ht2'. by rewrite <- !app_assoc. }
  assert (Hall3' : Forall (in_phase 3) (EvSignal (SigLog LPhase3) :: evs3)).
  { constructor; [by right|done]. }
  destruct r3 as [c3|].
  2:{ exists (Ok tt), w5, (EvSignal (SigLog LPhase2) :: evs),
        (EvSignal (SigLog LPhase3) :: evs3), [], (length json_files), j3.
      rewrite !app_nil_r. split_and!; try done.
      left. split; [done|]. apply not_elem_of_nil. }
  destruct (Hdone3 c3 eq_refl) as [-> ->].
  set (w6 := emit (EvSignal (SigLog LPhase4)) w5).
  destruct (returns_compile_html_to_pdf (output_dir self) w6)
    as (success & w7 & evsC & -> & HtC & HallC).
  cbv iota.
  set (lend := if success then LComplete else LPdfErrors).
  set (evs4 := EvSignal (SigLog LPhase4) :: evsC
               ++ [EvSignal (SigLog lend); EvSignal (SigProgress 100);
                   EvSignal SigFinished]).
  eexists (Ok tt), _, (EvSignal (SigLog LPhase2) :: evs),
    (EvSignal (SigLog LPhase3) :: evs3), evs4, (length json_files),
    (length json_files).
  split_and!; try done.
  - rewrite !trace_emit, HtC. unfold w6. rewrite trace_emit, Ht3'.
    unfold evs4. by list_norm.
  - unfold evs4. constructor; [by right|].
    apply Forall_app_2; [by apply Forall_plain_in_phase|].
    constructor; [right; by destruct success|].
    constructor; [by left|]. constructor; [by right|constructor].
  - right. unfold evs4.
    change (progress_values (EvSignal (SigLog LPhase4) :: ?x))
      with (progress_values x).
    rewrite progress_values_app, (progress_values_plain 4 evsC) by done.
    done.
Qed.

(** A run is phase 0, phase 1, phase 2, phase 3, phase 4 and at most one
    error signal, in this order, with the progress values of each phase. *)
Lemma run_shape w :
  let n := length (companies self) in
  let m := length (data_files_found E self w) in
  ∃ evs0 evs1 evs2 evs3 evs4 err j1 j2 j3,
    trace (run E self w).2
      = trace w ++ evs0 ++ evs1 ++ evs2 ++ evs3 ++ evs4 ++ err ∧
    Forall (in_phase 0) evs0 ∧ Forall (in_phase 1) evs1 ∧
    Forall (in_phase 2) evs2 ∧ Forall (in_phase 3) evs3 ∧
    Forall (in_phase 4) evs4 ∧
    Forall (λ e, ∃ msg, e = EvSignal (SigError msg)) err ∧
    progress_values evs0 = [] ∧
    (j1 ≤ n)%nat ∧
    progress_values evs1 = map (percent_of self) (steps 0 j1) ∧
    (j2 ≤ m)%nat ∧
    progress_values evs2 = map (percent_of self) (steps (Z.of_nat n) j2) ∧
    (j3 ≤ m)%nat ∧
    progress_values evs3
      = map (percent_of self) (steps (Z.of_nat n + Z.of_nat m) j3) ∧
    (progress_values evs4 = [] ∧ EvSignal SigFinished ∉ evs4 ∨
     progress_values evs4 = [100%Z]) ∧
    (evs2 ≠ [] → j1 = n ∧ searched evs1 = companies self) ∧
    (evs3 ≠ [] → j2 = m) ∧
    (evs4 ≠ [] → j3 = m).
Proof.
  intros n m. unfold m, data_files_found. clear m.
  unfold run, run_body, try_except. unfold_M.
  destruct (analyse_and_generate_spec w)
    as (res1 & w1 & evs0 & evs1 & j1 & -> & Ht1 & H0 & Hp0 & H1 & Hj1 & Hp1 & Hdone1).
  destruct res1 as [[[g c]|]|e1].
  2:{ exists evs0, evs1, [], [], [], [], j1, O, O. simpl.
      rewrite !app_nil_r. split_and!; try done; try lia.
      left. split; [done|]. apply not_elem_of_nil. }
  2:{ eexists evs0, evs1, [], [], [], [EvSignal (SigError _)], j1, O, O.
      unfold signal, act. cbn [snd]. rewrite trace_emit, Ht1.
      split_and!; try done; try lia.
      - by list_norm.
      - constructor; [by eexists|constructor].
      - left. split; [done|]. apply not_elem_of_nil. }
  destruct (Hdone1 g c eq_refl) as (-> & -> & Hs).
  destruct (acquire_build_render_spec g (Z.of_nat (length (companies self))) w1)
    as (res & w' & evs2 & evs3 & evs4 & j2 & j3 & -> & Ht & H2 & H3 & H4
        & Hj2 & Hp2 & Hj3 & Hp3 & Hp4 & Hd2 & Hd3).
  destruct res as [[]|e].
  - exists evs0, evs1, evs2, evs3, evs4, [], (length (companies self)), j2, j3.
    split_and!; try done.
    cbv beta iota. cbn [snd]. rewrite Ht, Ht1. by list_norm.
  - eexists evs0, evs1, evs2, evs3, evs4, [EvSignal (SigError _)],
      (length (companies self)), j2, j3.
    split_and!; try done.
    + cbv beta iota. unfold signal, act. cbn [snd].
      rewrite trace_emit, Ht, Ht1. by list_norm.
    + constructor; [by eexists|constructor].
Qed.

End Run.

(** ** Order of the phases and progress of a run *)

Section Order.
Context (E : Env) (self : Worker.PipelineWorker).

Import Worker.

Lemma phases_of_segment i evs :
  Forall (in_phase i) evs → Forall (λ p, p = i) (omap phase_of evs).
Proof.
  induction 1 as [|e evs He _ IH]; [constructor|].
  simpl. destruct He as [He|He]; rewrite He; [exact IH|by constructor].
Qed.

Lemma sorted_segment i seg rest :
  Forall (λ p, p = i) seg →
  StronglySorted le rest → Forall (λ p, (i ≤ p)%nat) rest →
  StronglySorted le (seg ++ rest) ∧ Forall (λ p, (i ≤ p)%nat) (seg ++ rest).
Proof.
  intros Hseg Hrest Hle. split.
  - apply StronglySorted_app_2; [|induction Hseg; constructor; auto|done].
    + intros x1 x2 H1 H2. rewrite Forall_forall in Hseg, Hle.
      rewrite (Hseg _ H1). by apply Hle.
    + subst. eapply Forall_impl; [exact Hseg|]. intros; simpl in *; lia.
  - apply Forall_app_2; [|done].
    eapply Forall_impl; [exact Hseg|]. intros; simpl in *; lia.
Qed.

Lemma Forall_le_weaken i j (l : list nat) :
  (i ≤ j)%nat → Forall (λ p, (j ≤ p)%nat) l → Forall (λ p, (i ≤ p)%nat) l.
Proof. intros Hij H. eapply Forall_impl; [exact H|]. intros; simpl in *; lia. Qed.

(** C5: the events of a run split into the events of phase 0, of phase 1,
    of phase 2, of phase 3 and of phase 4, in this order, followed by at
    most an error signal; hence no event of a phase comes after an event of
    a later phase.  A later phase has events only if the phase before has
    handled all its items: every company has been started, in order, and
    has had its step counted before phase 2; every data file found has had
    its step counted in phase 2 before phase 3, and in phase 3 before
    phase 4. *)
Theorem run_phases_in_order w :
  ∃ evs0 evs1 evs2 evs3 evs4 err,
    trace (run E self w).2
      = trace w ++ evs0 ++ evs1 ++ evs2 ++ evs3 ++ evs4 ++ err ∧
    Forall (in_phase 0) evs0 ∧ Forall (in_phase 1) evs1 ∧
    Forall (in_phase 2) evs2 ∧ Forall (in_phase 3) evs3 ∧
    Forall (in_phase 4) evs4 ∧
    Forall (λ e, phase_of e = None) err ∧
    StronglySorted le
      (omap phase_of (evs0 ++ evs1 ++ evs2 ++ evs3 ++ evs4 ++ err)) ∧
    (evs2 ≠ [] →
       searched evs1 = companies self ∧
       length (progress_values evs1) = length (companies self)) ∧
    (evs3 ≠ [] →
       length (progress_values evs2) = length (data_files_found E self w)) ∧
    (evs4 ≠ [] →
       length (progress_values evs3) = length (data_files_found E self w)).
Proof.
  destruct (run_shape E self w)
    as (evs0 & evs1 & evs2 & evs3 & evs4 & err & j1 & j2 & j3 & Ht
        & H0 & H1 & H2 & H3 & H4 & Herr & Hp0 & Hj1 & Hp1 & Hj2 & Hp2
        & Hj3 & Hp3 & Hp4 & Hd1 & Hd2 & Hd3).
  exists evs0, evs1, evs2, evs3, evs4, err.
  assert (Herr' : Forall (λ e, phase_of e = None) err).
  { eapply Forall_impl; [exact Herr|]. by intros e [msg ->]. }
  split_and!; try done.
  - rewrite !omap_app.
    assert (Hnone : omap phase_of err = []).
    { clear -Herr'. induction Herr' as [|e err He _ IH]; [done|].
      simpl. by rewrite He. }
    rewrite Hnone, app_nil_r.
    destruct (sorted_segment 4 (omap phase_of evs4) [])
      as [S4 L4]; [by apply phases_of_segment|constructor|constructor|].
    rewrite app_nil_r in S4, L4.
    destruct (sorted_segment 3 (omap phase_of evs3) _
                (phases_of_segment 3 _ H3) S4
                (Forall_le_weaken 3 4 _ ltac:(lia) L4)) as [S3 L3].
    destruct (sorted_segment 2 (omap phase_of evs2) _
                (phases_of_segment 2 _ H2) S3
                (Forall_le_weaken 2 3 _ ltac:(lia) L3)) as [S2 L2].
    destruct (sorted_segment 1 (omap phase_of evs1) _
                (phases_of_segment 1 _ H1) S2
                (Forall_le_weaken 1 2 _ ltac:(lia) L2)) as [S1 L1].
    destruct (sorted_segment 0 (omap phase_of evs0) _
                (phases_of_segment 0 _ H0) S1
                (Forall_le_weaken 0 1 _ ltac:(lia) L1)) as [S0 _].
    exact S0.
  - intros Hne. destruct (Hd1 Hne) as [-> Hs]. split; [done|].
    by rewrite Hp1, length_map, length_steps.
  - intros Hne. rewrite Hp2, length_map, length_steps. by apply Hd2.
  - intros Hne. rewrite Hp3, length_map, length_steps. by apply Hd3.
Qed.

Lemma steps_bounds c j k : k ∈ steps c j → (c < k ≤ c + Z.of_nat j)%Z.
Proof.
  unfold steps. intros (i & -> & Hi)%list_elem_of_fmap.
  apply elem_of_seq in Hi. lia.
Qed.

Lemma steps_sorted c j :
  StronglySorted (λ a b, (a ≤ b)%Z) (steps c j).
Proof.
  revert c. induction j as [|j IH]; intros c; [constructor|].
  rewrite steps_S. constructor; [apply IH|].
  apply Forall_forall. intros k Hk%steps_bounds. lia.
Qed.

Lemma total_steps_pos : (0 < total_steps self)%Z.
Proof. unfold total_steps. lia. Qed.

(** C6: when the data files found are at most as many as the companies,
    the progress values of a run never decrease and lie between 0 and 100,
    and a run that emits [finished] has 100 as its last value. *)
Theorem run_progress w :
  (length (data_files_found E self w) ≤ length (companies self))%nat →
  ∃ evs,
    trace (run E self w).2 = trace w ++ evs ∧
    StronglySorted (λ a b, (a ≤ b)%Z) (progress_values evs) ∧
    Forall (λ v, (0 ≤ v ≤ 100)%Z) (progress_values evs) ∧
    (EvSignal SigFinished ∈ evs → last (progress_values evs) = Some 100%Z).
Proof.
  intros Hm.
  destruct (run_shape E self w)
    as (evs0 & evs1 & evs2 & evs3 & evs4 & err & j1 & j2 & j3 & Ht
        & H0 & H1 & H2 & H3 & H4 & Herr & Hp0 & Hj1 & Hp1 & Hj2 & Hp2
        & Hj3 & Hp3 & Hp4 & _).
  set (n := length (companies self)) in *.
  set (m := length (data_files_found E self w)) in *.
  exists (evs0 ++ evs1 ++ evs2 ++ evs3 ++ evs4 ++ err).
  split; [done|].
  assert (Hperr : progress_values err = []).
  { clear -Herr. induction Herr as [|e err [msg ->] _ IH]; [done|exact IH]. }
  set (ks := steps 0 j1 ++ steps (Z.of_nat n) j2
             ++ steps (Z.of_nat n + Z.of_nat m) j3).
  assert (Hps : progress_values (evs0 ++ evs1 ++ evs2 ++ evs3 ++ evs4 ++ err)
                = map (percent_of self) ks ++ progress_values evs4).
  { rewrite !progress_values_app, Hp0, Hp1, Hp2, Hp3, Hperr. unfold ks.
    rewrite !map_app, app_nil_r. by list_norm. }
  assert (Hks_range : Forall (λ k, (0 ≤ k ≤ total_steps self)%Z) ks).
  { unfold ks, total_steps. fold n. rewrite !Forall_app.
    split_and!; apply Forall_forall; intros k Hk%steps_bounds; lia. }
  assert (Hks_sorted : StronglySorted (λ a b, (0 ≤ a ≤ b)%Z) ks).
  { assert (Hsteps : ∀ c j, (0 ≤ c)%Z →
              StronglySorted (λ a b, (0 ≤ a ≤ b)%Z) (steps c j)).
    { intros c j Hc. pose proof (steps_sorted c j) as Hs.
      assert (Hb : Forall (λ k, (0 ≤ k)%Z) (steps c j)).
      { apply Forall_forall. intros k Hk%steps_bounds. lia. }
      induction Hs as [|a l Hs IH Ha]; [constructor|].
      apply Forall_cons in Hb as [Ha0 Hb].
      constructor; [by apply IH|].
      eapply Forall_impl; [exact Ha|]. intros; simpl in *; lia. }
    unfold ks. apply StronglySorted_app_2; [|by apply Hsteps|].
    - intros x1 x2 Hx1%steps_bounds Hx2.
      apply elem_of_app in Hx2 as [Hx2%steps_bounds|Hx2%steps_bounds]; lia.
    - apply StronglySorted_app_2; [|apply Hsteps; lia..].
      intros x1 x2 Hx1%steps_bounds Hx2%steps_bounds. lia. }
  assert (Hmap_sorted :
    StronglySorted (λ a b, (a ≤ b)%Z) (map (percent_of self) ks)).
  { apply (StronglySorted_fmap _ (λ a b, (0 ≤ a ≤ b)%Z)); [|done].
    intros a b Hab. unfold percent_of.
    apply percent_mono; [done|apply total_steps_pos]. }
  assert (Hmap_range :
    Forall (λ v, (0 ≤ v ≤ 100)%Z) (map (percent_of self) ks)).
  { apply Forall_fmap. eapply Forall_impl; [exact Hks_range|].
    intros k Hk. simpl. unfold percent_of.
    apply percent_range; [done|apply total_steps_pos]. }
  rewrite Hps. split_and!.
  - destruct Hp4 as [[-> _]| ->]; [by rewrite app_nil_r|].
    apply StronglySorted_app_2; [|done|repeat constructor].
    intros x1 x2 Hx1 ->%list_elem_of_singleton.
    rewrite Forall_forall in Hmap_range. by apply Hmap_range.
  - apply Forall_app_2; [done|].
    destruct Hp4 as [[-> _]| ->]; [constructor|].
    constructor; [lia|constructor].
  - intros Hfin.
    assert (Hin4 : EvSignal SigFinished ∈ evs4).
    { assert (Hno : ∀ i evs, i ≠ 4%nat → Forall (in_phase i) evs →
                      EvSignal SigFinished ∉ evs).
      { intros i evs Hi Hall Hin. rewrite Forall_forall in Hall.
        destruct (Hall _ Hin) as [Hp|Hp]; simpl in Hp; congruence. }
      rewrite !elem_of_app in Hfin.
      destruct Hfin as [Hf|[Hf|[Hf|[Hf|[Hf|Hf]]]]]; try done.
      - by apply (Hno 0%nat) in Hf.
      - by apply (Hno 1%nat) in Hf.
      - by apply (Hno 2%nat) in Hf.
      - by apply (Hno 3%nat) in Hf.
      - rewrite Forall_forall in Herr. by destruct (Herr _ Hf). }
    destruct Hp4 as [[_ Hno]| ->]; [done|]. apply last_snoc.
Qed.

End Order.

(** The theorem at the sample worker: two companies, two data files. *)
Lemma run_progress_witness :
  ∃ evs,
    trace (Worker.run Examples.nokia_env Examples.sample_worker
             Examples.sample_world).2
      = trace Examples.sample_world ++ evs ∧
    StronglySorted (λ a b, (a ≤ b)%Z) (progress_values evs) ∧
    Forall (λ v, (0 ≤ v ≤ 100)%Z) (progress_values evs) ∧
    (EvSignal SigFinished ∈ evs → last (progress_values evs) = Some 100%Z).
Proof.
  apply (run_progress Examples.nokia_env Examples.sample_worker
           Examples.sample_world).
  vm_compute. lia.
Defined.

Example run_sample_progress :
  Worker.companies Examples.sample_worker = [u "Nokia"; u "Kone"] ∧
  data_files_found Examples.nokia_env Examples.sample_worker Examples.sample_world
    = [u "Kone_data.json"; u "Nokia_data.json"] ∧
  progress_values
    (trace (Worker.run Examples.nokia_env Examples.sample_worker
              Examples.sample_world).2)
  = [14; 28; 42; 57; 71; 85; 100]%Z.
Proof. split_and!; vm_compute; reflexivity. Qed.

(** * Further properties *)

(** ** html_generator.py: the forms of [$] in a template *)

Section DollarForms.
Context (E : Env).

Lemma split_at_unique {A} (x : A) l1 l2 k1 k2 :
  x ∉ l1 → x ∉ l2 → l1 ++ x :: l2 = k1 ++ x :: k2 → l1 = k1 ∧ l2 = k2.
Proof.
  revert k1. induction l1 as [|a l1 IH]; intros k1 H1 H2 Heq.
  - destruct k1 as [|b k1]; simpl in Heq.
    + by inversion Heq.
    + inversion Heq; subst. exfalso. apply H2.
      apply elem_of_app. right. apply list_elem_of_here.
  - destruct k1 as [|b k1]; simpl in Heq.
    + inversion Heq; subst. exfalso. apply H1. apply list_elem_of_here.
    + inversion Heq; subst.
      destruct (IH k1) as [-> ->]; try done.
      intros Hin. apply H1. by apply list_elem_of_further.
Qed.

Lemma no_variables self w content :
  read_file E (template_path self) w = Some content →
  (∀ id, ¬ occurs_as_placeholder id content) →
  get_template_variables E self w = [].
Proof.
  intros Hfile Hnone.
  destruct (get_template_variables E self w) as [|id vars] eqn:Hvars; [done|].
  exfalso. apply (Hnone id).
  apply (get_template_variables_elem E self w content id Hfile).
  rewrite Hvars. apply list_elem_of_here.
Qed.

Lemma occurs_has_dollar id content :
  occurs_as_placeholder id content → DOLLAR ∈ content.
Proof.
  intros [_ (pre & post & ->)]. apply elem_of_app. right.
  apply list_elem_of_here.
Qed.

(** The output at a placeholder, for any [company_info]. *)
Lemma generate_html_content_at self w info context pre key post :
  read_file E (template_path self) w = Some (pre ++ placeholder key ++ post) →
  last pre ≠ Some DOLLAR →
  is_identifier key →
  build_context E info = Ok context →
  generate_html_content E self info w
  = Ok (safe_substitute context pre
        ++ (if decide (is_template_id key)
            then default (placeholder key) (context !! key)
            else placeholder key)
        ++ safe_substitute context post).
Proof.
  intros Hfile Hpre Hid Hctx.
  rewrite (generate_html_content_ok E _ _ _ _ Hctx), Hfile. f_equal.
  change (placeholder key ++ post)
    with (DOLLAR :: (LBRACE :: key ++ [RBRACE]) ++ post).
  rewrite safe_substitute_app_dollar by done.
  change (DOLLAR :: (LBRACE :: key ++ [RBRACE]) ++ post)
    with (placeholder key ++ post).
  by rewrite (safe_substitute_placeholder _ key post Hid).
Qed.

Lemma build_context_system info context key :
  key ∉ provided_keys info →
  build_context E info = Ok context →
  context !! key
  = (<[u "case_number" := u "OP-D-V-" ++ clock_hhmm E]>
       (<[u "timestamp" := clock_stamp E]> ∅) : gmap pystr pystr) !! key.
Proof.
  intros Hkey. destruct info; simpl; try (by intros [= <-]).
  by apply add_items_notin.
Qed.

(** X1: The two values the generator computes itself.  Where
    [company_info] has no key [timestamp], the placeholder [${timestamp}]
    is replaced by the clock's date and time; where it has no key
    [case_number], [${case_number}] is replaced by [OP-D-V-] and the
    clock's hour and minute.  The third name of [SYSTEM_VARIABLES],
    [logo_filename], is not supplied by the generator: unless the caller
    provides it, [${logo_filename}] stays in the output.  This holds for
    every [company_info], a [dict] or not, whose values are formatted
    without an exception. *)
Theorem generate_html_content_system_values self w info context pre key post :
  read_file E (template_path self) w = Some (pre ++ placeholder key ++ post) →
  last pre ≠ Some DOLLAR →
  key ∉ provided_keys info →
  build_context E info = Ok context →
  let around r :=
    safe_substitute context pre ++ r ++ safe_substitute context post in
  let out := generate_html_content E self info w in
  (key = u "timestamp" → out = Ok (around (clock_stamp E))) ∧
  (key = u "case_number" → out = Ok (around (u "OP-D-V-" ++ clock_hhmm E))) ∧
  (key = u "logo_filename" → out = Ok (around (placeholder key))).
Proof.
  intros Hfile Hpre Hkey Hctx around out.
  assert (Hout : is_template_id key →
            out = Ok (around (default (placeholder key) (context !! key)))).
  { intros Htid. unfold out.
    rewrite (generate_html_content_at _ _ _ _ _ _ _ Hfile Hpre (proj1 Htid) Hctx).
    by rewrite decide_True. }
  rewrite (build_context_system _ _ _ Hkey Hctx) in Hout.
  split_and!; intros ->;
    by rewrite Hout by (split; [split; [done|by repeat constructor]|done]).
Qed.

(** X2: A [$] that introduces no placeholder.  [$$] is an escape and
    gives one [$]; a [$] followed by a character that is neither [$], [{]
    nor a letter or [_], and a [$] at the very end, are kept as they are.
    The text on both sides is substituted as usual, with the context of
    a [company_info] whose values are formatted without an exception. *)
Theorem generate_html_content_escape self w info context pre rest :
  read_file E (template_path self) w = Some (pre ++ DOLLAR :: rest) →
  last pre ≠ Some DOLLAR →
  build_context E info = Ok context →
  let out := generate_html_content E self info w in
  (∀ post, rest = DOLLAR :: post →
     out = Ok (safe_substitute context pre ++ [DOLLAR]
               ++ safe_substitute context post)) ∧
  (∀ c post, rest = c :: post →
     c ≠ DOLLAR → c ≠ LBRACE → is_id_start c = false →
     out = Ok (safe_substitute context pre ++ [DOLLAR]
               ++ safe_substitute context rest)) ∧
  (rest = [] → out = Ok (safe_substitute context pre ++ [DOLLAR])).
Proof.
  intros Hfile Hpre Hctx out.
  assert (Hout : out = Ok (safe_substitute context pre
                           ++ convert context (template_match rest).1
                           ++ safe_substitute context (template_match rest).2)).
  { unfold out. rewrite (generate_html_content_ok E _ _ _ _ Hctx), Hfile.
    rewrite safe_substitute_app_dollar by done.
    by rewrite safe_substitute_dollar. }
  split_and!.
  - intros post ->. by rewrite Hout.
  - intros c post -> Hc1 Hc2 Hc3. rewrite Hout.
    unfold template_match, match_id.
    apply N.eqb_neq in Hc1, Hc2. by rewrite Hc1, Hc3, Hc2.
  - intros ->. rewrite Hout. simpl. by rewrite safe_substitute_nil.
Qed.

Lemma span_all p s :
  Forall (λ c, p c = true) s → span p s = (s, []).
Proof.
  induction 1 as [|c s Hc _ IH]; [done|]. simpl. by rewrite Hc, IH.
Qed.

Lemma template_match_named key post :
  is_template_id key →
  (∀ c, head post = Some c → is_ident_char c = false) →
  template_match (key ++ post) = (Named key, post).
Proof.
  intros [[Hne Hall] Hstart] Hpost.
  destruct key as [|c key]; [done|]. simpl in Hstart.
  apply Forall_cons in Hall as [_ Hall].
  assert (Hc : (c =? DOLLAR) = false).
  { apply N.eqb_neq. intros ->. by vm_compute in Hstart. }
  simpl. rewrite Hc, Hstart.
  destruct post as [|c' post].
  - rewrite app_nil_r, (span_all _ _ Hall). done.
  - rewrite (span_stop _ _ _ _ Hall (Hpost c' eq_refl)). done.
Qed.

(** X3: The unbraced form [$name].  [get_template_variables] looks for
    [${name}] only, so a template whose one [$] introduces [$name] has no
    required field; [generate_html_content] still substitutes it: a value
    provided under [name] replaces [$name], formatted, and without one the
    text stays as it is.  The values of [company_info] are taken to be
    formatted without an exception. *)
Theorem generate_html_content_unbraced self w d context pre key post :
  read_file E (template_path self) w = Some (pre ++ DOLLAR :: key ++ post) →
  DOLLAR ∉ pre → DOLLAR ∉ post →
  is_template_id key →
  (∀ c, head post = Some c → is_ident_char c = false) →
  NoDup d.*1 →
  build_context E (JDict d) = Ok context →
  let out := generate_html_content E self (JDict d) w in
  get_template_variables E self w = [] ∧
  (∀ v, (key, v) ∈ d → out = Ok (pre ++ formatted E v ++ post)) ∧
  (key ∉ d.*1 → key ≠ u "timestamp" → key ≠ u "case_number" →
   out = Ok (pre ++ DOLLAR :: key ++ post)).
Proof.
  intros Hfile Hpre Hpost Htid Hstop Hnodup Hctx out.
  assert (Hkey : DOLLAR ∉ key) by (apply identifier_no_dollar, Htid).
  assert (Hout : out = Ok (pre ++ default (DOLLAR :: key) (context !! key)
                             ++ post)).
  { unfold out. rewrite (generate_html_content_ok E _ _ _ _ Hctx), Hfile.
    rewrite safe_substitute_plain_app by done.
    rewrite safe_substitute_dollar, template_match_named by done.
    by rewrite safe_substitute_plain. }
  split_and!.
  - apply (no_variables _ _ _ Hfile).
    intros id [Hid (pre' & post' & Heq)].
    assert (Hrest : DOLLAR ∉ key ++ post).
    { intros Hin. apply elem_of_app in Hin as [Hin|Hin];
        [by apply Hkey|by apply Hpost]. }
    destruct (split_at_unique DOLLAR pre (key ++ post) pre'
                (LBRACE :: id ++ RBRACE :: post') Hpre Hrest Heq) as [_ Heq'].
    destruct Htid as [[Hne _] Hstart].
    destruct key as [|c key]; [done|].
    simpl in Heq'. inversion Heq'; subst. by vm_compute in Hstart.
  - intros v Hin. by rewrite Hout, (build_context_provided E d context key v).
  - intros H1 H2 H3. by rewrite Hout, (build_context_missing E d context key).
Qed.

(** X4: A template without a [$] has no required field and is written
    out unchanged, whatever [company_info] is, as long as its values are
    formatted without an exception; their exception is the outcome
    otherwise, although the page shows none of them. *)
Theorem generate_html_content_without_dollar self w info content :
  read_file E (template_path self) w = Some content →
  DOLLAR ∉ content →
  get_template_variables E self w = [] ∧
  (∀ context, build_context E info = Ok context →
     generate_html_content E self info w = Ok content) ∧
  (∀ e, build_context E info = Exc e →
     generate_html_content E self info w = Exc e).
Proof.
  intros Hfile Hplain. split_and!.
  - apply (no_variables _ _ _ Hfile).
    intros id Hocc. by apply Hplain, (occurs_has_dollar id).
  - intros context Hctx.
    rewrite (generate_html_content_ok E _ _ _ _ Hctx), Hfile.
    f_equal. by apply safe_substitute_plain.
  - intros e He. unfold generate_html_content. by rewrite He.
Qed.

End DollarForms.

Lemma generate_html_content_system_values_witness :
  generate_html_content Examples.quiet_env Examples.sample_generator JNone
    Examples.sample_world
  = Ok (u "<h1>${name}</h1><p>${city} 2025-01-01 12:00 ${name} ${1st}</p>").
Proof.
  assert (Hfile : read_file Examples.quiet_env
                    (template_path Examples.sample_generator)
                    Examples.sample_world
                  = Some (u "<h1>${name}</h1><p>${city} "
                            ++ placeholder (u "timestamp")
                            ++ u " ${name} ${1st}</p>"))
    by (vm_compute; reflexivity).
  assert (Hlast : last (u "<h1>${name}</h1><p>${city} ") ≠ Some DOLLAR)
    by (vm_compute; discriminate).
  assert (Hkey : u "timestamp" ∉ provided_keys JNone)
    by apply not_elem_of_nil.
  rewrite (proj1 (generate_html_content_system_values Examples.quiet_env
                    _ _ _ _ _ _ _ Hfile Hlast Hkey eq_refl) eq_refl).
  vm_compute. reflexivity.
Defined.

Lemma generate_html_content_escape_witness :
  generate_html_content Examples.quiet_env Examples.sample_generator JNone
    (MoreExamples.world_with_template MoreExamples.fee_template)
  = Ok (u "<p>Fee: $5 for ${name}</p>").
Proof.
  assert (Hfile : read_file Examples.quiet_env
                    (template_path Examples.sample_generator)
                    (MoreExamples.world_with_template MoreExamples.fee_template)
                  = Some (u "<p>Fee: " ++ DOLLAR :: DOLLAR :: u "5 for ${name}</p>"))
    by (vm_compute; reflexivity).
  assert (Hlast : last (u "<p>Fee: ") ≠ Some DOLLAR)
    by (vm_compute; discriminate).
  rewrite (proj1 (generate_html_content_escape Examples.quiet_env
                    _ _ JNone _ _ _ Hfile Hlast eq_refl) _ eq_refl).
  vm_compute. reflexivity.
Defined.

Lemma generate_html_content_unbraced_witness :
  get_template_variables Examples.quiet_env Examples.sample_generator
    (MoreExamples.world_with_template MoreExamples.greeting_template) = [] ∧
  generate_html_content Examples.quiet_env Examples.sample_generator
    (JDict Examples.nokia_items)
    (MoreExamples.world_with_template MoreExamples.greeting_template)
  = Ok (u "Hello Nokia!").
Proof.
  assert (Hfile : read_file Examples.quiet_env
                    (template_path Examples.sample_generator)
                    (MoreExamples.world_with_template MoreExamples.greeting_template)
                  = Some (u "Hello " ++ DOLLAR :: u "name" ++ u "!"))
    by (vm_compute; reflexivity).
  assert (Hpre : DOLLAR ∉ u "Hello ")
    by (apply (bool_decide_unpack _); vm_compute; exact I).
  assert (Hpost : DOLLAR ∉ u "!")
    by (apply (bool_decide_unpack _); vm_compute; exact I).
  assert (Htid : is_template_id (u "name"))
    by (apply (bool_decide_unpack _); vm_compute; exact I).
  assert (Hstop : ∀ c, head (u "!") = Some c → is_ident_char c = false)
    by (intros c [= <-]; vm_compute; reflexivity).
  assert (Hnd : NoDup Examples.nokia_items.*1)
    by (apply (bool_decide_unpack _); vm_compute; exact I).
  assert (Hin : (u "name", JStr (u "Nokia")) ∈ Examples.nokia_items)
    by apply list_elem_of_here.
  assert (Hctx : build_context Examples.quiet_env (JDict Examples.nokia_items)
                 = Ok (list_to_map
                         [(u "timestamp", u "2025-01-01 12:00");
                          (u "case_number", u "OP-D-V-1200");
                          (u "name", u "Nokia"); (u "city", u "Espoo")]))
    by (vm_compute; reflexivity).
  pose proof (generate_html_content_unbraced Examples.quiet_env
                _ _ _ _ _ _ _ Hfile Hpre Hpost Htid Hstop Hnd Hctx) as H.
  exact (conj (proj1 H) (proj1 (proj2 H) _ Hin)).
Defined.

Lemma generate_html_content_without_dollar_witness :
  generate_html_content Examples.quiet_env Examples.sample_generator
    (JDict Examples.nokia_items)
    (MoreExamples.world_with_template MoreExamples.static_template)
  = Ok MoreExamples.static_template.
Proof.
  assert (Hfile : read_file Examples.quiet_env
                    (template_path Examples.sample_generator)
                    (MoreExamples.world_with_template MoreExamples.static_template)
                  = Some MoreExamples.static_template)
    by (vm_compute; reflexivity).
  assert (Hplain : DOLLAR ∉ MoreExamples.static_template)
    by (apply (bool_decide_unpack _); vm_compute; exact I).
  assert (Hctx : build_context Examples.quiet_env (JDict Examples.nokia_items)
                 = Ok (list_to_map
                         [(u "timestamp", u "2025-01-01 12:00");
                          (u "case_number", u "OP-D-V-1200");
                          (u "name", u "Nokia"); (u "city", u "Espoo")]))
    by (vm_compute; reflexivity).
  exact (proj1 (proj2 (generate_html_content_without_dollar Examples.quiet_env
                         _ _ _ _ Hfile Hplain)) _ Hctx).
Defined.

(** ** companies_profile.py: the key, the probe and the query *)

(** X5: The API key of a new generator.  A non-empty [api_key] argument
    is used as it is; otherwise the environment variable [GEMINI_API_KEY]
    is, when it is set and non-empty; otherwise [ValueError] is raised.
    Nothing is changed, and a generator that is returned has a non-empty
    key and no working model yet. *)
Theorem init_spec key (w : World) :
  let made k := Ok {| api_key := k; models := [u "gemini-2.5-flash"];
                      working_model := None |} in
  (init key w).2 = w ∧
  (∀ k, key = Some k → k ≠ [] → (init key w).1 = made k) ∧
  (∀ k, key = None ∨ key = Some [] → api_key_env w = Some k → k ≠ [] →
        (init key w).1 = made k) ∧
  (key = None ∨ key = Some [] →
   api_key_env w = None ∨ api_key_env w = Some [] →
   ∃ msg, (init key w).1 = Exc (ValueError msg)) ∧
  (∀ g, (init key w).1 = Ok g → api_key g ≠ [] ∧ working_model g = None).
Proof.
  intros made. unfold init. split_and!.
  - destruct key as [[|c k]|]; destruct (api_key_env w) as [[|c' k']|]; done.
  - intros k -> Hk. by destruct k.
  - intros k [->| ->] -> Hk; by destruct k.
  - intros [->| ->] [->| ->]; by eexists.
  - intros g.
    destruct key as [[|c k]|]; destruct (api_key_env w) as [[|c' k']|];
      simpl; intros [= <-]; done.
Qed.

Section Probe.
Context (E : Env).

Lemma try_models_first self ms w i model :
  ms !! i = Some model →
  probe_works E self (requests_sent w + i) model = true →
  (∀ j m, (j < i)%nat → ms !! j = Some m →
          probe_works E self (requests_sent w + j) m = false) →
  try_models E self ms w
  = (Ok (Some (model_url model), set_working_model model self),
     after_probes self (take (S i) ms) w).
Proof.
  revert i w. induction ms as [|m0 ms IH]; intros i w Hi Hok Hbefore; [done|].
  rewrite try_models_step. destruct i as [|i].
  - simpl in Hi. injection Hi as ->.
    rewrite Nat.add_0_r in Hok. by rewrite Hok.
  - pose proof (Hbefore O m0 ltac:(lia) eq_refl) as H0.
    rewrite Nat.add_0_r in H0. rewrite H0.
    simpl in Hi. rewrite (IH i _ Hi).
    + done.
    + change (requests_sent (after_request self (model_url m0) PROBE w))
        with (S (requests_sent w)).
      by rewrite Nat.add_succ_comm.
    + intros j m Hj Hm.
      change (requests_sent (after_request self (model_url m0) PROBE w))
        with (S (requests_sent w)).
      rewrite Nat.add_succ_comm. apply Hbefore; [lia|done].
Qed.

Lemma try_models_none self ms w :
  (∀ j m, ms !! j = Some m →
          probe_works E self (requests_sent w + j) m = false) →
  try_models E self ms w = (Ok (None, self), after_probes self ms w).
Proof.
  revert w. induction ms as [|m0 ms IH]; intros w Hall; [done|].
  rewrite try_models_step.
  pose proof (Hall O m0 eq_refl) as H0.
  rewrite Nat.add_0_r in H0. rewrite H0.
  rewrite IH; [done|].
  intros j m Hm.
  change (requests_sent (after_request self (model_url m0) PROBE w))
    with (S (requests_sent w)).
  rewrite Nat.add_succ_comm. by apply Hall.
Qed.

(** X6: [find_working_model] takes the first model of the priority list
    whose probe is answered with status 200.  When the models before the
    one at position [i] fail (another status, or an exception of the
    request) and that one answers 200, its URL is returned and it becomes
    [working_model]; exactly [i + 1] probes were sent, one to each model up
    to it, in order, and none to a later model. *)
Theorem find_working_model_first self w i model :
  models self !! i = Some model →
  probe_works E self (requests_sent w + i) model = true →
  (∀ j m, (j < i)%nat → models self !! j = Some m →
          probe_works E self (requests_sent w + j) m = false) →
  let w' := (find_working_model E self w).2 in
  (find_working_model E self w).1
    = Ok (Some (model_url model), set_working_model model self) ∧
  requests_sent w' = (requests_sent w + S i)%nat ∧
  trace w'
  = trace w ++ map (λ m, EvHttp (request_url self (model_url m)) PROBE)
                   (take (S i) (models self)).
Proof.
  intros Hi Hok Hbefore. unfold find_working_model.
  rewrite (try_models_first _ _ _ _ _ Hi Hok Hbefore). simpl.
  split_and!; [done| |].
  - change (requests_sent (after_probes self (take (S i) (models self)) w)
            = (requests_sent w + S i)%nat).
    rewrite requests_after_probes, length_take.
    apply lookup_lt_Some in Hi. lia.
  - apply (trace_after_probes self (take (S i) (models self)) w).
Qed.

(** X7: When no probe is answered with status 200, [find_working_model]
    returns [None] and leaves the generator as it is, after one probe to
    every model of the list, in order.  No exception escapes. *)
Theorem find_working_model_none self w :
  (∀ j m, models self !! j = Some m →
          probe_works E self (requests_sent w + j) m = false) →
  let w' := (find_working_model E self w).2 in
  (find_working_model E self w).1 = Ok (None, self) ∧
  requests_sent w' = (requests_sent w + length (models self))%nat ∧
  trace w'
  = trace w ++ map (λ m, EvHttp (request_url self (model_url m)) PROBE)
                   (models self).
Proof.
  intros Hall. unfold find_working_model.
  rewrite (try_models_none _ _ _ Hall). simpl.
  split_and!; [done| |].
  - apply requests_after_probes.
  - apply trace_after_probes.
Qed.

Lemma try_models_bound self ms w :
  ∃ r self' w',
    try_models E self ms w = (Ok (r, self'), w') ∧
    (requests_sent w ≤ requests_sent w' ≤ requests_sent w + length ms)%nat ∧
    (r = None → self' = self) ∧
    (∀ url, r = Some url →
       ∃ m, m ∈ ms ∧ url = model_url m ∧ self' = set_working_model m self).
Proof.
  revert w. induction ms as [|m0 ms IH]; intros w.
  - exists None, self, w. simpl. split_and!; done || lia.
  - rewrite try_models_step. destruct (probe_works E self (requests_sent w) m0).
    + eexists _, _, _. split_and!; try done; try (simpl; lia).
      intros url [= <-]. exists m0. split; [apply list_elem_of_here|done].
    + destruct (IH (after_request self (model_url m0) PROBE w))
        as (r & self' & w' & -> & Hreq & Hnone & Hsome).
      exists r, self', w'.
      change (requests_sent (after_request self (model_url m0) PROBE w))
        with (S (requests_sent w)) in Hreq.
      split_and!; try done; try (simpl; lia).
      intros url Hurl. destruct (Hsome url Hurl) as (m & Hm & ? & ?).
      exists m. split; [by apply list_elem_of_further|done].
Qed.

Lemma try_models_count self ms w r self' w' :
  try_models E self ms w = (Ok (r, self'), w') → r = None →
  requests_sent w' = (requests_sent w + length ms)%nat.
Proof.
  revert w. induction ms as [|m0 ms IH]; intros w Heq Hr.
  - simpl in Heq. injection Heq as <- <- <-. simpl. lia.
  - rewrite try_models_step in Heq.
    destruct (probe_works E self (requests_sent w) m0).
    + injection Heq as <- <- <-. done.
    + rewrite (IH _ Heq Hr). simpl. lia.
Qed.

Lemma query_gemini_outcome self prompt w :
  ∃ r self' w',
    query_gemini E self prompt w = (Ok (r, self'), w') ∧
    (requests_sent w' ≤ requests_sent w + length (models self) + 3)%nat ∧
    api_key self' = api_key self ∧
    models self' = models self ∧
    (∀ m, working_model self = Some m → m ≠ [] →
          self' = self ∧ (requests_sent w' ≤ requests_sent w + 3)%nat) ∧
    (working_model self = None ∨ working_model self = Some [] →
       (self' = self ∧ r = JNone ∧
        requests_sent w' = (requests_sent w + length (models self))%nat) ∨
       (∃ m, m ∈ models self ∧ self' = set_working_model m self)).
Proof.
  assert (Hprobe : working_model self = None ∨ working_model self = Some [] →
    ∃ r self' w',
      query_gemini E self prompt w = (Ok (r, self'), w') ∧
      (requests_sent w' ≤ requests_sent w + length (models self) + 3)%nat ∧
      api_key self' = api_key self ∧
      models self' = models self ∧
      ((self' = self ∧ r = JNone ∧
        requests_sent w' = (requests_sent w + length (models self))%nat) ∨
       (∃ m, m ∈ models self ∧ self' = set_working_model m self))).
  { intros Hfresh. rewrite (query_gemini_fresh E self prompt w Hfresh).
    unfold find_working_model.
    destruct (try_models_bound self (models self) w)
      as (r & self' & w1 & Htry & Hreq1 & Hnone & Hsome).
    rewrite Htry. destruct r as [url|].
    - destruct (Hsome url eq_refl) as (m & Hm & -> & ->).
      pose proof (attempts_requests E 3 (set_working_model m self)
                    (model_url m) prompt w1) as Hreq.
      destruct (attempts_returns E 3 (set_working_model m self)
                  (model_url m) prompt w1) as [v Hv].
      destruct (attempts E 3 (set_working_model m self) (model_url m) prompt w1)
        as [res w'].
      simpl in *. subst res.
      exists v, (set_working_model m self), w'.
      split_and!; try done; try lia. right. by exists m.
    - specialize (Hnone eq_refl). subst self'.
      exists JNone, self, w1. split_and!; try done; try lia.
      left. split_and!; [done|done|].
      by apply (try_models_count _ _ _ _ _ _ Htry). }
  destruct (working_model self) as [[|c m]|] eqn:Hwm.
  - destruct Hprobe as (r & self' & w' & ? & ? & ? & ? & ?); [by right|].
    exists r, self', w'. split_and!; try done. by intros m [= <-].
  - rewrite (query_gemini_ready E self (c :: m) prompt w Hwm) by done.
    pose proof (attempts_requests E 3 self (model_url (c :: m)) prompt w) as Hreq.
    destruct (attempts_returns E 3 self (model_url (c :: m)) prompt w) as [v Hv].
    destruct (attempts E 3 self (model_url (c :: m)) prompt w) as [res w'].
    simpl in *. subst res.
    exists v, self, w'. split_and!; try done; try lia.
    by intros [?|?].
  - destruct Hprobe as (r & self' & w' & ? & ? & ? & ? & ?); [by left|].
    exists r, self', w'. split_and!; done.
Qed.

Lemma only_client_post g url text : only client_event (post E g url text).
Proof.
  intros w. exists [EvHttp (request_url g url) text].
  split; [done|by constructor].
Qed.

Lemma only_client_try_models g ms : only client_event (try_models E g ms).
Proof.
  induction ms as [|m ms IH]; simpl; [apply only_ret|].
  apply only_bind; [apply only_client_post|].
  intros [status body|]; [|exact IH].
  destruct (status =? 200)%Z; [apply only_ret|exact IH].
Qed.

Lemma only_client_attempts n g url prompt :
  only client_event (attempts E n g url prompt).
Proof.
  induction n as [|n IH]; simpl; [apply only_ret|].
  apply only_bind; [apply only_client_post|].
  intros [status body|]; [|apply only_ret].
  destruct (status =? 200)%Z; [apply only_ret|].
  destruct (status =? 429)%Z; [|apply only_ret].
  apply only_bind; [by apply only_emit|]. intros _. exact IH.
Qed.

Lemma only_client_query_gemini g prompt :
  only client_event (query_gemini E g prompt).
Proof.
  apply query_gemini_either.
  - intros m.
    apply only_bind; [apply only_client_attempts|]. intros r. apply only_ret.
  - apply only_bind; [apply only_client_try_models|]. intros [url g'].
    destruct url; [|apply only_ret].
    apply only_bind; [apply only_client_attempts|]. intros r. apply only_ret.
Qed.

(** X8: What a query costs and what it leaves behind, for every state of
    the generator.  [query_gemini] returns without an exception, after at
    most one probe per model and three requests of the query itself; all
    it does to the outside is to send requests and to wait 20 seconds
    after a rate limit.  It keeps the key and the list of models; a working
    model that is set stays, without a probe; when none is set (the
    attribute is [None] or empty), either a model of the list becomes the
    working model, or the generator stays as it is and the answer is
    [None]: the probes failed and the query itself was not sent. *)
Theorem query_gemini_bound self prompt w :
  ∃ r self' w' evs,
    query_gemini E self prompt w = (Ok (r, self'), w') ∧
    trace w' = trace w ++ evs ∧ Forall client_event evs ∧
    (requests_sent w' ≤ requests_sent w + length (models self) + 3)%nat ∧
    api_key self' = api_key self ∧
    models self' = models self ∧
    (∀ m, working_model self = Some m → m ≠ [] →
          self' = self ∧ (requests_sent w' ≤ requests_sent w + 3)%nat) ∧
    (working_model self = None ∨ working_model self = Some [] →
       (self' = self ∧ r = JNone ∧
        requests_sent w' = (requests_sent w + length (models self))%nat) ∨
       (∃ m, m ∈ models self ∧ self' = set_working_model m self)).
Proof.
  destruct (query_gemini_outcome self prompt w)
    as (r & self' & w' & Hq & Hreq & Hkey & Hmodels & Hknown & Hfresh).
  destruct (only_client_query_gemini self prompt w) as (evs & Ht & Hall).
  rewrite Hq in Ht. cbn [snd] in Ht.
  exists r, self', w', evs. by split_and!.
Qed.

End Probe.

Lemma find_working_model_first_witness :
  (find_working_model MoreExamples.third_time_env MoreExamples.three_models
     Examples.empty_world).1
  = Ok (Some (model_url (u "m3")),
        set_working_model (u "m3") MoreExamples.three_models) ∧
  requests_sent
    (find_working_model MoreExamples.third_time_env MoreExamples.three_models
       Examples.empty_world).2 = 3%nat.
Proof.
  assert (Hi : models MoreExamples.three_models !! 2%nat = Some (u "m3"))
    by reflexivity.
  assert (Hok : probe_works MoreExamples.third_time_env MoreExamples.three_models
                  (requests_sent Examples.empty_world + 2) (u "m3") = true)
    by (vm_compute; reflexivity).
  assert (Hbefore : ∀ j m, (j < 2)%nat →
            models MoreExamples.three_models !! j = Some m →
            probe_works MoreExamples.third_time_env MoreExamples.three_models
              (requests_sent Examples.empty_world + j) m = false).
  { intros [|[|j]] m Hj Hm; [vm_compute; reflexivity..|lia]. }
  pose proof (find_working_model_first MoreExamples.third_time_env
                _ _ _ _ Hi Hok Hbefore) as H.
  exact (conj (proj1 H) (proj1 (proj2 H))).
Defined.

Lemma find_working_model_none_witness :
  (find_working_model Examples.busy_env MoreExamples.three_models
     Examples.empty_world).1
  = Ok (None, MoreExamples.three_models) ∧
  requests_sent
    (find_working_model Examples.busy_env MoreExamples.three_models
       Examples.empty_world).2 = 3%nat.
Proof.
  assert (Hall : ∀ j m, models MoreExamples.three_models !! j = Some m →
            probe_works Examples.busy_env MoreExamples.three_models
              (requests_sent Examples.empty_world + j) m = false)
    by (intros j m _; vm_compute; reflexivity).
  pose proof (find_working_model_none Examples.busy_env _ _ Hall) as H.
  exact (conj (proj1 H) (proj1 (proj2 H))).
Defined.

(** ** companies_profile.py: cleaning the answer, naming the data file *)

Section Stripping.

Context (ws : N → bool).

Lemma lstrip_clean s : clean_head ws (lstrip ws s).
Proof.
  induction s as [|c s IH]; [done|]. simpl.
  destruct (ws c) eqn:Hc; [done|]. simpl. done.
Qed.

Lemma lstrip_id s : clean_head ws s → lstrip ws s = s.
Proof. destruct s as [|c s]; [done|]. simpl. by intros ->. Qed.

Lemma lstrip_spaces pad s :
  Forall (λ c, ws c = true) pad → lstrip ws (pad ++ s) = lstrip ws s.
Proof. induction 1 as [|c pad Hc _ IH]; [done|]. simpl. by rewrite Hc. Qed.

Lemma rstrip_snoc s c :
  rstrip ws (s ++ [c]) = if ws c then rstrip ws s else s ++ [c].
Proof.
  unfold rstrip. rewrite rev_app_distr. simpl.
  destruct (ws c); [done|]. simpl. by rewrite rev_involutive.
Qed.

Lemma rstrip_clean_head s : clean_head ws s → clean_head ws (rstrip ws s).
Proof.
  induction s as [|c s IH] using rev_ind; [done|].
  intros Hs. rewrite rstrip_snoc. destruct (ws c) eqn:Hc; [|done].
  apply IH. destruct s; [done|]. done.
Qed.

Lemma rstrip_clean s : clean_head ws (rev (rstrip ws s)).
Proof. unfold rstrip. rewrite rev_involutive. apply lstrip_clean. Qed.

Lemma rstrip_id s : clean_head ws (rev s) → rstrip ws s = s.
Proof. intros H. unfold rstrip. by rewrite lstrip_id, rev_involutive. Qed.

Lemma rstrip_spaces s pad :
  Forall (λ c, ws c = true) pad → rstrip ws (s ++ pad) = rstrip ws s.
Proof.
  intros Hpad. unfold rstrip. rewrite rev_app_distr.
  rewrite lstrip_spaces; [done|]. by apply Forall_rev.
Qed.

Lemma strip_id s : clean_head ws s → clean_head ws (rev s) → strip ws s = s.
Proof. intros H1 H2. unfold strip. by rewrite lstrip_id, rstrip_id. Qed.

Lemma strip_clean s :
  clean_head ws (strip ws s) ∧ clean_head ws (rev (strip ws s)).
Proof.
  unfold strip. split.
  - apply rstrip_clean_head, lstrip_clean.
  - apply rstrip_clean.
Qed.


(** Whitespace around a text that starts and ends with other characters. *)
Lemma strip_padded pad1 a mid b pad2 :
  Forall (λ c, ws c = true) pad1 → Forall (λ c, ws c = true) pad2 →
  ws a = false → ws b = false →
  strip ws (pad1 ++ (a :: mid ++ [b]) ++ pad2) = a :: mid ++ [b].
Proof.
  intros H1 H2 Ha Hb. unfold strip.
  rewrite lstrip_spaces by done.
  rewrite (lstrip_id ((a :: mid ++ [b]) ++ pad2)) by done.
  rewrite rstrip_spaces by done.
  apply rstrip_id. simpl. rewrite rev_app_distr. simpl. done.
Qed.

End Stripping.

Section Finding.

Lemma find_char_first c pre post :
  c ∉ pre → find_char c (pre ++ c :: post) = Some (length pre).
Proof.
  induction pre as [|d pre IH]; intros Hpre; simpl.
  - by rewrite N.eqb_refl.
  - apply not_elem_of_cons in Hpre as [Hd Hpre].
    destruct (d =? c) eqn:Hdc; [by apply N.eqb_eq in Hdc|].
    by rewrite IH.
Qed.

Lemma find_char_none c s : c ∉ s → find_char c s = None.
Proof.
  induction s as [|d s IH]; intros Hs; [done|]. simpl.
  apply not_elem_of_cons in Hs as [Hd Hs].
  destruct (d =? c) eqn:Hdc; [by apply N.eqb_eq in Hdc|].
  by rewrite IH.
Qed.

Lemma rfind_char_last c pre post :
  c ∉ post → rfind_char c (pre ++ c :: post) = Some (length pre).
Proof.
  intros Hpost. unfold rfind_char.
  rewrite rev_app_distr. simpl. rewrite <- app_assoc. simpl.
  rewrite find_char_first
    by (by rewrite list_elem_of_In, <- in_rev, <- list_elem_of_In).
  simpl. f_equal. rewrite length_rev, length_app. simpl. lia.
Qed.

Lemma startswith_cons_ne p a s b :
  a ≠ b → startswith (a :: p) (b :: s) = false.
Proof. intros H. simpl. by apply N.eqb_neq in H as ->. Qed.

End Finding.

Section Parsing.
Context (E : Env).

Lemma fence_shape (x : pystr) :
  u "```json" ++ x ++ u "```"
  = BACKTICK :: (u "``json" ++ x ++ u "``") ++ [BACKTICK].
Proof. simpl. do 7 f_equal. by rewrite <- app_assoc. Qed.

(** X9: The answer of the model is cleaned before it is parsed.  For a
    JSON object text [body], from its opening to its closing brace,
    [json.loads] is applied to exactly [body], and the result is [None] when
    it raises, in both of these cases: the answer is [body] with whitespace
    around it; the answer is [body] inside a markdown fence, with any text
    free of braces between fence and body and whitespace around the fence.
    Whitespace is what [str.isspace] says; braces and the backtick are
    none. *)
Theorem parse_text_json mid :
  isspace E LBRACE = false → isspace E RBRACE = false →
  isspace E BACKTICK = false →
  let body := LBRACE :: mid ++ [RBRACE] in
  ∀ pad1 pad2,
    Forall (λ c, isspace E c = true) pad1 →
    Forall (λ c, isspace E c = true) pad2 →
    parse_text E (pad1 ++ body ++ pad2) = default JNone (json_loads E body) ∧
    ∀ gap1 gap2,
      LBRACE ∉ gap1 → RBRACE ∉ gap2 →
      parse_text E (pad1 ++ (u "```json" ++ gap1 ++ body ++ gap2 ++ u "```") ++ pad2)
      = default JNone (json_loads E body).
Proof.
  intros Hl Hr Hb body pad1 pad2 Hpad1 Hpad2. split.
  - unfold parse_text.
    rewrite (strip_padded _ pad1 LBRACE mid RBRACE pad2) by done.
    assert (Hstart : startswith (u "```json") (LBRACE :: mid ++ [RBRACE]) = false)
      by reflexivity.
    rewrite Hstart. lazy beta iota zeta.
    assert (Hend : endswith (u "```") (LBRACE :: mid ++ [RBRACE]) = false).
    { unfold endswith. simpl. rewrite rev_app_distr. simpl. done. }
    rewrite Hend. lazy beta iota zeta.
    change (find_char LBRACE (LBRACE :: mid ++ [RBRACE])) with (Some O).
    lazy beta iota zeta.
    change (LBRACE :: mid ++ [RBRACE]) with ((LBRACE :: mid) ++ [RBRACE]).
    rewrite (rfind_char_last RBRACE (LBRACE :: mid) [])
      by apply not_elem_of_nil.
    unfold slice. rewrite drop_0, Nat.sub_0_r.
    rewrite take_ge; [done|]. rewrite length_app. simpl. lia.
  - intros gap1 gap2 Hgap1 Hgap2. unfold parse_text.
    set (inner := gap1 ++ body ++ gap2).
    assert (Hinner : gap1 ++ body ++ gap2 ++ u "```" = inner ++ u "```")
      by (unfold inner; by rewrite <- !app_assoc).
    rewrite Hinner, (fence_shape inner).
    rewrite (strip_padded _ pad1 BACKTICK _ BACKTICK pad2) by done.
    rewrite <- (fence_shape inner).
    rewrite (startswith_app (u "```json")). lazy beta iota zeta.
    rewrite (drop_app_length' (u "```json")) by done.
    rewrite endswith_app. lazy beta iota zeta.
    rewrite take_app_length' by (rewrite length_app; simpl; lia).
    assert (H1 : inner = gap1 ++ LBRACE :: (mid ++ RBRACE :: gap2))
      by (unfold inner, body; simpl; by rewrite <- app_assoc).
    assert (H2 : inner = (gap1 ++ LBRACE :: mid) ++ RBRACE :: gap2)
      by (rewrite H1; by rewrite <- app_assoc).
    rewrite H1 at 1. rewrite find_char_first by done.
    lazy beta iota zeta.
    rewrite H2 at 1. rewrite rfind_char_last by done.
    unfold slice. rewrite H1, drop_app_length.
    rewrite length_app. simpl.
    replace (S (length gap1 + S (length mid)) - length gap1)%nat
      with (length (LBRACE :: mid ++ [RBRACE]))
      by (simpl; rewrite length_app; simpl; lia).
    replace (LBRACE :: mid ++ RBRACE :: gap2)
      with ((LBRACE :: mid ++ [RBRACE]) ++ gap2)
      by (simpl; by rewrite <- app_assoc).
    by rewrite take_app_length.
Qed.

(** X10: An answer without an opening brace is not parsed: the result is
    [None], whatever [json.loads] would say. *)
Theorem parse_text_no_brace result :
  LBRACE ∉ result → parse_text E result = JNone.
Proof.
  intros Hno. unfold parse_text.
  set (c1 := strip (isspace E) result).
  set (c2 := if startswith (u "```json") c1 then drop 7 c1 else c1).
  set (c3 := if endswith (u "```") c2 then take (length c2 - 3) c2 else c2).
  assert (H0 : Forall (λ c, c ≠ LBRACE) result).
  { apply Forall_forall. intros c Hc ->. done. }
  assert (H1 : Forall (λ c, c ≠ LBRACE) c1) by by apply Forall_strip.
  assert (H2 : Forall (λ c, c ≠ LBRACE) c2).
  { unfold c2. destruct (startswith _ c1); [by apply Forall_drop|done]. }
  assert (H3 : Forall (λ c, c ≠ LBRACE) c3).
  { unfold c3. destruct (endswith _ c2); [by apply Forall_take|done]. }
  rewrite find_char_none; [done|].
  intros Hin. by apply (proj1 (Forall_forall _ _) H3 LBRACE Hin).
Qed.

(** X11: What the type of the answer does.  The text of a candidate
    need not be a string.  When the query returns a truthy value that is
    a number, a boolean or a dict, [generate_company_info] raises: such a
    value has no [strip], and the handler's own [result[:100]] fails on it.
    [process_company] has no handler, so it raises as well, after the
    query and without writing a file.  In every other case nothing is
    raised: text is cleaned and parsed, and [None], an empty value or a list
    gives [None]. *)
Theorem generate_company_info_outcome g name fields w r g' w' :
  query_gemini E g (prompt_for name fields) w = (Ok (r, g'), w') →
  (not_sliceable r →
     ∃ e, generate_company_info E g name fields w = (Exc e, w') ∧
          ∀ dir w0, w = mkdir E dir w0 →
                    process_company E g name fields dir w0 = (Exc e, w')) ∧
  (¬ not_sliceable r →
     generate_company_info E g name fields w
     = (Ok (match r with
            | JStr (c :: s) => parse_text E (c :: s)
            | _ => JNone
            end, g'), w')).
Proof.
  intros Hq.
  assert (Hgen : generate_company_info E g name fields w
                 = if truthy r then
                     match r with
                     | JStr s => (Ok (parse_text E s, g'), w')
                     | JList _ => (Ok (JNone, g'), w')
                     | _ => (Exc (slice_error r), w')
                     end
                   else (Ok (JNone, g'), w')).
  { unfold generate_company_info. unfold_M. rewrite Hq.
    destruct (truthy r); [|done]. by destruct r. }
  split.
  - intros [Htruthy Hkind]. rewrite Htruthy in Hgen.
    exists (slice_error r).
    assert (Hexc : generate_company_info E g name fields w
                   = (Exc (slice_error r), w'))
      by (by destruct r).
    split; [done|]. intros dir w0 ->.
    unfold process_company. unfold_M. cbn [fst snd]. by rewrite Hexc.
  - intros Hnot. rewrite Hgen. destruct (truthy r) eqn:Htruthy.
    + destruct r as [| | | |[|c s]| |]; try done;
        exfalso; apply Hnot; by split.
    + by destruct r as [| | | |[|c s]| |].
Qed.

End Parsing.

Section SafeNames.
Context (E : Env).

Lemma replace_char_id a b s : a ∉ s → replace_char a b s = s.
Proof.
  induction s as [|c s IH]; intros Hs; [done|].
  apply not_elem_of_cons in Hs as [Hc Hs]. simpl.
  destruct (c =? a) eqn:Hca; [apply N.eqb_eq in Hca; congruence|].
  f_equal. by apply IH.
Qed.

Lemma replace_char_clean_head ws a b s :
  ws a = true → clean_head ws s → clean_head ws (replace_char a b s).
Proof.
  intros Ha. destruct s as [|c s]; [done|]. simpl. intros Hc.
  destruct (c =? a) eqn:Hca; [|done].
  apply N.eqb_eq in Hca. congruence.
Qed.

Lemma replace_char_rev a b s :
  rev (replace_char a b s) = replace_char a b (rev s).
Proof. unfold replace_char. by rewrite map_rev. Qed.

Lemma replace_char_removes a b s : a ≠ b → a ∉ replace_char a b s.
Proof.
  intros Hab Hin. unfold replace_char in Hin.
  apply list_elem_of_fmap in Hin as (c & Hc & _).
  destruct (c =? a) eqn:Hca; [congruence|].
  apply N.eqb_neq in Hca. congruence.
Qed.

Lemma Forall_filter_kept {A} (P : A → Prop) `{∀ x, Decision (P x)} l :
  Forall P (filter P l).
Proof.
  apply Forall_forall. intros x Hx. by apply list_elem_of_filter in Hx as [].
Qed.

Lemma filter_keeps_all {A} (P : A → Prop) `{∀ x, Decision (P x)} l :
  Forall P l → filter P l = l.
Proof.
  induction 1 as [|x l Hx _ IH]; [done|].
  by rewrite filter_cons_True, IH.
Qed.

(** X12: Making a name safe twice changes nothing more: the safe form of
    a company name is its own safe form.  This needs the space character
    to count as whitespace for [str.isspace], as it does in Python. *)
Theorem safe_name_of_idempotent company_name :
  isspace E SPACE = true →
  safe_name_of E (safe_name_of E company_name) = safe_name_of E company_name.
Proof.
  intros Hspace. unfold safe_name_of at 1.
  set (keep := λ c, (isalnum E c
                     || bool_decide (c ∈ [SPACE; HYPHEN; UNDERSCORE])) = true).
  set (name := safe_name_of E company_name).
  assert (Hkeep : Forall keep name).
  { unfold name, safe_name_of. fold keep.
    unfold replace_char. apply Forall_fmap.
    eapply Forall_impl.
    - apply Forall_strip. apply (Forall_filter_kept keep).
    - intros c Hc. simpl. destruct (c =? SPACE); [|done].
      unfold keep. by rewrite orb_true_r. }
  assert (Hclean : strip (isspace E) name = name).
  { apply strip_id.
    - apply replace_char_clean_head; [done|]. apply strip_clean.
    - unfold name, safe_name_of. rewrite replace_char_rev.
      apply replace_char_clean_head; [done|]. apply strip_clean. }
  assert (Hnospace : SPACE ∉ name) by by apply replace_char_removes.
  rewrite (filter_keeps_all keep name) by done.
  rewrite Hclean. by apply replace_char_id.
Qed.

End SafeNames.

Section RoundTrip.
Context (E : Env).

Lemma length_remove_sub_fuel f old s :
  (length (remove_sub_fuel f old s) ≤ length s)%nat.
Proof.
  revert s. induction f as [|f IH]; intros s; [done|].
  destruct s as [|c r]; [done|]. simpl.
  destruct (bool_decide (old ≠ []) && startswith old (c :: r)).
  - etrans; [apply IH|]. rewrite length_drop. simpl. lia.
  - simpl. specialize (IH r). lia.
Qed.

Lemma remove_sub_fuel_enough f1 f2 old s :
  (length s ≤ f1)%nat → (length s ≤ f2)%nat →
  remove_sub_fuel f1 old s = remove_sub_fuel f2 old s.
Proof.
  revert f2 s. induction f1 as [|f1 IH]; intros f2 s H1 H2.
  - destruct s; [|simpl in H1; lia]. by destruct f2.
  - destruct f2 as [|f2].
    + destruct s; [done|simpl in H2; lia].
    + destruct s as [|c r]; [done|]. simpl in H1, H2. simpl.
      destruct (bool_decide (old ≠ [])) eqn:Hold; simpl.
      * destruct (startswith old (c :: r)).
        -- apply IH; rewrite length_drop; simpl;
             apply bool_decide_eq_true in Hold; destruct old; simpl; try done; lia.
        -- f_equal. apply IH; lia.
      * f_equal. apply IH; lia.
Qed.

Lemma remove_sub_cons old c r :
  remove_sub old (c :: r)
  = if bool_decide (old ≠ []) && startswith old (c :: r)
    then remove_sub old (drop (length old) (c :: r))
    else c :: remove_sub old r.
Proof.
  unfold remove_sub. simpl.
  destruct (bool_decide (old ≠ [])) eqn:Hold; simpl; [|done].
  destruct (startswith old (c :: r)); [|done].
  apply bool_decide_eq_true in Hold.
  apply remove_sub_fuel_enough; [|done].
  rewrite length_drop. simpl. destruct old; simpl; [done|lia].
Qed.

Lemma length_remove_sub old s : (length (remove_sub old s) ≤ length s)%nat.
Proof. apply length_remove_sub_fuel. Qed.

Lemma contains_cons sub c r :
  contains sub (c :: r) = startswith sub (c :: r) || contains sub r.
Proof. done. Qed.

Lemma remove_sub_shorter old s :
  old ≠ [] → contains old s = true →
  (length (remove_sub old s) < length s)%nat.
Proof.
  intros Hold. induction s as [|c r IH]; intros Hin.
  - destruct old; [done|]. done.
  - rewrite remove_sub_cons, bool_decide_true by done.
    rewrite contains_cons in Hin. rewrite andb_true_l.
    destruct (startswith old (c :: r)) eqn:Hs.
    + eapply Nat.le_lt_trans; [apply length_remove_sub|].
      rewrite length_drop. destruct old; [done|]. simpl. lia.
    + simpl in Hin. specialize (IH Hin). simpl. lia.
Qed.

Lemma remove_sub_absent old s :
  contains old s = false → remove_sub old s = s.
Proof.
  induction s as [|c r IH]; intros Hin; [done|].
  rewrite contains_cons in Hin. apply orb_false_iff in Hin as [Hs Hr].
  rewrite remove_sub_cons, Hs, andb_false_r. f_equal. by apply IH.
Qed.

Lemma remove_sub_same old s :
  old ≠ [] → remove_sub old s = s ↔ contains old s = false.
Proof.
  intros Hold. split; [|apply remove_sub_absent].
  intros Heq. destruct (contains old s) eqn:Hin; [|done].
  pose proof (remove_sub_shorter old s Hold Hin) as Hlt.
  rewrite Heq in Hlt. lia.
Qed.

Lemma startswith_length p s :
  startswith p s = true → (length p ≤ length s)%nat.
Proof.
  revert s. induction p as [|a p IH]; intros s Hs; simpl; [lia|].
  destruct s as [|b s]; [done|]. simpl in *.
  apply andb_true_iff in Hs as [_ Hs]. specialize (IH s Hs). lia.
Qed.

Lemma startswith_app_long p s t :
  (length p ≤ length s)%nat → startswith p (s ++ t) = startswith p s.
Proof.
  revert s. induction p as [|a p IH]; intros s Hlen; [done|].
  destruct s as [|b s]; [simpl in Hlen; lia|]. simpl in *.
  rewrite IH; [done|lia].
Qed.

(** No occurrence of [_data] starts inside a text and ends inside a
    following [_data]: the underscore is the first character only. *)
Lemma startswith_data_straddle s :
  s ≠ [] → (length s < 5)%nat →
  startswith (u "_data") (s ++ u "_data") = false.
Proof.
  intros Hne Hlen.
  destruct s as [|c1 [|c2 [|c3 [|c4 [|c5 s]]]]]; [done|..|simpl in Hlen; lia];
    cbn; rewrite ?andb_false_r; done.
Qed.

Lemma remove_sub_data_tail s :
  remove_sub (u "_data") (s ++ u "_data") = remove_sub (u "_data") s.
Proof.
  induction s as [s IH] using (induction_ltof1 _ (@length N)).
  unfold ltof in IH.
  destruct s as [|c r]; [by vm_compute|].
  change ((c :: r) ++ u "_data") with (c :: (r ++ u "_data")).
  rewrite !remove_sub_cons.
  change (c :: (r ++ u "_data")) with ((c :: r) ++ u "_data").
  rewrite !bool_decide_true by done. rewrite !andb_true_l.
  destruct (le_lt_dec 5 (length (c :: r))) as [Hlong|Hshort].
  - rewrite startswith_app_long by done.
    destruct (startswith (u "_data") (c :: r)) eqn:Hs.
    + rewrite drop_app_le by done. apply IH.
      rewrite length_drop. simpl. lia.
    + f_equal. apply IH. simpl. lia.
  - rewrite startswith_data_straddle by done.
    assert (Hs : startswith (u "_data") (c :: r) = false).
    { destruct (startswith (u "_data") (c :: r)) eqn:Hs; [|done].
      apply startswith_length in Hs. simpl in Hs, Hshort. lia. }
    rewrite Hs. f_equal. apply IH. simpl. lia.
Qed.

Lemma stem_suffix x ext :
  x ≠ [] → ext ≠ [] → 46 ∉ ext → stem (x ++ 46 :: ext) = x.
Proof.
  intros Hx Hext Hdot. unfold stem.
  rewrite rfind_char_last by done.
  destruct x as [|c x]; [done|].
  change (length (c :: x)) with (S (length x)). cbv beta iota.
  rewrite bool_decide_true.
  - change (S (length x)) with (length (c :: x)). apply take_app_length.
  - rewrite length_app. simpl. destruct ext; [done|]. simpl. lia.
Qed.

(** X13: From the data file back to the company.  Phases 2 and 3 of the
    worker, and steps 2 and 3 of [main], derive the safe name from the name
    of a data file by dropping the suffix and removing every [_data].  For
    the file [process_company] writes for a company, that gives the safe
    name of the company with every [_data] removed from it: the safe name
    itself exactly when it does not contain [_data]. *)
Theorem data_file_round_trip company_name :
  let safe_name := safe_name_of E company_name in
  Worker.safe_name_of_file (data_file_name E company_name)
  = remove_sub (u "_data") safe_name ∧
  (Worker.safe_name_of_file (data_file_name E company_name) = safe_name
   ↔ contains (u "_data") safe_name = false).
Proof.
  intros safe_name.
  assert (Hfile : Worker.safe_name_of_file (data_file_name E company_name)
                  = remove_sub (u "_data") safe_name).
  { unfold Worker.safe_name_of_file, data_file_name. fold safe_name.
    change (safe_name ++ u "_data.json")
      with (safe_name ++ u "_data" ++ 46 :: u "json").
    rewrite app_assoc, stem_suffix.
    - apply remove_sub_data_tail.
    - by destruct safe_name.
    - done.
    - apply (bool_decide_unpack _). by vm_compute. }
  split; [done|]. rewrite Hfile. by apply remove_sub_same.
Qed.

End RoundTrip.

Example data_file_round_trip_lost :
  safe_name_of Examples.quiet_env (u "Big_data Oy") = u "Big_data_Oy" ∧
  Worker.safe_name_of_file (data_file_name Examples.quiet_env (u "Big_data Oy"))
  = u "Big_Oy".
Proof. split; vm_compute; reflexivity. Qed.

Lemma parse_text_json_witness :
  parse_text Examples.quiet_env
    ([10] ++ (u "```json" ++ [10] ++ (LBRACE :: u "" ++ [RBRACE]) ++ [10] ++ u "```")
     ++ [10])
  = default JNone (json_loads Examples.quiet_env (LBRACE :: u "" ++ [RBRACE])).
Proof.
  assert (H1 : isspace Examples.quiet_env LBRACE = false) by reflexivity.
  assert (H2 : isspace Examples.quiet_env RBRACE = false) by reflexivity.
  assert (H3 : isspace Examples.quiet_env BACKTICK = false) by reflexivity.
  assert (Hpad : Forall (λ c, isspace Examples.quiet_env c = true) [10])
    by (repeat constructor).
  assert (Hl : LBRACE ∉ [10]) by (apply (bool_decide_unpack _); vm_compute; exact I).
  assert (Hr : RBRACE ∉ [10]) by (apply (bool_decide_unpack _); vm_compute; exact I).
  exact (proj2 (parse_text_json Examples.quiet_env (u "") H1 H2 H3
                  [10] [10] Hpad Hpad) [10] [10] Hl Hr).
Defined.

Lemma generate_company_info_outcome_witness :
  ∃ e, (process_company MoreExamples.number_env Examples.fresh_generator
          (u "Nokia") [u "name"] (u "output") Examples.empty_world).1 = Exc e.
Proof.
  assert (Hq : query_gemini MoreExamples.number_env Examples.fresh_generator
                 (prompt_for (u "Nokia") [u "name"])
                 (mkdir MoreExamples.number_env (u "output") Examples.empty_world)
               = (Ok (JInt 5, Examples.ready_generator),
                  (query_gemini MoreExamples.number_env Examples.fresh_generator
                     (prompt_for (u "Nokia") [u "name"])
                     (mkdir MoreExamples.number_env (u "output")
                        Examples.empty_world)).2))
    by (vm_compute; reflexivity).
  assert (Hr : not_sliceable (JInt 5)) by (split; [reflexivity|exact I]).
  destruct (proj1 (generate_company_info_outcome MoreExamples.number_env
                     _ _ _ _ _ _ _ Hq) Hr) as (e & _ & He).
  exists e. by rewrite (He (u "output") Examples.empty_world eq_refl).
Defined.

Lemma parse_text_no_brace_witness :
  parse_text Examples.quiet_env (u "I cannot help with that.") = JNone.
Proof.
  apply parse_text_no_brace.
  apply (bool_decide_unpack _). vm_compute. exact I.
Defined.

Lemma safe_name_of_idempotent_witness :
  safe_name_of Examples.quiet_env
    (safe_name_of Examples.quiet_env (u " Rovio Entertainment! "))
  = safe_name_of Examples.quiet_env (u " Rovio Entertainment! ").
Proof.
  apply safe_name_of_idempotent. vm_compute. reflexivity.
Defined.

(** ** What a computation leaves alone *)

Section Preserves.
Context {X : Type} (f : World → X).

Lemma preserves_ret {A} (a : A) : preserves f (mret a).
Proof. done. Qed.

Lemma preserves_raise {A} e : preserves f (raise (A:=A) e).
Proof. done. Qed.

Lemma preserves_get {A} (g : World → A) : preserves f (get g).
Proof. done. Qed.

Lemma preserves_act g : (∀ w, f (g w) = f w) → preserves f (act g).
Proof. intros H w. apply H. Qed.

Lemma preserves_bind {A B} (m : M A) (k : A → M B) :
  preserves f m → (∀ a, preserves f (k a)) → preserves f (m ≫= k).
Proof.
  intros Hm Hk w. unfold mbind, M_bind.
  specialize (Hm w). destruct (m w) as [[a|e] w1]; simpl in *.
  - by rewrite Hk.
  - done.
Qed.

Lemma preserves_fmap {A B} (g : A → B) (m : M A) :
  preserves f m → preserves f (g <$> m).
Proof.
  intros Hm w. unfold fmap, M_fmap.
  specialize (Hm w). by destruct (m w) as [[a|e] w1].
Qed.

Lemma preserves_try_except {A} (m : M A) h :
  preserves f m → (∀ e, preserves f (h e)) → preserves f (try_except m h).
Proof.
  intros Hm Hh w. unfold try_except.
  specialize (Hm w). destruct (m w) as [[a|e] w1]; simpl in *.
  - done.
  - by rewrite Hh.
Qed.

Lemma preserves_get_or_raise {A} (g : World → Res A) :
  preserves f (get_or_raise g).
Proof. done. Qed.

(** Observations that do not depend on the trace or on the counter of
    flag reads, and not on the entries of [dir]. *)
Context (E : Env) (dir : pystr).
Hypothesis f_emit : ∀ e w, f (emit e w) = f w.
Hypothesis f_flag : ∀ w, f (count_flag_read w) = f w.
Hypothesis f_dir :
  ∀ ents w, f (set_dirs (<[dir_key E dir := ents]> (dirs w)) w) = f w.

Lemma preserves_emit e : preserves f (act (emit e)).
Proof. apply preserves_act, f_emit. Qed.

Lemma preserves_mkdir : preserves f (act (mkdir E dir)).
Proof.
  apply preserves_act. intros w. unfold mkdir.
  destruct (dirs w !! dir_key E dir); [done|apply f_dir].
Qed.

Lemma preserves_store name content :
  preserves f (act (store E dir name content)).
Proof. apply preserves_act. intros w. unfold store. apply f_dir. Qed.

Lemma preserves_write_file name content :
  preserves f (act (write_file E dir name content)).
Proof.
  apply preserves_act. intros w. unfold write_file, store.
  by rewrite f_emit, f_dir.
Qed.

Lemma preserves_compile_files html_files c failed :
  preserves f (compile_files E dir html_files c failed).
Proof.
  revert c failed. induction html_files as [|h rest IH]; intros c failed.
  - apply preserves_ret.
  - cbn [compile_files].
    apply preserves_bind; [apply preserves_emit|intros _].
    apply preserves_bind; [apply preserves_get|intros content].
    destruct (write_pdf E dir h content); [|apply IH].
    apply preserves_bind; [apply preserves_write_file|intros _]. apply IH.
Qed.

Lemma preserves_compile_html_to_pdf :
  preserves f (compile_html_to_pdf E dir).
Proof.
  unfold compile_html_to_pdf.
  destruct (negb (weasyprint_available E)); [apply preserves_ret|].
  apply preserves_bind; [apply preserves_get|intros b].
  destruct (negb b); [apply preserves_ret|].
  apply preserves_bind; [apply preserves_get|intros l].
  apply preserves_bind; [apply preserves_compile_files|intros [c failed]].
  apply preserves_ret.
Qed.

End Preserves.

Section Outside.
Context (E : Env).

Lemma outside_emit dir e w : outside E dir (emit e w) = outside E dir w.
Proof. done. Qed.

Lemma outside_flag dir w : outside E dir (count_flag_read w) = outside E dir w.
Proof. done. Qed.

Lemma outside_request dir w : outside E dir (count_request w) = outside E dir w.
Proof. done. Qed.

Lemma outside_dir dir ents w :
  outside E dir (set_dirs (<[dir_key E dir := ents]> (dirs w)) w)
  = outside E dir w.
Proof. unfold outside. simpl. by rewrite delete_insert_eq. Qed.

Lemma outside_spec dir w w' :
  outside E dir w' = outside E dir w →
  api_key_env w' = api_key_env w ∧
  ∀ d, d ≠ dir_key E dir → dirs w' !! d = dirs w !! d.
Proof.
  intros [= Hk Hd]. split; [done|].
  intros d Hne.
  by rewrite <- (lookup_delete_ne (dirs w') (dir_key E dir) d),
             <- (lookup_delete_ne (dirs w) (dir_key E dir) d), Hd.
Qed.

(** A file of another directory reads the same. *)
Lemma read_file_outside dir w w' path parent name :
  outside E dir w' = outside E dir w →
  parent_and_name (Path path) = Some (parent, name) →
  dir_key E parent ≠ dir_key E dir →
  read_file E path w' = read_file E path w.
Proof.
  intros [_ Hd]%outside_spec Hpath Hne.
  unfold read_file. rewrite Hpath. unfold entries. by rewrite Hd.
Qed.

End Outside.

(** ** compiler.py: where the PDF goes *)

Section Stored.
Context (E : Env).

Lemma compile_files_step dir f rest success_count failed_files w :
  compile_files E dir (f :: rest) success_count failed_files w
  = match write_pdf E dir f (default [] (entries E dir w !! f)) with
    | Returns pdf =>
        compile_files E dir rest (S success_count) failed_files
          (write_file E dir (stem f ++ u ".pdf") pdf (emit (EvRender dir f) w))
    | Raises _ =>
        compile_files E dir rest success_count (failed_files ++ [f])
          (emit (EvRender dir f) w)
    end.
Proof.
  cbn [compile_files]. unfold_M. unfold entries. simpl.
  by destruct (write_pdf E dir f _).
Qed.

Lemma entries_emit dir e w : entries E dir (emit e w) = entries E dir w.
Proof. done. Qed.

(** Entries that are the PDF of no page stay as they are. *)
Lemma compile_files_other dir html_files success_count failed_files w g :
  (∀ f, f ∈ html_files → g ≠ stem f ++ u ".pdf") →
  entries E dir (compile_files E dir html_files success_count failed_files w).2 !! g
  = entries E dir w !! g.
Proof.
  revert success_count failed_files w.
  induction html_files as [|f rest IH]; intros success_count failed_files w Hg;
    [done|].
  rewrite compile_files_step.
  assert (Hrest : ∀ f', f' ∈ rest → g ≠ stem f' ++ u ".pdf")
    by (intros f' Hf'; by apply Hg, list_elem_of_further).
  destruct (write_pdf E dir f _) as [pdf|msg].
  - rewrite IH by done. rewrite entries_write_file, entries_emit.
    apply lookup_insert_ne, not_eq_sym, Hg, list_elem_of_here.
  - by rewrite IH.
Qed.

(** The PDF of a page whose stem no other page shares. *)
Lemma compile_files_stored dir html_files success_count failed_files w f :
  Forall (λ f, endswith (u ".html") f = true) html_files →
  NoDup html_files →
  f ∈ html_files →
  (∀ f', f' ∈ html_files → stem f' = stem f → f' = f) →
  let w' := (compile_files E dir html_files success_count failed_files w).2 in
  match write_pdf E dir f (default [] (entries E dir w !! f)) with
  | Returns pdf => entries E dir w' !! (stem f ++ u ".pdf") = Some pdf
  | Raises _ =>
      entries E dir w' !! (stem f ++ u ".pdf")
      = entries E dir w !! (stem f ++ u ".pdf")
  end.
Proof.
  intros Hall. revert success_count failed_files w.
  induction Hall as [|f0 rest Hf0 Hall IH];
    intros success_count failed_files w Hnodup Hin Huniq; [by inversion Hin|].
  apply NoDup_cons in Hnodup as [Hnotin Hnodup].
  cbv zeta. rewrite compile_files_step.
  destruct (decide (f = f0)) as [->|Hne].
  - (* the page itself: no later page writes its PDF *)
    assert (Hlater : ∀ f', f' ∈ rest → stem f0 ++ u ".pdf" ≠ stem f' ++ u ".pdf").
    { intros f' Hf' Heq. apply app_inv_tail in Heq.
      assert (f' = f0) by (apply Huniq; [by apply list_elem_of_further|done]).
      by subst f'. }
    destruct (write_pdf E dir f0 _) as [pdf|msg].
    + rewrite compile_files_other by done.
      rewrite entries_write_file. apply lookup_insert_eq.
    + by rewrite compile_files_other.
  - (* a later page: the step for [f0] touches neither it nor its PDF *)
    assert (Hin' : f ∈ rest).
    { apply elem_of_cons in Hin as [?|?]; [done|done]. }
    assert (Hf : endswith (u ".html") f = true)
      by (by apply (proj1 (Forall_forall _ _) Hall)).
    assert (Hstem : stem f0 ++ u ".pdf" ≠ stem f ++ u ".pdf").
    { intros Heq. apply app_inv_tail in Heq. apply Hne. symmetry.
      apply Huniq; [apply list_elem_of_here|done]. }
    assert (Huniq' : ∀ f', f' ∈ rest → stem f' = stem f → f' = f)
      by (intros f' Hf'; by apply Huniq, list_elem_of_further).
    destruct (write_pdf E dir f0 _) as [pdf0|msg0].
    + set (w1 := write_file E dir (stem f0 ++ u ".pdf") pdf0 (emit (EvRender dir f0) w)).
      assert (H1 : entries E dir w1 !! f = entries E dir w !! f).
      { unfold w1. rewrite entries_write_file, entries_emit.
        apply lookup_insert_ne, not_eq_sym. by apply html_is_not_pdf. }
      assert (H2 : entries E dir w1 !! (stem f ++ u ".pdf")
                   = entries E dir w !! (stem f ++ u ".pdf")).
      { unfold w1. rewrite entries_write_file, entries_emit.
        by apply lookup_insert_ne. }
      specialize (IH (S success_count) failed_files w1 Hnodup Hin' Huniq').
      cbv zeta in IH. rewrite H1, H2 in IH. exact IH.
    + exact (IH success_count (failed_files ++ [f0])
               (emit (EvRender dir f0) w) Hnodup Hin' Huniq').
Qed.

Lemma NoDup_glob_suffix suffix dir w : NoDup (glob_suffix E suffix dir w).
Proof.
  unfold glob_suffix. apply NoDup_filter.
  apply (NoDup_fst_map_to_list (entries E dir w)).
Qed.

Lemma elem_of_glob_suffix_iff suffix dir w f :
  f ∈ glob_suffix E suffix dir w
  ↔ endswith suffix f = true ∧ is_Some (entries E dir w !! f).
Proof.
  unfold glob_suffix, entries. rewrite list_elem_of_filter.
  split; intros [Hs Hf]; (split; [done|]).
  - apply list_elem_of_fmap in Hf as ([k v] & -> & Hkv).
    apply elem_of_map_to_list in Hkv. by exists v.
  - destruct Hf as [v Hv]. apply list_elem_of_fmap. exists (f, v).
    split; [done|]. by apply elem_of_map_to_list.
Qed.

Lemma compile_html_to_pdf_world source_dir w :
  weasyprint_available E = true → dir_exists E source_dir w = true →
  (compile_html_to_pdf E source_dir w).2
  = (compile_files E source_dir (glob_suffix E (u ".html") source_dir w) O [] w).2.
Proof.
  intros Havail Hdir. unfold compile_html_to_pdf. rewrite Havail.
  unfold_M. simpl. rewrite Hdir. simpl.
  by destruct (compile_files E source_dir _ O [] w) as [[[c failed]|e] w'].
Qed.

(** X14: Where the PDF of a page is stored.  With WeasyPrint available,
    for an entry [f] of the source directory whose name ends in [.html] and
    whose stem no other such entry shares: when WeasyPrint renders [f], the
    entry named by the stem of [f] and [.pdf] holds the rendered bytes
    afterwards, replacing what was there; when it fails on [f], that entry
    is as it was before.  Failures of other pages do not matter. *)
Theorem compile_html_to_pdf_stores source_dir w f content :
  weasyprint_available E = true →
  endswith (u ".html") f = true →
  entries E source_dir w !! f = Some content →
  (∀ f', endswith (u ".html") f' = true →
         is_Some (entries E source_dir w !! f') → stem f' = stem f → f' = f) →
  let w' := (compile_html_to_pdf E source_dir w).2 in
  let pdf_file := stem f ++ u ".pdf" in
  match write_pdf E source_dir f content with
  | Returns pdf => entries E source_dir w' !! pdf_file = Some pdf
  | Raises _ =>
      entries E source_dir w' !! pdf_file = entries E source_dir w !! pdf_file
  end.
Proof.
  intros Havail Hf Hcontent Huniq w' pdf_file.
  assert (Hdir : dir_exists E source_dir w = true).
  { unfold dir_exists. apply bool_decide_eq_true.
    unfold entries in Hcontent.
    destruct (dirs w !! dir_key E source_dir); [done|].
    simpl in Hcontent. by rewrite lookup_empty in Hcontent. }
  unfold w'. rewrite compile_html_to_pdf_world by done.
  pose proof (compile_files_stored source_dir
                (glob_suffix E (u ".html") source_dir w) O [] w f) as H.
  cbv zeta in H. rewrite Hcontent in H. simpl in H. apply H.
  - apply Forall_forall. intros g. apply elem_of_glob_suffix.
  - apply NoDup_glob_suffix.
  - apply elem_of_glob_suffix_iff. by split.
  - intros f' Hf'. apply elem_of_glob_suffix_iff in Hf' as [? ?].
    by apply Huniq.
Qed.

(** X15: What rendering leaves alone.  [compile_html_to_pdf] changes
    neither the environment variable nor another directory, and inside
    the source directory only entries named like the PDF of one of its
    [.html] entries: every other entry, each [.html] entry among them, is
    as before.  So a file reads as before under every path, unless it is
    an entry of the source directory whose name ends in [.pdf]. *)
Theorem compile_html_to_pdf_frame source_dir w :
  let w' := (compile_html_to_pdf E source_dir w).2 in
  api_key_env w' = api_key_env w ∧
  (∀ d, d ≠ dir_key E source_dir → dirs w' !! d = dirs w !! d) ∧
  (∀ g, (∀ f, endswith (u ".html") f = true →
              is_Some (entries E source_dir w !! f) → g ≠ stem f ++ u ".pdf") →
        entries E source_dir w' !! g = entries E source_dir w !! g) ∧
  (∀ f, endswith (u ".html") f = true →
        entries E source_dir w' !! f = entries E source_dir w !! f) ∧
  (∀ path,
     (∀ parent name, parent_and_name (Path path) = Some (parent, name) →
        dir_key E parent = dir_key E source_dir →
        endswith (u ".pdf") name = false) →
     read_file E path w' = read_file E path w).
Proof.
  intros w'.
  pose proof (preserves_compile_html_to_pdf (outside E source_dir) E source_dir
                (outside_emit E source_dir) (outside_dir E source_dir) w) as Hout.
  pose proof Hout as Hout'.
  apply outside_spec in Hout as (Hkey & Hdirs).
  assert (Hother : ∀ g,
            (∀ f, endswith (u ".html") f = true →
                  is_Some (entries E source_dir w !! f) → g ≠ stem f ++ u ".pdf") →
            entries E source_dir w' !! g = entries E source_dir w !! g).
  { intros g Hg. unfold w'.
    destruct (weasyprint_available E) eqn:Havail.
    2:{ unfold compile_html_to_pdf. by rewrite Havail. }
    destruct (dir_exists E source_dir w) eqn:Hdir.
    2:{ unfold compile_html_to_pdf. rewrite Havail. unfold_M. simpl.
        by rewrite Hdir. }
    rewrite compile_html_to_pdf_world by done.
    apply compile_files_other. intros f Hf.
    apply elem_of_glob_suffix_iff in Hf as [? ?]. by apply Hg. }
  split_and!; try done.
  - intros f Hf. apply Hother. intros f' _ _. by apply html_is_not_pdf.
  - intros path Hpath. unfold read_file.
    destruct (parent_and_name (Path path)) as [[parent name]|] eqn:Hpn; [|done].
    destruct (decide (dir_key E parent = dir_key E source_dir)) as [Heq|Hne].
    + specialize (Hpath parent name eq_refl Heq).
      assert (Hsame : ∀ w0, entries E parent w0 = entries E source_dir w0)
        by (intros w0; unfold entries; by rewrite Heq).
      rewrite !Hsame. apply Hother. intros f _ _ ->.
      by rewrite endswith_app in Hpath.
    + unfold entries. by rewrite Hdirs.
Qed.

End Stored.

Lemma compile_html_to_pdf_stores_witness :
  entries Examples.picky_env (u "output")
    (compile_html_to_pdf Examples.picky_env (u "output") Examples.pages_world).2
  !! (stem (u "a.html") ++ u ".pdf") = Some (u "%PDF").
Proof.
  assert (Havail : weasyprint_available Examples.picky_env = true) by reflexivity.
  assert (Hf : endswith (u ".html") (u "a.html") = true) by reflexivity.
  assert (Hcontent : entries Examples.picky_env (u "output") Examples.pages_world
                       !! u "a.html"
                     = Some (u "<p>ok</p>")) by (vm_compute; reflexivity).
  assert (Huniq : ∀ f', endswith (u ".html") f' = true →
            is_Some (entries Examples.picky_env (u "output") Examples.pages_world
                       !! f') →
            stem f' = stem (u "a.html") → f' = u "a.html").
  { intros f' _ Hsome Hstem.
    assert (Hin : f' ∈ [u "a.html"; u "b.html"]).
    { destruct Hsome as [v Hv].
      change (entries Examples.picky_env (u "output") Examples.pages_world)
        with ({[ u "a.html" := u "<p>ok</p>"; u "b.html" := u "<broken" ]}
                : gmap pystr pystr) in Hv.
      apply lookup_insert_Some in Hv as [[<- _]|[_ Hv]]; [apply list_elem_of_here|].
      apply lookup_singleton_Some in Hv as [<- _].
      apply list_elem_of_further, list_elem_of_here. }
    apply elem_of_cons in Hin as [->|Hin]; [done|].
    apply list_elem_of_singleton in Hin as ->. by vm_compute in Hstem. }
  exact (compile_html_to_pdf_stores Examples.picky_env (u "output")
           Examples.pages_world (u "a.html") (u "<p>ok</p>")
           Havail Hf Hcontent Huniq).
Defined.

(** ** app_ui.py: what a run leaves alone *)

Ltac frame_step :=
  first
    [ assumption
    | apply preserves_ret
    | apply preserves_raise
    | apply preserves_get
    | apply preserves_get_or_raise
    | apply preserves_emit; assumption
    | apply preserves_mkdir; assumption
    | apply preserves_store; assumption
    | apply preserves_write_file; assumption
    | apply preserves_fmap
    | apply preserves_bind; [|intros ?]
    | apply preserves_try_except; [|intros ?]
    | match goal with
      | |- preserves _ (match ?x with _ => _ end) => destruct x
      end ].

Ltac frame := repeat frame_step.

Section WorkerFrame.
Context {X : Type} (f : World → X).
Context (E : Env) (self : Worker.PipelineWorker).
Hypothesis f_emit : ∀ e w, f (emit e w) = f w.
Hypothesis f_flag : ∀ w, f (count_flag_read w) = f w.
Hypothesis f_dir :
  ∀ ents w,
    f (set_dirs (<[dir_key E (Worker.output_dir self) := ents]> (dirs w)) w) = f w.

Import Worker.

Lemma preserves_signal s : preserves f (signal s).
Proof. unfold signal. frame. Qed.

Lemma preserves_log l : preserves f (log l).
Proof. apply preserves_signal. Qed.

Lemma preserves_emit_progress c : preserves f (emit_progress self c).
Proof. apply preserves_signal. Qed.

Lemma preserves_is_running : preserves f (is_running E).
Proof. intros w. apply f_flag. Qed.

Lemma preserves_cooldown n : preserves f (cooldown E n).
Proof.
  induction n as [|n IH]; simpl; [frame|].
  apply preserves_bind; [apply preserves_is_running|intros r].
  destruct r; frame.
Qed.

Lemma preserves_acquire_logo json_file :
  preserves f (acquire_logo E self json_file).
Proof.
  unfold acquire_logo.
  apply preserves_bind; [frame|intros logo_exists].
  destruct logo_exists; [apply preserves_log|].
  apply preserves_bind; [apply preserves_log|intros _].
  apply preserves_bind; [frame|intros _].
  destruct (logo_search E _) as [[[|c url]|]|msg]; try apply preserves_log;
    [|frame].
  apply preserves_bind; [frame|intros _].
  destruct (logo_download E _ _ _) as [[bytes|]|msg]; try apply preserves_log;
    [|frame].
  apply preserves_bind; [|intros _; apply preserves_log].
  by apply preserves_store.
Qed.

Lemma preserves_phase2 json_files c : preserves f (phase2 E self json_files c).
Proof.
  revert c. induction json_files as [|j rest IH]; intros c; simpl; [frame|].
  apply preserves_bind; [apply preserves_is_running|intros r].
  destruct (negb r); [frame|].
  apply preserves_bind; [apply preserves_acquire_logo|intros _].
  apply preserves_bind; [apply preserves_emit_progress|intros _].
  apply IH.
Qed.

Lemma preserves_build_html html_gen json_file :
  preserves f (build_html E self html_gen json_file).
Proof.
  unfold build_html.
  apply preserves_bind; [frame|intros text].
  destruct (text ≫= json_loads E) as [[]|]; frame.
Qed.

Lemma preserves_phase3 html_gen json_files c :
  preserves f (phase3 E self html_gen json_files c).
Proof.
  revert c. induction json_files as [|j rest IH]; intros c; simpl; [frame|].
  apply preserves_bind; [apply preserves_is_running|intros r].
  destruct (negb r); [frame|].
  apply preserves_bind.
  { apply preserves_try_except; [apply preserves_build_html|].
    intros _. apply preserves_log. }
  intros _.
  apply preserves_bind; [apply preserves_emit_progress|intros _].
  apply IH.
Qed.

Lemma preserves_acquire_build_render html_gen c :
  preserves f (acquire_build_render E self html_gen c).
Proof.
  unfold acquire_build_render.
  apply preserves_bind; [apply preserves_log|intros _].
  apply preserves_bind; [frame|intros json_files].
  apply preserves_bind; [apply preserves_phase2|intros s2].
  destruct s2 as [c2|]; [|frame].
  apply preserves_bind; [apply preserves_log|intros _].
  apply preserves_bind; [apply preserves_phase3|intros s3].
  destruct s3 as [c3|]; [|frame].
  apply preserves_bind; [apply preserves_log|intros _].
  apply preserves_bind;
    [by apply (preserves_compile_html_to_pdf f E (output_dir self))|intros ok].
  apply preserves_bind; [apply preserves_log|intros _].
  apply preserves_bind; apply preserves_signal || (intros _; apply preserves_signal).
Qed.

(** Observations that do not depend on the number of requests either. *)
Hypothesis f_req : ∀ w, f (count_request w) = f w.

Lemma preserves_post g url text : preserves f (post E g url text).
Proof. intros w. unfold post. simpl. by rewrite f_req, f_emit. Qed.

Lemma preserves_try_models g ms : preserves f (try_models E g ms).
Proof.
  induction ms as [|m ms IH]; simpl; [frame|].
  apply preserves_bind; [apply preserves_post|intros r].
  destruct r as [status body|]; [|done].
  destruct (status =? 200)%Z; [frame|done].
Qed.

Lemma preserves_attempts n g url prompt :
  preserves f (attempts E n g url prompt).
Proof.
  induction n as [|n IH]; simpl; [frame|].
  apply preserves_bind; [apply preserves_post|intros r].
  destruct r as [status body|]; [|frame].
  destruct (status =? 200)%Z; [frame|].
  destruct (status =? 429)%Z; [|frame].
  apply preserves_bind; [by apply preserves_emit|intros _]. apply IH.
Qed.

Lemma preserves_query_gemini g prompt : preserves f (query_gemini E g prompt).
Proof.
  apply query_gemini_either.
  - intros m. apply preserves_bind; [apply preserves_attempts|intros r]. frame.
  - apply preserves_bind; [apply preserves_try_models|intros [url g']].
    destruct url; [|frame].
    apply preserves_bind; [apply preserves_attempts|intros r]. frame.
Qed.

Lemma preserves_generate_company_info g name fields :
  preserves f (generate_company_info E g name fields).
Proof.
  unfold generate_company_info.
  apply preserves_bind; [apply preserves_query_gemini|intros [result g']].
  destruct (truthy result); [|frame]. destruct result; frame.
Qed.

Lemma preserves_process_company g name fields :
  preserves f (process_company E g name fields (output_dir self)).
Proof.
  unfold process_company.
  apply preserves_bind; [by apply preserves_mkdir|intros _].
  apply preserves_bind; [apply preserves_generate_company_info|intros [info g']].
  destruct (truthy info); [|frame].
  apply preserves_bind; [by apply preserves_write_file|intros _]. frame.
Qed.

Lemma preserves_phase1 g fields todo c :
  preserves f (phase1 E self g fields todo c).
Proof.
  revert g c. induction todo as [|company rest IH]; intros g c; cbn [phase1];
    [frame|].
  apply preserves_bind; [apply preserves_is_running|intros r].
  destruct (negb r); [frame|].
  apply preserves_bind; [apply preserves_log|intros _].
  apply preserves_bind; [apply preserves_process_company|intros [[ok path] g']].
  apply preserves_bind; [apply preserves_log|intros _].
  apply preserves_bind; [apply preserves_emit_progress|intros _].
  apply preserves_bind.
  { destruct (bool_decide (rest ≠ [])); [|frame].
    apply preserves_bind; [apply preserves_log|intros _].
    apply preserves_cooldown. }
  intros continue. destruct continue; [apply IH|frame].
Qed.

Lemma preserves_init key : preserves f (init key).
Proof.
  intros w. unfold init.
  destruct key as [[|c k]|]; destruct (api_key_env w) as [[|c' k']|]; done.
Qed.

Lemma preserves_analyse_and_generate :
  preserves f (analyse_and_generate E self).
Proof.
  unfold analyse_and_generate.
  apply preserves_bind; [by apply preserves_mkdir|intros _].
  apply preserves_bind; [apply preserves_log|intros _].
  apply preserves_bind; [frame|intros template_exists].
  destruct (negb template_exists).
  { apply preserves_bind; [apply preserves_signal|intros _]. frame. }
  apply preserves_bind; [frame|intros fields].
  apply preserves_bind; [apply preserves_log|intros _].
  apply preserves_bind; [apply preserves_log|intros _].
  apply preserves_bind.
  { apply preserves_try_except.
    - apply preserves_fmap, preserves_init.
    - intros e. apply preserves_bind; [apply preserves_signal|intros _]. frame. }
  intros [g|]; [|frame].
  apply preserves_bind; [apply preserves_phase1|intros s1].
  destruct s1; frame.
Qed.

Lemma preserves_run : preserves f (run E self).
Proof.
  unfold run, run_body.
  apply preserves_try_except; [|intros e; apply preserves_signal].
  apply preserves_bind; [apply preserves_analyse_and_generate|intros reached].
  destruct reached as [[g c]|]; [|frame].
  apply preserves_acquire_build_render.
Qed.

End WorkerFrame.

Section Confined.
Context (E : Env) (self : Worker.PipelineWorker).

(** X16: A run of the worker touches the output directory and nothing
    else: the environment variable [GEMINI_API_KEY] and every other
    directory, with the files in it, are after the run as they were before,
    however the run ends.  So a file that does not lie in the output
    directory, a template for one, reads after the run as it did before. *)
Theorem run_confined w :
  let w' := (Worker.run E self w).2 in
  api_key_env w' = api_key_env w ∧
  (∀ d, d ≠ dir_key E (Worker.output_dir self) → dirs w' !! d = dirs w !! d) ∧
  (∀ path parent name,
     parent_and_name (Path path) = Some (parent, name) →
     dir_key E parent ≠ dir_key E (Worker.output_dir self) →
     read_file E path w' = read_file E path w).
Proof.
  intros w'.
  assert (Hout : outside E (Worker.output_dir self) w'
                 = outside E (Worker.output_dir self) w).
  { apply (preserves_run (outside E (Worker.output_dir self)) E self).
    - apply outside_emit.
    - apply outside_flag.
    - apply outside_dir.
    - apply outside_request. }
  destruct (outside_spec E _ _ _ Hout) as [Hkey Hdirs].
  split_and!; [done|done|].
  intros path parent name Hpath Hne.
  by apply (read_file_outside E (Worker.output_dir self) w w' path parent name).
Qed.

End Confined.

(** A template that lies in the output directory is not safe: with the
    output folder [templates] and the template [Nokia_profile.html], the
    page built for Nokia replaces the template. *)
Example run_overwrites_template :
  let worker := Worker.new_worker Examples.nokia_env (u "k") [u "Nokia"]
                  (u "templates") (u "Nokia_profile.html") in
  let w := Examples.with_file (u "templates/Nokia_profile.html")
             (u "<h1>${name}</h1>") Examples.empty_world in
  read_file Examples.nokia_env (u "templates/Nokia_profile.html") w
    = Some (u "<h1>${name}</h1>") ∧
  read_file Examples.nokia_env (u "templates/Nokia_profile.html")
    (Worker.run Examples.nokia_env worker w).2
    = Some (u "<h1>Nokia</h1>").
Proof. split; vm_compute; reflexivity. Qed.

(** ** app_ui.py: how many requests a run sends *)

Section Wp.

Lemma wp_ret {A} (a : A) (Q : Res A → World → Prop) w :
  Q (Ok a) w → wp (mret a) Q w.
Proof. done. Qed.

Lemma wp_bind {A B} (m : M A) (k : A → M B) (Q : Res B → World → Prop) w :
  wp m (λ r w1, match r with
                | Ok a => wp (k a) Q w1
                | Exc e => Q (Exc e) w1
                end) w →
  wp (m ≫= k) Q w.
Proof. unfold wp, mbind, M_bind. by destruct (m w) as [[a|e] w1]. Qed.

Lemma wp_try_except {A} (m : M A) h (Q : Res A → World → Prop) w :
  wp m (λ r w1, match r with
                | Ok a => Q (Ok a) w1
                | Exc e => wp (h e) Q w1
                end) w →
  wp (try_except m h) Q w.
Proof. unfold wp, try_except. by destruct (m w) as [[a|e] w1]. Qed.

Lemma wp_mono {A} (m : M A) (Q Q' : Res A → World → Prop) w :
  wp m Q w → (∀ r w', Q r w' → Q' r w') → wp m Q' w.
Proof. unfold wp. auto. Qed.

Lemma wp_preserves {X A} (f : World → X) (m : M A)
    (Q : Res A → World → Prop) w :
  preserves f m → (∀ r w', f w' = f w → Q r w') → wp m Q w.
Proof. intros Hm HQ. apply HQ, Hm. Qed.

End Wp.

Section Requests.
Context (E : Env) (self : Worker.PipelineWorker).

Import Worker.

Lemma requests_emit e w : requests_sent (emit e w) = requests_sent w.
Proof. done. Qed.

Lemma requests_flag w : requests_sent (count_flag_read w) = requests_sent w.
Proof. done. Qed.

Lemma requests_dir key ents w :
  requests_sent (set_dirs (<[key := ents]> (dirs w)) w) = requests_sent w.
Proof. done. Qed.

(** The world after [generate_company_info] is the world after its
    query, and the generator it returns is the one the query returns. *)
Lemma generate_company_info_world g name fields w :
  ∃ r g' w1,
    query_gemini E g (prompt_for name fields) w = (Ok (r, g'), w1) ∧
    (generate_company_info E g name fields w).2 = w1 ∧
    ∀ info g2, (generate_company_info E g name fields w).1 = Ok (info, g2) →
               g2 = g'.
Proof.
  destruct (query_gemini_outcome E g (prompt_for name fields) w)
    as (r & g' & w1 & Hq & _).
  exists r, g', w1. split; [done|].
  unfold generate_company_info. unfold_M. rewrite Hq.
  destruct (truthy r); [destruct r|]; cbn [fst snd];
    (split; [done|]); intros info g2 Heq; by inversion Heq.
Qed.

(** One company costs at most three requests and the probe that is still
    owed; what is owed afterwards counts as spent. *)
Lemma process_company_cost g name fields dir w :
  length (models g) = 1%nat ∧ [] ∉ models g →
  wp (process_company E g name fields dir)
     (λ r w', (requests_sent w' ≤ requests_sent w + 3 + probes_owed g)%nat ∧
              ∀ x g', r = Ok (x, g') →
                (length (models g') = 1%nat ∧ [] ∉ models g') ∧
                (requests_sent w' + probes_owed g'
                 ≤ requests_sent w + 3 + probes_owed g)%nat) w.
Proof.
  intros [Hone Hne].
  destruct (generate_company_info_world g name fields (mkdir E dir w))
    as (r & g' & w1 & Hq & Hw1 & Hg').
  destruct (query_gemini_outcome E g (prompt_for name fields) (mkdir E dir w))
    as (r0 & g0 & w0 & Hq0 & Hreq & _ & Hmodels & Hknown & Hfresh).
  rewrite Hq in Hq0. injection Hq0 as <- <- <-.
  assert (Hmk : requests_sent (mkdir E dir w) = requests_sent w).
  { unfold mkdir. by destruct (dirs w !! dir_key E dir). }
  rewrite Hmk, Hone in *.
  assert (Hcost : (requests_sent w1 + probes_owed g'
                   ≤ requests_sent w + 3 + probes_owed g)%nat).
  { unfold probes_owed. destruct (working_model g) as [[|c m]|] eqn:Hwm.
    - destruct (Hfresh ltac:(by right)) as [(-> & _ & ->)|(m & Hm & ->)].
      + rewrite Hwm. lia.
      + simpl. destruct m; [done|lia].
    - destruct (Hknown (c :: m) eq_refl ltac:(done)) as [-> ?]. rewrite Hwm. lia.
    - destruct (Hfresh ltac:(by left)) as [(-> & _ & ->)|(m & Hm & ->)].
      + rewrite Hwm. lia.
      + simpl. destruct m; [done|lia]. }
  assert (Hmodels' : length (models g') = 1%nat ∧ [] ∉ models g')
    by (by rewrite Hmodels).
  assert (Hle : (requests_sent w1 ≤ requests_sent w + 3 + probes_owed g)%nat)
    by lia.
  unfold wp, process_company. unfold_M.
  destruct (generate_company_info E g name fields (mkdir E dir w))
    as [[[info g2]|e] w1'] eqn:Hgen; cbn [fst snd] in *; subst w1'.
  - rewrite (Hg' info g2 eq_refl).
    destruct (truthy info); cbn [fst snd];
      (split; [exact Hle|]); intros x g'' [= <- <-]; by split.
  - split; [exact Hle|]. intros x g'' [=].
Qed.

Lemma phase1_requests g fields todo c w :
  length (models g) = 1%nat ∧ [] ∉ models g →
  (requests_sent (phase1 E self g fields todo c w).2
   ≤ requests_sent w + 3 * length todo + probes_owed g)%nat.
Proof.
  revert g c w. induction todo as [|company rest IH]; intros g c w Hone.
  { simpl. lia. }
  set (bound := (requests_sent w + 3 * length (company :: rest) + probes_owed g)%nat).
  change (wp (phase1 E self g fields (company :: rest) c)
             (λ _ w', (requests_sent w' ≤ bound)%nat) w).
  assert (Hb : (requests_sent w + 3 + probes_owed g + 3 * length rest ≤ bound)%nat)
    by (unfold bound; simpl; lia).
  clearbody bound. cbn [phase1].
  apply wp_bind, (wp_preserves requests_sent);
    [apply preserves_is_running, requests_flag|].
  intros [r|e] w1 H1; [|lia].
  destruct r; cbn [negb]; [|apply wp_ret; lia].
  apply wp_bind, (wp_preserves requests_sent);
    [apply preserves_log, requests_emit|].
  intros [[]|e] w2 H2; [|lia].
  apply wp_bind.
  eapply wp_mono; [apply (process_company_cost g company fields _ w2 Hone)|].
  intros [[[ok path] g']|e] w3 [Hcost Hnext]; [|lia].
  destruct (Hnext _ _ eq_refl) as [Hone' Hcost'].
  apply wp_bind, (wp_preserves requests_sent);
    [apply preserves_log, requests_emit|].
  intros [[]|e] w4 H4; [|lia].
  apply wp_bind, (wp_preserves requests_sent);
    [apply preserves_emit_progress, requests_emit|].
  intros [[]|e] w5 H5; [|lia].
  apply wp_bind, (wp_preserves requests_sent).
  { destruct (bool_decide (rest ≠ [])); [|apply preserves_ret].
    apply preserves_bind; [apply preserves_log, requests_emit|intros _].
    apply preserves_cooldown; [apply requests_emit|apply requests_flag]. }
  intros [continue|e] w6 H6; [|lia].
  destruct continue; [|apply wp_ret; lia].
  unfold wp. specialize (IH g' (c + 1)%Z w6 Hone'). lia.
Qed.

Lemma analyse_and_generate_requests w :
  (requests_sent (analyse_and_generate E self w).2
   ≤ requests_sent w + 3 * length (companies self) + 1)%nat.
Proof.
  set (bound := (requests_sent w + 3 * length (companies self) + 1)%nat).
  change (wp (analyse_and_generate E self)
             (λ _ w', (requests_sent w' ≤ bound)%nat) w).
  assert (Hb : (requests_sent w + 3 * length (companies self) + 1 ≤ bound)%nat)
    by (unfold bound; lia).
  clearbody bound. unfold analyse_and_generate.
  apply wp_bind, (wp_preserves requests_sent);
    [apply preserves_mkdir, requests_dir|].
  intros [[]|e] w1 H1; [|lia].
  apply wp_bind, (wp_preserves requests_sent);
    [apply preserves_log, requests_emit|].
  intros [[]|e] w2 H2; [|lia].
  apply wp_bind, (wp_preserves requests_sent); [apply preserves_get|].
  intros [template_exists|e] w3 H3; [|lia].
  destruct (negb template_exists).
  { apply (wp_preserves requests_sent); [|intros; lia].
    apply preserves_bind; [apply preserves_signal, requests_emit|intros _].
    apply preserves_ret. }
  apply wp_bind, (wp_preserves requests_sent); [apply preserves_get|].
  intros [required_fields|e] w4 H4; [|lia].
  apply wp_bind, (wp_preserves requests_sent);
    [apply preserves_log, requests_emit|].
  intros [[]|e] w5 H5; [|lia].
  apply wp_bind, (wp_preserves requests_sent);
    [apply preserves_log, requests_emit|].
  intros [[]|e] w6 H6; [|lia].
  apply wp_bind.
  assert (Hinit : wp (try_except (Some <$> init (Some (worker_api_key self)))
                        (λ e, signal (SigError (exn_text e));; mret None))
                     (λ r w', requests_sent w' = requests_sent w6 ∧
                              ∀ g, r = Ok (Some g) →
                                   (length (models g) = 1%nat ∧
                                    [] ∉ models g) ∧
                                   working_model g = None) w6).
  { unfold wp, try_except, init. unfold_M.
    destruct (worker_api_key self) as [|k0 k]; destruct (api_key_env w6) as [[|k0' k']|];
      cbn; (split; [done|intros g [= <-] || intros g [=]; try done]);
      (split; [split; [done|]|done]);
      by intros ?%list_elem_of_singleton. }
  eapply wp_mono; [exact Hinit|]. clear Hinit.
  intros [[g|]|e] w7 [H7 Hg]; [|apply wp_ret; lia|lia].
  destruct (Hg g eq_refl) as [Hone Hnone].
  apply wp_bind. unfold wp at 1.
  pose proof (phase1_requests g required_fields (companies self) 0%Z w7 Hone) as Hp.
  unfold probes_owed in Hp. rewrite Hnone in Hp.
  destruct (phase1 E self g required_fields (companies self) 0 w7) as [[[c|]|e] w8];
    cbn [fst snd] in *; try apply wp_ret; lia.
Qed.

(** X17: A run sends at most [3 * n + 1] requests for [n] companies: one
    probe, sent again for the next company only as long as it fails, and
    at most three requests per company.  Phases 2 to 4 send none: the
    requests of the logo search are not counted here. *)
Theorem run_request_bound w :
  (requests_sent (run E self w).2
   ≤ requests_sent w + 3 * length (companies self) + 1)%nat.
Proof.
  set (bound := (requests_sent w + 3 * length (companies self) + 1)%nat).
  change (wp (run E self) (λ _ w', (requests_sent w' ≤ bound)%nat) w).
  pose proof (analyse_and_generate_requests w) as Ha. fold bound in Ha.
  clearbody bound. unfold run, run_body.
  apply wp_try_except, wp_bind. unfold wp at 1.
  destruct (analyse_and_generate E self w) as [[[[html_gen c]|]|e] w1];
    cbn [fst snd] in *.
  - apply (wp_preserves requests_sent).
    + apply preserves_acquire_build_render;
        [apply requests_emit|apply requests_flag|apply requests_dir].
    + intros [[]|e] w2 H2; [lia|].
      apply (wp_preserves requests_sent);
        [apply preserves_signal, requests_emit|intros; lia].
  - apply wp_ret. lia.
  - apply (wp_preserves requests_sent);
      [apply preserves_signal, requests_emit|intros; lia].
Qed.

End Requests.

(** ** app_ui.py: how a run ends *)

Section Outcome.
Context (E : Env) (self : Worker.PipelineWorker).

Import Worker.

Lemma continues_refl P w : continues P (trace w) w.
Proof. exists []. by rewrite app_nil_r. Qed.

Lemma continues_trans P t0 w1 w2 :
  continues P t0 w1 → continues P (trace w1) w2 → continues P t0 w2.
Proof.
  intros (evs1 & H1 & Hall1) (evs2 & H2 & Hall2).
  exists (evs1 ++ evs2). split.
  - by rewrite H2, H1, app_assoc.
  - by apply Forall_app_2.
Qed.

Lemma continues_emit (P : Event → Prop) t0 e w :
  P e → continues P t0 w → continues P t0 (emit e w).
Proof.
  intros He Hw. apply (continues_trans P t0 w); [done|].
  exists [e]. split; [done|by constructor].
Qed.

(** A step whose events are all quiet. *)
Lemma wp_quiet {A} (m : M A) (Q : Res A → World → Prop) t0 w :
  only quiet m → continues quiet t0 w →
  (∀ r w', continues quiet t0 w' → Q r w') → wp m Q w.
Proof.
  intros Hm Hw HQ. apply HQ. apply (continues_trans quiet t0 w); [done|].
  apply Hm.
Qed.

Lemma plain_quiet i e : (i < 4)%nat → plain i e → quiet e.
Proof.
  intros Hi [He _]. destruct e as [| | | | | |[]]; try done; simpl in He.
  injection He as <-. lia.
Qed.

Lemma only_quiet_plain i {A} (m : M A) :
  (i < 4)%nat → only (plain i) m → only quiet m.
Proof. intros Hi. apply only_mono. intros e. by apply plain_quiet. Qed.

Lemma only_quiet_log l : only quiet (log l).
Proof. by apply only_emit. Qed.

Lemma only_quiet_progress v : only quiet (signal (SigProgress v)).
Proof. by apply only_emit. Qed.

Lemma only_quiet_compile_files dir html_files c failed :
  only quiet (compile_files E dir html_files c failed).
Proof.
  revert c failed. induction html_files as [|f rest IH]; intros c failed; simpl.
  { apply only_ret. }
  apply only_bind; [by apply only_emit|]. intros _.
  apply only_bind; [apply only_get|]. intros content.
  destruct (write_pdf E dir f content); [|apply IH].
  apply only_bind; [|intros; apply IH].
  intros w. exists [EvWrite dir (stem f ++ u ".pdf")].
  split; [done|]. by constructor.
Qed.

Lemma only_quiet_compile_html_to_pdf dir :
  only quiet (compile_html_to_pdf E dir).
Proof.
  unfold compile_html_to_pdf.
  destruct (negb (weasyprint_available E)); [apply only_ret|].
  apply only_bind; [apply only_get|]. intros b.
  destruct (negb b); [apply only_ret|].
  apply only_bind; [apply only_get|]. intros l.
  apply only_bind; [apply only_quiet_compile_files|]. intros [c failed].
  apply only_ret.
Qed.

Lemma wp_is_running (Q : Res bool → World → Prop) w :
  Q (Ok (running_at E (flag_reads w))) (count_flag_read w) →
  wp (is_running E) Q w.
Proof. done. Qed.

Lemma continues_flag P t0 w :
  continues P t0 w → continues P t0 (count_flag_read w).
Proof. done. Qed.

(** The cooldown returns without an exception; it is left early only
    when the worker is stopped. *)
Lemma cooldown_outcome n t0 w :
  continues quiet t0 w →
  wp (cooldown E n)
     (λ r w', continues quiet t0 w' ∧ (∃ b, r = Ok b) ∧
              (r = Ok false → stopped E)) w.
Proof.
  revert w. induction n as [|n IH]; intros w Hw.
  { apply wp_ret. split_and!; [done|by eexists|done]. }
  cbn [cooldown]. apply wp_bind, wp_is_running.
  destruct (running_at E (flag_reads w)) eqn:Hr.
  - apply wp_bind. unfold wp at 1. cbn [act fst snd].
    apply IH. by apply continues_emit, continues_flag.
  - apply wp_ret. split_and!; [by apply continues_flag|by eexists|].
    intros _. by exists (flag_reads w).
Qed.

(** Phases 1 to 3 emit neither [finished] nor [error]; a phase is left
    before its end only when the worker is stopped. *)
Lemma phase1_outcome g fields todo c t0 w :
  continues quiet t0 w →
  wp (phase1 E self g fields todo c)
     (λ r w', continues quiet t0 w' ∧ (r = Ok None → stopped E)) w.
Proof.
  revert g c w. induction todo as [|company rest IH]; intros g c w Hw.
  { apply wp_ret. by split. }
  cbn [phase1]. apply wp_bind, wp_is_running.
  destruct (running_at E (flag_reads w)) eqn:Hr; cbn [negb].
  2:{ apply wp_ret. split; [by apply continues_flag|].
      intros _. by exists (flag_reads w). }
  apply wp_bind, (wp_quiet _ _ t0);
    [apply only_quiet_log|by apply continues_flag|].
  intros [[]|e] w1 H1; [|by split].
  apply wp_bind, (wp_quiet _ _ t0);
    [apply (only_quiet_plain 1); [lia|apply only_process_company]|done|].
  intros [[[ok path] g']|e] w2 H2; [|by split].
  apply wp_bind, (wp_quiet _ _ t0); [apply only_quiet_log|done|].
  intros [[]|e] w3 H3; [|by split].
  apply wp_bind, (wp_quiet _ _ t0); [apply only_quiet_progress|done|].
  intros [[]|e] w4 H4; [|by split].
  apply wp_bind.
  assert (Hcool : wp (if bool_decide (rest ≠ [])
                      then log LCooldown;; cooldown E 10 else mret true)
                     (λ r w', continues quiet t0 w' ∧ (∃ b, r = Ok b) ∧
                              (r = Ok false → stopped E)) w4).
  { destruct (bool_decide (rest ≠ [])).
    - apply wp_bind. unfold wp at 1. cbn [log signal act fst snd].
      apply cooldown_outcome. by apply continues_emit.
    - apply wp_ret. split_and!; [done|by eexists|done]. }
  eapply wp_mono; [exact Hcool|]. clear Hcool.
  intros r w5 (H5 & [b ->] & Hstop).
  destruct b; [by apply IH|].
  apply wp_ret. split; [done|]. intros _. by apply Hstop.
Qed.

Lemma phase2_outcome json_files c t0 w :
  continues quiet t0 w →
  wp (phase2 E self json_files c)
     (λ r w', continues quiet t0 w' ∧ (r = Ok None → stopped E)) w.
Proof.
  revert c w. induction json_files as [|j rest IH]; intros c w Hw.
  { apply wp_ret. by split. }
  cbn [phase2]. apply wp_bind, wp_is_running.
  destruct (running_at E (flag_reads w)) eqn:Hr; cbn [negb].
  2:{ apply wp_ret. split; [by apply continues_flag|].
      intros _. by exists (flag_reads w). }
  apply wp_bind, (wp_quiet _ _ t0);
    [apply (only_quiet_plain 2); [lia|apply only_acquire_logo]
    |by apply continues_flag|].
  intros [[]|e] w1 H1; [|by split].
  apply wp_bind, (wp_quiet _ _ t0); [apply only_quiet_progress|done|].
  intros [[]|e] w2 H2; [|by split].
  by apply IH.
Qed.

Lemma phase3_outcome html_gen json_files c t0 w :
  continues quiet t0 w →
  wp (phase3 E self html_gen json_files c)
     (λ r w', continues quiet t0 w' ∧ (r = Ok None → stopped E)) w.
Proof.
  revert c w. induction json_files as [|j rest IH]; intros c w Hw.
  { apply wp_ret. by split. }
  cbn [phase3]. apply wp_bind, wp_is_running.
  destruct (running_at E (flag_reads w)) eqn:Hr; cbn [negb].
  2:{ apply wp_ret. split; [by apply continues_flag|].
      intros _. by exists (flag_reads w). }
  apply wp_bind, (wp_quiet _ _ t0); [|by apply continues_flag|].
  { apply only_try_except.
    - apply (only_quiet_plain 3); [lia|apply only_build_html].
    - intros _. apply only_quiet_log. }
  intros [[]|e] w1 H1; [|by split].
  apply wp_bind, (wp_quiet _ _ t0); [apply only_quiet_progress|done|].
  intros [[]|e] w2 H2; [|by split].
  by apply IH.
Qed.

(** The first part of a run: it goes on, or it raises, or it returns
    after an [error] signal, or it returns because the worker is stopped. *)
Lemma analyse_and_generate_outcome w :
  wp (analyse_and_generate E self)
     (λ r w',
        match r with
        | Ok None =>
            (continues quiet (trace w) w' ∧ stopped E) ∨
            (∃ evs msg, trace w' = trace w ++ evs ++ [EvSignal (SigError msg)] ∧
                        Forall quiet evs)
        | _ => continues quiet (trace w) w'
        end) w.
Proof.
  unfold analyse_and_generate.
  apply wp_bind, (wp_quiet _ _ (trace w)); [|apply continues_refl|].
  { apply only_act. intros w0. unfold mkdir. by destruct (dirs w0 !! _). }
  intros [[]|e] w1 H1; [|done].
  apply wp_bind, (wp_quiet _ _ (trace w)); [apply only_quiet_log|done|].
  intros [[]|e] w2 H2; [|done].
  apply wp_bind. unfold wp at 1. cbn [get fst snd].
  destruct (negb (path_exists E _ w2)).
  { unfold wp, signal. unfold_M. cbn [fst snd]. right.
    destruct H2 as (evs & Ht & Hall). exists evs. eexists.
    split; [|done]. cbn. by rewrite Ht, <- app_assoc. }
  apply wp_bind. unfold wp at 1. cbn [get fst snd].
  apply wp_bind, (wp_quiet _ _ (trace w)); [apply only_quiet_log|done|].
  intros [[]|e] w3 H3; [|done].
  apply wp_bind, (wp_quiet _ _ (trace w)); [apply only_quiet_log|done|].
  intros [[]|e] w4 H4; [|done].
  apply wp_bind. unfold wp at 1.
  assert (Hinit : ∀ key,
            (∃ g, init key w4 = (Ok g, w4)) ∨ (∃ e, init key w4 = (Exc e, w4))).
  { intros key. unfold init.
    destruct key as [[|k0 k]|]; destruct (api_key_env w4) as [[|k0' k']|];
      (by left; eexists) || (by right; eexists). }
  unfold try_except, fmap, M_fmap.
  destruct (Hinit (Some (worker_api_key self))) as [[g ->]|[e ->]];
    cbn [fst snd].
  - apply wp_bind. eapply wp_mono; [by apply (phase1_outcome g _ _ _ (trace w))|].
    intros [[c|]|e] w5 [H5 Hstop]; [by apply wp_ret|left|done].
    split; [done|by apply Hstop].
  - unfold signal. unfold_M. cbn [fst snd]. right.
    destruct H4 as (evs & Ht & Hall). exists evs. eexists.
    split; [|done]. cbn. by rewrite Ht, <- app_assoc.
Qed.

(** The second part: it raises, or it returns because the worker is
    stopped, or it ends with the progress value 100 and [finished]. *)
Lemma acquire_build_render_outcome html_gen c t0 w :
  continues quiet t0 w →
  wp (acquire_build_render E self html_gen c)
     (λ r w',
        match r with
        | Ok _ =>
            (continues quiet t0 w' ∧ stopped E) ∨
            (∃ evs, trace w' = t0 ++ evs ++ [EvSignal (SigProgress 100);
                                            EvSignal SigFinished] ∧
                    Forall quiet evs)
        | Exc _ => continues quiet t0 w'
        end) w.
Proof.
  intros Hw. unfold acquire_build_render.
  apply wp_bind, (wp_quiet _ _ t0); [apply only_quiet_log|done|].
  intros [[]|e] w1 H1; [|done].
  apply wp_bind. unfold wp at 1. cbn [get fst snd].
  apply wp_bind. eapply wp_mono; [by apply (phase2_outcome _ _ t0)|].
  intros [[c2|]|e] w2 [H2 Hstop2]; [|apply wp_ret; left; by split; auto|done].
  apply wp_bind, (wp_quiet _ _ t0); [apply only_quiet_log|done|].
  intros [[]|e] w3 H3; [|done].
  apply wp_bind. eapply wp_mono; [by apply (phase3_outcome _ _ _ t0)|].
  intros [[c3|]|e] w4 [H4 Hstop4]; [|apply wp_ret; left; by split; auto|done].
  apply wp_bind, (wp_quiet _ _ t0); [apply only_quiet_log|done|].
  intros [[]|e] w5 H5; [|done].
  apply wp_bind, (wp_quiet _ _ t0);
    [apply only_quiet_compile_html_to_pdf|done|].
  intros [ok|e] w6 H6; [|done].
  apply wp_bind, (wp_quiet _ _ t0); [apply only_quiet_log|done|].
  intros [[]|e] w7 H7; [|done].
  unfold wp, signal. unfold_M. cbn [fst snd]. right.
  destruct H7 as (evs & Ht & Hall). exists evs. split; [|done].
  cbn. rewrite Ht. by rewrite <- !app_assoc.
Qed.

(** X18: How a run ends.  [run] lets no exception escape.  It emits
    [finished] at most once and [error] at most once, never both, and
    whichever it emits is its last event; [finished] comes right after the
    progress value 100.  A run that emits neither was stopped: some read
    of [is_running] gave [False].  So a worker that is never stopped always
    reports back, with [finished] or with [error]. *)
Theorem run_ends_once w :
  (run E self w).1 = Ok tt ∧
  ∃ evs,
    trace (run E self w).2 = trace w ++ evs ∧
    ((Forall quiet evs ∧ stopped E) ∨
     (∃ evs', evs = evs' ++ [EvSignal (SigProgress 100); EvSignal SigFinished] ∧
              Forall quiet evs') ∨
     (∃ evs' msg, evs = evs' ++ [EvSignal (SigError msg)] ∧ Forall quiet evs')).
Proof.
  change (wp (run E self)
            (λ r w', r = Ok tt ∧
               ∃ evs, trace w' = trace w ++ evs ∧
                 ((Forall quiet evs ∧ stopped E) ∨
                  (∃ evs', evs = evs' ++ [EvSignal (SigProgress 100);
                                          EvSignal SigFinished] ∧
                           Forall quiet evs') ∨
                  (∃ evs' msg, evs = evs' ++ [EvSignal (SigError msg)] ∧
                               Forall quiet evs'))) w).
  assert (Herr : ∀ e w1, continues quiet (trace w) w1 →
            wp (signal (SigError (u "Critical Pipeline Error: " ++ exn_text e)))
               (λ r w', r = Ok tt ∧
                  ∃ evs, trace w' = trace w ++ evs ∧
                    ((Forall quiet evs ∧ stopped E) ∨
                     (∃ evs', evs = evs' ++ [EvSignal (SigProgress 100);
                                             EvSignal SigFinished] ∧
                              Forall quiet evs') ∨
                     (∃ evs' msg, evs = evs' ++ [EvSignal (SigError msg)] ∧
                                  Forall quiet evs'))) w1).
  { intros e w1 (evs & Ht & Hall). split; [done|].
    eexists. split; [cbn; by rewrite Ht, <- app_assoc|].
    right. right. exists evs. by eexists. }
  unfold run, run_body. apply wp_try_except, wp_bind.
  eapply wp_mono; [apply analyse_and_generate_outcome|].
  intros [[[html_gen c]|]|e] w1 H1.
  - eapply wp_mono; [by apply (acquire_build_render_outcome _ _ (trace w))|].
    intros [[]|e] w2 H2; [|by apply Herr].
    split; [done|]. destruct H2 as [[(evs & Ht & Hall) Hstop]|(evs & Ht & Hall)].
    + exists evs. split; [done|]. by left.
    + eexists. split; [exact Ht|]. right. left. by exists evs.
  - apply wp_ret. split; [done|].
    destruct H1 as [[(evs & Ht & Hall) Hstop]|(evs & msg & Ht & Hall)].
    + exists evs. split; [done|]. by left.
    + eexists. split; [exact Ht|]. right. right. by exists evs, msg.
  - by apply Herr.
Qed.

End Outcome.

(** ** app_ui.py: progress values, cooldown, company list *)

Section Progress.
Context (E : Env) (self : Worker.PipelineWorker).

Import Worker.

Lemma steps_app c j1 j2 :
  steps c (j1 + j2) = steps c j1 ++ steps (c + Z.of_nat j1) j2.
Proof.
  revert c. induction j1 as [|j1 IH]; intros c.
  - simpl. by rewrite Z.add_0_r.
  - change (S j1 + j2)%nat with (S (j1 + j2)). rewrite !steps_S, IH. simpl.
    do 3 f_equal. lia.
Qed.

Lemma steps_nil c : steps c 0 = [].
Proof. done. Qed.

Lemma steps_sorted_nonneg c j :
  (0 ≤ c)%Z → StronglySorted (λ a b, (0 ≤ a ≤ b)%Z) (steps c j).
Proof.
  revert c. induction j as [|j IH]; intros c Hc; [constructor|].
  rewrite steps_S. constructor; [apply IH; lia|].
  apply Forall_forall. intros k Hk%steps_bounds. lia.
Qed.

Lemma progress_values_nonempty evs : progress_values evs ≠ [] → evs ≠ [].
Proof. by intros H ->. Qed.

(** X19: The progress values of a run are those of consecutive steps.
    Before the final 100, the [k]-th progress value of a run is
    [int((k / total_steps) * 100)], for [k] from 1 up to the number of steps
    taken, which is at most the number of companies plus twice the number
    of data files found.  These values never decrease and are not
    negative.  Nothing bounds them by 100 when there are more data files
    than companies. *)
Theorem run_progress_steps w :
  let n := length (companies self) in
  let m := length (data_files_found E self w) in
  ∃ evs j,
    trace (run E self w).2 = trace w ++ evs ∧
    (j ≤ n + 2 * m)%nat ∧
    (progress_values evs = map (percent_of self) (steps 0 j) ∨
     progress_values evs = map (percent_of self) (steps 0 j) ++ [100%Z]) ∧
    StronglySorted Z.le (map (percent_of self) (steps 0 j)) ∧
    Forall (λ v, (0 ≤ v)%Z) (map (percent_of self) (steps 0 j)).
Proof.
  intros n m.
  destruct (run_shape E self w)
    as (evs0 & evs1 & evs2 & evs3 & evs4 & err & j1 & j2 & j3 & Ht
        & _ & _ & _ & _ & _ & Herr & Hp0 & Hj1 & Hp1 & Hj2 & Hp2
        & Hj3 & Hp3 & Hp4 & H12 & H23 & _).
  fold n in Hj1, Hp2, Hp3, H12. fold m in Hj2, Hj3, Hp3, H23.
  exists (evs0 ++ evs1 ++ evs2 ++ evs3 ++ evs4 ++ err), (j1 + j2 + j3)%nat.
  assert (Hperr : progress_values err = []).
  { clear -Herr. induction Herr as [|e err [msg ->] _ IH]; [done|exact IH]. }
  assert (Hks : steps 0 j1 ++ steps (Z.of_nat n) j2
                ++ steps (Z.of_nat n + Z.of_nat m) j3
                = steps 0 (j1 + j2 + j3)).
  { destruct j2 as [|j2].
    - destruct j3 as [|j3].
      + by rewrite !steps_nil, !app_nil_r, !Nat.add_0_r.
      + assert (evs3 ≠ []).
        { apply progress_values_nonempty. rewrite Hp3, steps_S. done. }
        specialize (H23 ltac:(done)). lia.
    - assert (Hn : j1 = n).
      { apply H12. apply progress_values_nonempty. rewrite Hp2, steps_S. done. }
      destruct j3 as [|j3].
      + rewrite steps_nil, app_nil_r, Nat.add_0_r, steps_app, Hn.
        by rewrite Z.add_0_l.
      + assert (Hm : S j2 = m).
        { apply H23. apply progress_values_nonempty. rewrite Hp3, steps_S. done. }
        rewrite !steps_app, Hn, Hm, <- app_assoc.
        by rewrite !Z.add_0_l, Nat2Z.inj_add. }
  assert (Hps : progress_values (evs0 ++ evs1 ++ evs2 ++ evs3 ++ evs4 ++ err)
                = map (percent_of self) (steps 0 (j1 + j2 + j3))
                  ++ progress_values evs4).
  { rewrite !progress_values_app, Hp0, Hp1, Hp2, Hp3, Hperr, <- Hks.
    rewrite !map_app, app_nil_r. by list_norm. }
  split_and!.
  - done.
  - lia.
  - rewrite Hps. destruct Hp4 as [[-> _]| ->]; [left; by rewrite app_nil_r|by right].
  - apply (StronglySorted_fmap _ (λ a b, (0 ≤ a ≤ b)%Z)).
    + intros a b Hab. unfold percent_of.
      apply percent_mono; [done|apply total_steps_pos].
    + by apply steps_sorted_nonneg.
  - apply Forall_fmap, Forall_forall. intros k Hk%steps_bounds. simpl.
    unfold percent_of. rewrite <- (percent_zero (total_steps self)).
    apply percent_mono; [lia|apply total_steps_pos].
Qed.

(** X20: The cooldown between two companies.  [cooldown n] sleeps one
    second at a time and reads [is_running] before each second.  When the
    first [k] reads give [True] and the next one, if [k < n], gives
    [False], it sleeps [k] seconds and no more: it ends normally for
    [k = n], and makes the worker return for [k < n].  So a stop request
    takes effect within one second. *)
Theorem cooldown_spec n k w :
  (k ≤ n)%nat →
  (∀ j, (j < k)%nat → running_at E (flag_reads w + j) = true) →
  ((k < n)%nat → running_at E (flag_reads w + k) = false) →
  let w' := (cooldown E n w).2 in
  (cooldown E n w).1 = Ok (bool_decide (k = n)) ∧
  trace w' = trace w ++ replicate k (EvSleep 1) ∧
  flag_reads w' = (flag_reads w + if bool_decide (k = n) then n else S k)%nat.
Proof.
  revert k w. induction n as [|n IH]; intros k w Hk Htrue Hfalse.
  { assert (k = O) as -> by lia. simpl. rewrite app_nil_r.
    split_and!; [done|done|lia]. }
  cbn [cooldown]. unfold_M. unfold is_running. cbn [fst snd].
  destruct k as [|k].
  - rewrite <- (Nat.add_0_r (flag_reads w)), Hfalse by lia.
    rewrite bool_decide_false by lia.
    cbn. rewrite app_nil_r. split_and!; [done|done|lia].
  - pose proof (Htrue O ltac:(lia)) as H0. rewrite Nat.add_0_r in H0.
    rewrite H0. cbn [fst snd].
    set (w1 := emit (EvSleep 1) (count_flag_read w)).
    destruct (IH k w1) as (Hr & Ht & Hf).
    + lia.
    + intros j Hj. rewrite <- (Htrue (S j) ltac:(lia)). f_equal.
      unfold w1. cbn. lia.
    + intros Hlt. rewrite <- (Hfalse ltac:(lia)). f_equal.
      unfold w1. cbn. lia.
    + cbv zeta in *.
      destruct (cooldown E n w1) as [r w'] eqn:Hc. cbn [fst snd] in *.
      subst r. split_and!.
      * f_equal. apply bool_decide_ext. lia.
      * rewrite Ht. unfold w1. cbn. by rewrite <- app_assoc.
      * rewrite Hf. unfold w1. cbn.
        rewrite (bool_decide_ext (S k = S n) (k = n)) by lia.
        destruct (bool_decide (k = n)); lia.
Qed.


End Progress.

Example run_progress_beyond_100 :
  Worker.companies MoreExamples.nokia_worker = [u "Nokia"] ∧
  length (data_files_found Examples.nokia_env MoreExamples.nokia_worker
            MoreExamples.crowded_world) = 3%nat ∧
  progress_values
    (trace (Worker.run Examples.nokia_env MoreExamples.nokia_worker
              MoreExamples.crowded_world).2)
  = [25; 50; 75; 100; 125; 150; 175; 100]%Z.
Proof. split_and!; vm_compute; reflexivity. Qed.

Lemma cooldown_spec_witness :
  (Worker.cooldown MoreExamples.interrupted_env 10 Examples.empty_world).1
    = Ok false ∧
  trace (Worker.cooldown MoreExamples.interrupted_env 10 Examples.empty_world).2
    = [EvSleep 1; EvSleep 1; EvSleep 1].
Proof.
  assert (Hk : (3 ≤ 10)%nat) by lia.
  assert (Htrue : ∀ j, (j < 3)%nat →
            running_at MoreExamples.interrupted_env
              (flag_reads Examples.empty_world + j) = true).
  { intros j Hj. simpl. by apply bool_decide_eq_true. }
  assert (Hfalse : (3 < 10)%nat →
            running_at MoreExamples.interrupted_env
              (flag_reads Examples.empty_world + 3) = false)
    by (intros _; reflexivity).
  pose proof (cooldown_spec MoreExamples.interrupted_env 10 3
                Examples.empty_world Hk Htrue Hfalse) as H.
  exact (conj (proj1 H) (proj1 (proj2 H))).
Defined.

(** ** app_ui.py: what ends a run early, logos, dossiers *)

Section Early.
Context (E : Env) (self : Worker.PipelineWorker).

Import Worker.

Lemma trace_mkdir dir w : trace (mkdir E dir w) = trace w.
Proof. unfold mkdir. by destruct (dirs w !! dir_key E dir). Qed.

Lemma requests_mkdir dir w : requests_sent (mkdir E dir w) = requests_sent w.
Proof. unfold mkdir. by destruct (dirs w !! dir_key E dir). Qed.

Lemma flag_reads_mkdir dir w : flag_reads (mkdir E dir w) = flag_reads w.
Proof. unfold mkdir. by destruct (dirs w !! dir_key E dir). Qed.

Lemma api_key_env_mkdir dir w : api_key_env (mkdir E dir w) = api_key_env w.
Proof. unfold mkdir. by destruct (dirs w !! dir_key E dir). Qed.

(** A new directory is empty: every directory has the files it had. *)
Lemma entries_mkdir_any dir dir' w :
  entries E dir' (mkdir E dir w) = entries E dir' w.
Proof.
  unfold entries, mkdir.
  destruct (dirs w !! dir_key E dir) eqn:Hd; [done|]. simpl.
  destruct (decide (dir_key E dir = dir_key E dir')) as [Heq|Hne].
  - by rewrite <- Heq, lookup_insert_eq, Hd.
  - by rewrite lookup_insert_ne.
Qed.

Lemma read_file_mkdir dir path w :
  read_file E path (mkdir E dir w) = read_file E path w.
Proof.
  unfold read_file.
  destruct (parent_and_name (Path path)) as [[parent name]|]; [|done].
  by rewrite entries_mkdir_any.
Qed.

Lemma read_file_emit e path w : read_file E path (emit e w) = read_file E path w.
Proof. done. Qed.

(** What exists before [mkdir] exists after it, and the directory made is
    the only new thing. *)
Lemma path_exists_mkdir dir path w :
  path_exists E path (mkdir E dir w)
  = path_exists E path w || bool_decide (dir_key E path = dir_key E dir).
Proof.
  unfold path_exists. rewrite read_file_mkdir.
  destruct (bool_decide (is_Some (read_file E path w))); [done|]. simpl.
  unfold dir_exists, mkdir.
  destruct (decide (dir_key E path = dir_key E dir)) as [Heq|Hne].
  - rewrite (bool_decide_true (dir_key E path = _)) by done.
    rewrite orb_true_r, Heq.
    destruct (dirs w !! dir_key E dir) eqn:Hd.
    + rewrite Hd. by apply bool_decide_eq_true.
    + simpl. rewrite lookup_insert_eq. by apply bool_decide_eq_true.
  - rewrite (bool_decide_false (dir_key E path = _)) by done.
    rewrite orb_false_r.
    destruct (dirs w !! dir_key E dir) eqn:Hd; [done|].
    simpl. by rewrite lookup_insert_ne.
Qed.

Lemma get_template_variables_read g w1 w2 :
  read_file E (template_path g) w1 = read_file E (template_path g) w2 →
  get_template_variables E g w1 = get_template_variables E g w2.
Proof. intros H. unfold get_template_variables. by rewrite H. Qed.

(** The first part of a run, up to the loop of phase 1. *)
Lemma analyse_and_generate_unfold w :
  let path := path_str (joinpath (Path (u "templates")) (template_name self)) in
  let html_gen := new_generator path in
  let w1 := emit (EvSignal (SigLog LPhase0)) (mkdir E (output_dir self) w) in
  let fields := get_template_variables E html_gen w in
  let found := match fields with
               | [] => LNoVariables
               | _ => LFoundFields (length fields) (take 5 fields)
               end in
  let w3 := emit (EvSignal (SigLog LPhase1)) (emit (EvSignal (SigLog found)) w1) in
  analyse_and_generate E self w
  = if path_exists E path (mkdir E (output_dir self) w) then
      match init (Some (worker_api_key self)) w3 with
      | (Ok g, _) =>
          match phase1 E self g fields (companies self) 0 w3 with
          | (Ok (Some c), w') => (Ok (Some (html_gen, c)), w')
          | (Ok None, w') => (Ok None, w')
          | (Exc e, w') => (Exc e, w')
          end
      | (Exc e, _) =>
          (Ok None, emit (EvSignal (SigError (exn_text e))) w3)
      end
    else
      (Ok None,
       emit (EvSignal (SigError (u "Template not found: " ++ path))) w1).
Proof.
  intros path html_gen w1 fields found w3.
  unfold analyse_and_generate. unfold_M. cbn [fst snd log signal act].
  fold path.
  change (path_exists E path (emit (EvSignal (SigLog LPhase0))
                                (mkdir E (output_dir self) w)))
    with (path_exists E path (mkdir E (output_dir self) w)).
  destruct (path_exists E path (mkdir E (output_dir self) w)); cbn [negb];
    [|done].
  fold html_gen.
  rewrite (get_template_variables_read html_gen
             (emit (EvSignal (SigLog LPhase0)) (mkdir E (output_dir self) w)) w)
    by (by rewrite read_file_emit, read_file_mkdir).
  fold fields found w1 w3.
  assert (Hinit : ∀ key,
            (∃ g, init key w3 = (Ok g, w3)) ∨ (∃ e, init key w3 = (Exc e, w3))).
  { intros key. unfold init.
    destruct key as [[|k0 k]|]; destruct (api_key_env w3) as [[|k0' k']|];
      (by left; eexists) || (by right; eexists). }
  destruct (Hinit (Some (worker_api_key self))) as [[g ->]|[e ->]];
    cbn [fst snd]; [|done].
  by destruct (phase1 E self g fields (companies self) 0 w3) as [[[c|]|e] w'].
Qed.

(** X22: Two errors that end a run before anything is requested.  The
    template path is [Path("templates") / template_name]: a plain name
    lies under [templates], an absolute name replaces it.  When that path
    names neither a file nor a directory, the output directory included,
    the run emits the phase 0 header and the error [Template not found:]
    with the path, and that is all it does besides creating the output
    directory.  When the path exists but neither the worker's key nor the
    environment variable is non-empty, the run ends with the [ValueError]
    text of the generator as its error, after the headers of phases 0 and
    1.  In both cases no request is sent and [run] returns normally. *)
Theorem run_early_errors w :
  let path := path_str (joinpath (Path (u "templates")) (template_name self)) in
  (path_exists E path w = false →
   dir_key E path ≠ dir_key E (output_dir self) →
     run E self w
     = (Ok tt,
        emit (EvSignal (SigError (u "Template not found: " ++ path)))
          (emit (EvSignal (SigLog LPhase0)) (mkdir E (output_dir self) w)))) ∧
  (path_exists E path w = true → worker_api_key self = [] →
   api_key_env w = None ∨ api_key_env w = Some [] →
     ∃ found,
       (run E self w).1 = Ok tt ∧
       trace (run E self w).2
       = trace w ++ [EvSignal (SigLog LPhase0); EvSignal (SigLog found);
                     EvSignal (SigLog LPhase1);
                     EvSignal (SigError (u "Gemini API key is required. Set GEMINI_API_KEY environment variable."))] ∧
       requests_sent (run E self w).2 = requests_sent w) ∧
  (∀ name, template_name self = SLASH :: name →
     path = path_str (Path (template_name self))) ∧
  (∀ name, template_name self = name →
     SLASH ∉ name → name ≠ [] → name ≠ [DOT] →
     path = u "templates/" ++ name).
Proof.
  intros path. split_and!.
  - intros Hfile Hne. unfold run, run_body, try_except. unfold_M.
    pose proof (analyse_and_generate_unfold w) as Hu. cbv zeta in Hu.
    fold path in Hu. rewrite path_exists_mkdir, Hfile in Hu.
    rewrite bool_decide_false in Hu by done. by rewrite Hu.
  - intros Hfile Hkey Henv.
    unfold run, run_body, try_except. unfold_M.
    pose proof (analyse_and_generate_unfold w) as Hu. cbv zeta in Hu.
    fold path in Hu. rewrite path_exists_mkdir, Hfile, Hkey in Hu.
    rewrite Hu. clear Hu.
    eexists. unfold init. cbn [api_key_env emit orb].
    rewrite api_key_env_mkdir.
    destruct Henv as [-> | ->]; cbn [fst snd];
      (split_and!;
         [done
         |cbn [trace emit]; rewrite trace_mkdir; by rewrite <- !app_assoc
         |cbn [requests_sent emit]; apply requests_mkdir]).
  - intros name Hname. unfold path, joinpath.
    assert (Hroot : root (Path (template_name self)) ≠ []).
    { assert (Hlen : ∀ s, (length (lstrip (λ c, N.eqb c SLASH) s) ≤ length s)%nat).
      { induction s as [|c s IH]; simpl; [lia|].
        destruct (c =? SLASH); simpl; lia. }
      rewrite Hname. unfold Path, splitroot.
      change (lstrip (λ c, c =? SLASH) (SLASH :: name))
        with (lstrip (λ c, c =? SLASH) name).
      pose proof (Hlen name) as Hle.
      destruct (length (SLASH :: name) - length (lstrip _ name))%nat
        as [|[|[|n]]] eqn:Hd; cbn [length] in Hd; try lia; done. }
    by rewrite bool_decide_true.
  - intros name Hname Hslash Hempty Hdot. subst name. unfold path, joinpath.
    assert (Hsplit : ∀ s, SLASH ∉ s → split_char SLASH s = [s]).
    { induction s as [|c s IH]; [done|]. intros Hs.
      apply not_elem_of_cons in Hs as [Hc Hs]. simpl.
      rewrite (proj2 (N.eqb_neq c SLASH)) by done. by rewrite IH. }
    assert (HP : Path (template_name self)
                 = {| root := []; parts := [template_name self] |}).
    { unfold Path, splitroot.
      destruct (template_name self) as [|c s] eqn:Hn; [done|].
      apply not_elem_of_cons in Hslash as [Hc Hs].
      assert (Hl : lstrip (λ c, c =? SLASH) (c :: s) = c :: s).
      { simpl. by rewrite (proj2 (N.eqb_neq c SLASH)). }
      rewrite Hl, Nat.sub_diag. rewrite Hsplit by (by apply not_elem_of_cons).
      by rewrite filter_cons_True, filter_nil by done. }
    rewrite HP. rewrite bool_decide_false by (simpl; by intros H; apply H).
    cbn. destruct (template_name self); done.
Qed.

(** X23: A worker that is stopped before it starts on the first company
    does nothing for any company.  With at least one company and the flag
    cleared at the first read, the run sends no request, emits no progress
    value and neither [finished] nor anything after the phase 1 header, and
    leaves the entries of the output directory as they are: every event is
    a log line or an error signal. *)
Theorem run_stopped_before_start w :
  companies self ≠ [] →
  running_at E (flag_reads w) = false →
  let w' := (run E self w).2 in
  (run E self w).1 = Ok tt ∧
  requests_sent w' = requests_sent w ∧
  entries E (output_dir self) w' = entries E (output_dir self) w ∧
  ∃ evs, trace w' = trace w ++ evs ∧
         Forall (λ e, ∃ s, e = EvSignal s ∧
                           s ≠ SigFinished ∧ ∀ v, s ≠ SigProgress v) evs.
Proof.
  intros Hsome Hflag.
  assert (Hsig : ∀ l, ∃ s, EvSignal (SigLog l) = EvSignal s ∧
                          s ≠ SigFinished ∧ ∀ v, s ≠ SigProgress v)
    by (intros l; by eexists).
  assert (Herr : ∀ msg, ∃ s, EvSignal (SigError msg) = EvSignal s ∧
                          s ≠ SigFinished ∧ ∀ v, s ≠ SigProgress v)
    by (intros l; by eexists).
  cbv zeta. unfold run, run_body, try_except. unfold_M.
  pose proof (analyse_and_generate_unfold w) as Hu. cbv zeta in Hu.
  rewrite Hu. clear Hu.
  destruct (path_exists E _ (mkdir E (output_dir self) w)).
  - set (w3 := emit _ (emit _ (emit _ (mkdir E (output_dir self) w)))).
    assert (Ht3 : ∃ found, trace w3 = trace w ++ [EvSignal (SigLog LPhase0);
                             EvSignal (SigLog found); EvSignal (SigLog LPhase1)]).
    { eexists. unfold w3. cbn [trace emit]. rewrite trace_mkdir.
      by rewrite <- !app_assoc. }
    destruct Ht3 as [found Ht3].
    assert (Hr3 : requests_sent w3 = requests_sent w)
      by (unfold w3; cbn; apply requests_mkdir).
    assert (He3 : entries E (output_dir self) w3 = entries E (output_dir self) w)
      by (unfold w3; apply (entries_mkdir E (output_dir self) w)).
    assert (Hf3 : flag_reads w3 = flag_reads w)
      by (unfold w3; cbn; apply flag_reads_mkdir).
    assert (Hinit : ∀ key,
              (∃ g, init key w3 = (Ok g, w3)) ∨ (∃ e, init key w3 = (Exc e, w3))).
    { intros key. unfold init.
      destruct key as [[|k0 k]|]; destruct (api_key_env w3) as [[|k0' k']|];
        (by left; eexists) || (by right; eexists). }
    destruct (Hinit (Some (worker_api_key self))) as [[g ->]|[e ->]];
      cbn [fst snd].
    + destruct (companies self) as [|company rest]; [done|].
      cbn [phase1]. unfold_M. unfold is_running. cbn [fst snd].
      rewrite Hf3, Hflag. cbn [negb fst snd].
      split_and!; [done|done|done|].
      exists [EvSignal (SigLog LPhase0); EvSignal (SigLog found);
              EvSignal (SigLog LPhase1)].
      split; [exact Ht3|]. repeat constructor; apply Hsig.
    + split_and!; [done|done|done|].
      eexists. cbn [trace emit]. rewrite Ht3, <- app_assoc. split; [done|].
      repeat (constructor; [apply Hsig || apply Herr|]). constructor.
  - cbn [fst snd]. split_and!; [done|cbn; apply requests_mkdir
                                |apply (entries_mkdir E (output_dir self) w)|].
    eexists. cbn [trace emit]. rewrite trace_mkdir, <- app_assoc.
    split; [done|].
    repeat (constructor; [apply Hsig || apply Herr|]). constructor.
Qed.

End Early.

Lemma run_stopped_before_start_witness :
  requests_sent
    (Worker.run MoreExamples.stopped_env MoreExamples.nokia_worker
       Examples.sample_world).2 = 0%nat.
Proof.
  assert (Hsome : Worker.companies MoreExamples.nokia_worker ≠ [])
    by (vm_compute; discriminate).
  assert (Hflag : running_at MoreExamples.stopped_env
                    (flag_reads Examples.sample_world) = false) by reflexivity.
  exact (proj1 (proj2 (run_stopped_before_start MoreExamples.stopped_env
                         MoreExamples.nokia_worker Examples.sample_world
                         Hsome Hflag))).
Defined.

Section Logos.
Context (E : Env) (self : Worker.PipelineWorker).

Import Worker.

Lemma dict_set_elem k v d : (k, v) ∈ dict_set k v d.
Proof.
  induction d as [|[k' v'] d IH]; simpl.
  - apply list_elem_of_here.
  - case_bool_decide; [apply list_elem_of_here|by apply list_elem_of_further].
Qed.

Lemma dict_set_keys k v d :
  k ∈ d.*1 → (dict_set k v d).*1 = d.*1.
Proof.
  induction d as [|[k' v'] d IH]; simpl; [by intros ?%elem_of_nil|].
  intros Hin. case_bool_decide as Hk; simpl; [by subst|].
  f_equal. apply IH. apply elem_of_cons in Hin as [?|?]; [congruence|done].
Qed.

Lemma dict_set_keys_new k v d :
  k ∉ d.*1 → (dict_set k v d).*1 = d.*1 ++ [k].
Proof.
  induction d as [|[k' v'] d IH]; simpl; [done|].
  intros Hin. apply not_elem_of_cons in Hin as [Hne Hin].
  rewrite bool_decide_false by congruence. simpl. f_equal. by apply IH.
Qed.

Lemma dict_set_NoDup k v d : NoDup d.*1 → NoDup (dict_set k v d).*1.
Proof.
  intros Hnd. destruct (decide (k ∈ d.*1)) as [Hin|Hin].
  - by rewrite dict_set_keys.
  - rewrite dict_set_keys_new by done.
    apply NoDup_app. split_and!; [done| |apply NoDup_singleton].
    intros x Hx ->%list_elem_of_singleton. done.
Qed.

(** X24: The logo is injected into the dossier.  When the data file
    parses to a [dict], its values are formatted without an exception and
    the template shows [${logo_filename}], the page written for the file
    has, at that place, the name derived from the data file,
    [<safe name>_logo.png], whatever the data file itself says under
    [logo_filename].  The page is the entry [<safe name>_profile.html] of
    the output directory.  The values are formatted without an exception
    when [str] does not raise and the activations of every value fit on
    the stack.  When formatting a value raises, nothing is written: the
    exception leaves [build_html], and phase 3 logs an HTML error in its
    place. *)
Theorem build_html_logo_injected html_gen json_file text data pre post w :
  entries E (output_dir self) w !! json_file = Some text →
  json_loads E text = Some (JDict data) →
  NoDup data.*1 →
  read_file E (template_path html_gen) w
    = Some (pre ++ placeholder (u "logo_filename") ++ post) →
  last pre ≠ Some DOLLAR →
  let safe_name := safe_name_of_file json_file in
  let logo_filename := safe_name ++ u "_logo.png" in
  let data' := dict_set (u "logo_filename") (JStr logo_filename) data in
  let w' := (build_html E self html_gen json_file w).2 in
  (∀ context, build_context E (JDict data') = Ok context →
     (build_html E self html_gen json_file w).1 = Ok tt ∧
     entries E (output_dir self) w' !! (safe_name ++ u "_profile.html")
     = Some (safe_substitute context pre ++ logo_filename
             ++ safe_substitute context post) ∧
     trace w'
     = trace w ++ [EvWrite (output_dir self) (safe_name ++ u "_profile.html");
                   EvSignal (SigLog (LBuilt safe_name))]) ∧
  (str_never_raises E →
   Forall (λ kv, activations kv.2 ≤ stack_room E)%nat data' →
   ∃ context, build_context E (JDict data') = Ok context) ∧
  (∀ e, build_context E (JDict data') = Exc e →
     build_html E self html_gen json_file w = (Exc e, w) ∧
     try_except (build_html E self html_gen json_file) (λ _, log LHtmlError) w
     = (Ok tt, emit (EvSignal (SigLog LHtmlError)) w)).
Proof.
  intros Htext Hloads Hnd Hfile Hpre safe_name logo_filename data' w'.
  assert (Hstep : build_html E self html_gen json_file w
    = match generate_html_content E html_gen (JDict data') w with
      | Ok html_content =>
          (Ok tt,
           emit (EvSignal (SigLog (LBuilt safe_name)))
             (write_file E (output_dir self) (safe_name ++ u "_profile.html")
                html_content w))
      | Exc e => (Exc e, w)
      end).
  { unfold build_html. unfold_M. cbn [fst snd].
    rewrite Htext. cbn [mbind option_bind].
    rewrite Hloads. cbn [fst snd log signal act].
    fold safe_name logo_filename data'.
    by destruct (generate_html_content E html_gen (JDict data') w). }
  split_and!.
  - intros context Hctx.
    assert (Hout : generate_html_content E html_gen (JDict data') w
                   = Ok (safe_substitute context pre ++ logo_filename
                         ++ safe_substitute context post)).
    { rewrite (generate_html_content_at E html_gen w (JDict data') context pre
                 (u "logo_filename") post Hfile Hpre)
        by (done || (split; [done|by repeat constructor])).
      rewrite decide_True by (split; [split; [done|by repeat constructor]|done]).
      rewrite (build_context_provided E data' context _ (JStr logo_filename)).
      - done.
      - by apply dict_set_NoDup.
      - apply dict_set_elem.
      - done. }
    unfold w'. rewrite Hstep, Hout. split_and!.
    + done.
    + cbn [snd]. rewrite entries_emit, entries_write_file. apply lookup_insert_eq.
    + cbn [snd trace emit write_file store set_dirs]. by rewrite <- app_assoc.
  - intros Hstr Hall. unfold build_context.
    pose proof (add_items_outcome E data'
      (<[u "case_number" := u "OP-D-V-" ++ clock_hhmm E]>
         (<[u "timestamp" := clock_stamp E]> ∅)) Hstr) as H.
    by rewrite bool_decide_true in H by done.
  - intros e He.
    assert (Hexc : build_html E self html_gen json_file w = (Exc e, w)).
    { rewrite Hstep. unfold generate_html_content. by rewrite He. }
    split; [done|]. unfold try_except. by rewrite Hexc.
Qed.

(** X25: A logo is fetched once.  When no logo file exists for a data
    file, the search finds an image and the download succeeds, the logo is
    stored under [<safe name>_logo.png] in the output directory; after
    that, handling the same data file again neither searches nor
    downloads: it only logs that the logo exists. *)
Theorem acquire_logo_once json_file img_url bytes w :
  let safe_name := safe_name_of_file json_file in
  let company_name := replace_char UNDERSCORE SPACE safe_name in
  let logo_filename := safe_name ++ u "_logo.png" in
  entry_exists E (output_dir self) logo_filename w = false →
  logo_search E (company_name ++ u " logo") = Returns (Some img_url) →
  img_url ≠ [] →
  logo_download E img_url (output_dir self) logo_filename
    = Returns (Some bytes) →
  let w1 := (acquire_logo E self json_file w).2 in
  (acquire_logo E self json_file w).1 = Ok tt ∧
  entries E (output_dir self) w1 !! logo_filename = Some bytes ∧
  trace w1
  = trace w ++ [EvSignal (SigLog (LSearchingLogo company_name));
                EvLogoSearch (company_name ++ u " logo");
                EvLogoDownload img_url (output_dir self) logo_filename;
                EvSignal (SigLog LDownloaded)] ∧
  acquire_logo E self json_file w1
  = (Ok tt, emit (EvSignal (SigLog (LLogoExists company_name))) w1).
Proof.
  intros safe_name company_name logo_filename Hnew Hsearch Hurl Hdown.
  assert (Hfirst : acquire_logo E self json_file w
    = (Ok tt,
       emit (EvSignal (SigLog LDownloaded))
         (store E (output_dir self) logo_filename bytes
            (emit (EvLogoDownload img_url (output_dir self) logo_filename)
               (emit (EvLogoSearch (company_name ++ u " logo"))
                  (emit (EvSignal (SigLog (LSearchingLogo company_name))) w)))))).
  { unfold acquire_logo. unfold_M. cbn [fst snd log signal act].
    fold safe_name company_name logo_filename.
    rewrite Hnew, Hsearch. destruct img_url as [|c url]; [done|].
    cbn [fst snd]. by rewrite Hdown. }
  cbv zeta. rewrite Hfirst. cbn [fst snd].
  set (w1 := emit _ (store _ _ _ _ _)).
  assert (Hstored : entries E (output_dir self) w1 !! logo_filename = Some bytes).
  { unfold w1. rewrite entries_emit, entries_store. apply lookup_insert_eq. }
  split_and!.
  - done.
  - exact Hstored.
  - unfold w1. cbn [trace emit store set_dirs]. by rewrite <- !app_assoc.
  - unfold acquire_logo. unfold_M. cbn [fst snd log signal act].
    fold safe_name company_name logo_filename.
    unfold entry_exists.
    rewrite Hstored. by rewrite bool_decide_true by by eexists.
Qed.

(** X26: One bad data file does not stop phase 3.  When a data file is
    not there any more, is no JSON text, or holds something other than an
    object, the worker logs an error for it and counts its step; the
    remaining files are handled exactly as they would be without it.
    Nothing is written for the bad file. *)
Theorem phase3_skips_bad_file html_gen json_file rest c w :
  running_at E (flag_reads w) = true →
  (∀ text data, entries E (output_dir self) w !! json_file = Some text →
                json_loads E text ≠ Some (JDict data)) →
  phase3 E self html_gen (json_file :: rest) c w
  = phase3 E self html_gen rest (c + 1)
      (emit (EvSignal (SigProgress (percent_of self (c + 1))))
         (emit (EvSignal (SigLog LHtmlError)) (count_flag_read w))).
Proof.
  intros Hrun Hbad.
  assert (Hraise : ∃ e, build_html E self html_gen json_file (count_flag_read w)
                        = (Exc e, count_flag_read w)).
  { unfold build_html. unfold_M. cbn [fst snd].
    change (entries E (output_dir self) (count_flag_read w))
      with (entries E (output_dir self) w).
    destruct (entries E (output_dir self) w !! json_file) as [text|] eqn:Htext;
      cbn [mbind option_bind]; [|by eexists].
    specialize (Hbad text).
    destruct (json_loads E text) as [[| | | | | |d]|]; try by eexists.
    by destruct (Hbad d eq_refl eq_refl). }
  destruct Hraise as [e He].
  cbn [phase3]. unfold_M. unfold is_running, try_except. cbn [fst snd].
  rewrite Hrun. cbn [negb]. by rewrite He.
Qed.

End Logos.

Lemma build_html_logo_injected_witness :
  entries Examples.quiet_env (u "output")
    (Worker.build_html Examples.quiet_env MoreExamples.nokia_worker
       Examples.sample_generator (u "Nokia_data.json")
       MoreExamples.logo_world).2
    !! u "Nokia_profile.html"
  = Some (u "<img src='Nokia_logo.png'>").
Proof.
  assert (Htext : entries Examples.quiet_env
                    (Worker.output_dir MoreExamples.nokia_worker)
                    MoreExamples.logo_world !! u "Nokia_data.json"
                  = Some Examples.nokia_text) by (vm_compute; reflexivity).
  assert (Hloads : json_loads Examples.quiet_env Examples.nokia_text
                   = Some (JDict Examples.nokia_items))
    by (vm_compute; reflexivity).
  assert (Hnd : NoDup Examples.nokia_items.*1)
    by (apply (bool_decide_unpack _); vm_compute; exact I).
  assert (Hfile : read_file Examples.quiet_env
                    (template_path Examples.sample_generator)
                    MoreExamples.logo_world
                  = Some (u "<img src='" ++ placeholder (u "logo_filename")
                            ++ u "'>")) by (vm_compute; reflexivity).
  assert (Hpre : last (u "<img src='") ≠ Some DOLLAR)
    by (vm_compute; discriminate).
  assert (Hctx : build_context Examples.quiet_env
                   (JDict (dict_set (u "logo_filename")
                             (JStr (Worker.safe_name_of_file (u "Nokia_data.json")
                                    ++ u "_logo.png"))
                             Examples.nokia_items))
                 = Ok (list_to_map
                         [(u "timestamp", u "2025-01-01 12:00");
                          (u "case_number", u "OP-D-V-1200");
                          (u "name", u "Nokia"); (u "city", u "Espoo");
                          (u "logo_filename", u "Nokia_logo.png")]))
    by (vm_compute; reflexivity).
  pose proof (proj1 (proj2 (proj1 (build_html_logo_injected Examples.quiet_env
                MoreExamples.nokia_worker Examples.sample_generator
                (u "Nokia_data.json") _ _ _ _ MoreExamples.logo_world
                Htext Hloads Hnd Hfile Hpre) _ Hctx))) as H.
  vm_compute in H. vm_compute. exact H.
Defined.

Lemma acquire_logo_once_witness :
  entries MoreExamples.logo_env (u "output")
    (Worker.acquire_logo MoreExamples.logo_env MoreExamples.nokia_worker
       (u "Nokia_data.json") MoreExamples.logo_world).2
    !! u "Nokia_logo.png" = Some (u "PNG").
Proof.
  assert (Hnew : entry_exists MoreExamples.logo_env
                   (Worker.output_dir MoreExamples.nokia_worker)
                   (Worker.safe_name_of_file (u "Nokia_data.json") ++ u "_logo.png")
                   MoreExamples.logo_world = false) by (vm_compute; reflexivity).
  assert (Hsearch : logo_search MoreExamples.logo_env
                      (replace_char UNDERSCORE SPACE
                         (Worker.safe_name_of_file (u "Nokia_data.json"))
                       ++ u " logo")
                    = Returns (Some (u "http://img/logo.png"))) by reflexivity.
  assert (Hurl : u "http://img/logo.png" ≠ []) by (vm_compute; discriminate).
  assert (Hdown : logo_download MoreExamples.logo_env (u "http://img/logo.png")
                    (Worker.output_dir MoreExamples.nokia_worker)
                    (Worker.safe_name_of_file (u "Nokia_data.json") ++ u "_logo.png")
                  = Returns (Some (u "PNG"))) by reflexivity.
  pose proof (proj1 (proj2 (acquire_logo_once MoreExamples.logo_env
                MoreExamples.nokia_worker (u "Nokia_data.json") _ _
                MoreExamples.logo_world Hnew Hsearch Hurl Hdown))) as H.
  vm_compute in H. vm_compute. exact H.
Defined.

Lemma phase3_skips_bad_file_witness :
  trace (Worker.phase3 Examples.quiet_env MoreExamples.nokia_worker
           Examples.sample_generator [u "Kone_data.json"] 1
           MoreExamples.broken_data_world).2
  = [EvSignal (SigLog LHtmlError);
     EvSignal (SigProgress (percent_of MoreExamples.nokia_worker 2))].
Proof.
  assert (Hrun : running_at Examples.quiet_env
                   (flag_reads MoreExamples.broken_data_world) = true)
    by reflexivity.
  assert (Hbad : ∀ text data,
            entries Examples.quiet_env
              (Worker.output_dir MoreExamples.nokia_worker)
              MoreExamples.broken_data_world !! u "Kone_data.json" = Some text →
            json_loads Examples.quiet_env text ≠ Some (JDict data)).
  { intros text data Htext.
    assert (text = u "oops") as ->
      by (vm_compute in Htext; by injection Htext as <-).
    vm_compute. discriminate. }
  rewrite (phase3_skips_bad_file Examples.quiet_env MoreExamples.nokia_worker
             Examples.sample_generator (u "Kone_data.json") [] 1
             MoreExamples.broken_data_world Hrun Hbad).
  reflexivity.
Defined.

(** ** app_ui.py: what a run asks the model *)

Section Prompts.
Context (E : Env) (self : Worker.PipelineWorker).
Context (key : pystr) (fields : list pystr).

Import Worker.

Lemma wp_only {A} (R : Event → Prop) (m : M A)
    (Q : Res A → World → Prop) t0 w :
  only R m → continues R t0 w →
  (∀ r w', continues R t0 w' → Q r w') → wp m Q w.
Proof.
  intros Hm Hw HQ. apply HQ. apply (continues_trans R t0 w); [done|].
  apply Hm.
Qed.

Lemma only_is_running (R : Event → Prop) : only R (is_running E).
Proof. intros w. exists []. by rewrite app_nil_r. Qed.

Lemma only_cooldown (R : Event → Prop) n :
  R (EvSleep 1) → only R (cooldown E n).
Proof.
  intros HR. induction n as [|n IH]; cbn [cooldown]; [apply only_ret|].
  apply only_bind; [apply only_is_running|]. intros r.
  destruct r; [|apply only_ret].
  apply only_bind; [by apply only_emit|]. intros _. exact IH.
Qed.

Lemma only_request_post g url text :
  run_request self key fields (EvHttp (request_url g url) text) →
  only (run_request self key fields) (post E g url text).
Proof.
  intros HP w. exists [EvHttp (request_url g url) text].
  split; [done|by constructor].
Qed.

Lemma only_request_try_models g ms :
  api_key g = key → Forall (λ m, m = GEMINI_MODEL) ms →
  only (run_request self key fields) (try_models E g ms).
Proof.
  intros Hkey Hms. induction Hms as [|m ms -> _ IH]; simpl; [apply only_ret|].
  apply only_bind.
  { apply only_request_post. unfold request_url. rewrite Hkey.
    split; [done|by left]. }
  intros [status body|]; [|exact IH].
  destruct (status =? 200)%Z; [apply only_ret|exact IH].
Qed.

Lemma only_request_attempts n g c :
  api_key g = key → c ∈ companies self →
  only (run_request self key fields)
       (attempts E n g (model_url GEMINI_MODEL) (prompt_for c fields)).
Proof.
  intros Hkey Hc. induction n as [|n IH]; simpl; [apply only_ret|].
  apply only_bind.
  { apply only_request_post. unfold request_url. rewrite Hkey.
    split; [done|]. right. by exists c. }
  intros [status body|]; [|apply only_ret].
  destruct (status =? 200)%Z; [apply only_ret|].
  destruct (status =? 429)%Z; [|apply only_ret].
  apply only_bind; [by apply only_emit|]. intros _. exact IH.
Qed.

Lemma try_models_made g ms w :
  made_for key g → Forall (λ m, m = GEMINI_MODEL) ms →
  ∀ url g', (try_models E g ms w).1 = Ok (url, g') →
    made_for key g' ∧ (∀ x, url = Some x → x = model_url GEMINI_MODEL).
Proof.
  intros Hg Hms. revert w.
  induction Hms as [|m ms -> _ IH]; intros w url g'.
  - simpl. intros [= <- <-]. by split.
  - rewrite try_models_step. destruct (probe_works E g (requests_sent w) _).
    + cbn [fst]. intros [= <- <-]. split; [|by intros x [= <-]].
      destruct Hg as (Hk & Hm & _). split_and!; [done|done|by right].
    + apply IH.
Qed.

Lemma query_gemini_requests g c t0 w :
  made_for key g → c ∈ companies self →
  continues (run_request self key fields) t0 w →
  wp (query_gemini E g (prompt_for c fields))
     (λ r w', continues (run_request self key fields) t0 w' ∧
              ∀ x g', r = Ok (x, g') → made_for key g') w.
Proof.
  intros Hg Hc Hw. pose proof Hg as (Hkey & Hmodels & Hwm).
  assert (Hms : Forall (λ m, m = GEMINI_MODEL) (models g))
    by (rewrite Hmodels; by repeat constructor).
  destruct Hwm as [Hwm|Hwm];
    [rewrite (query_gemini_unknown E g _ (or_introl Hwm))
    |rewrite (query_gemini_known E g GEMINI_MODEL _ Hwm) by done].
  - apply wp_bind. unfold find_working_model, wp at 1.
    pose proof (only_request_try_models g (models g) Hkey Hms w) as Ht.
    pose proof (try_models_made g (models g) w Hg Hms) as Hmade.
    destruct (try_models E g (models g) w) as [[[url g']|e] w1];
      cbn [fst snd] in *.
    2:{ split; [by apply (continues_trans _ t0 w)|by intros ? ? ?]. }
    assert (H1 : continues (run_request self key fields) t0 w1)
      by by apply (continues_trans _ t0 w).
    destruct (Hmade url g' eq_refl) as [Hg' Hurl].
    destruct url as [url|].
    + rewrite (Hurl url eq_refl).
      apply wp_bind, (wp_only (run_request self key fields) _ _ t0);
        [apply only_request_attempts; [apply Hg'|done]|done|].
      intros [r|e] w2 H2; [|split; [done|by intros ? ? ?]].
      apply wp_ret. split; [done|]. by intros x g2 [= <- <-].
    + apply wp_ret. split; [done|]. by intros x g2 [= <- <-].
  - apply wp_bind, (wp_only (run_request self key fields) _ _ t0);
      [by apply only_request_attempts|done|].
    intros [r|e] w1 H1; [|split; [done|by intros ? ? ?]].
    apply wp_ret. split; [done|]. by intros x g' [= <- <-].
Qed.

Lemma process_company_requests g c t0 w :
  made_for key g → c ∈ companies self →
  continues (run_request self key fields) t0 w →
  wp (process_company E g c fields (output_dir self))
     (λ r w', continues (run_request self key fields) t0 w' ∧
              ∀ x g', r = Ok (x, g') → made_for key g') w.
Proof.
  intros Hg Hc Hw. unfold process_company.
  apply wp_bind, (wp_only (run_request self key fields) _ _ t0); [|done|].
  { apply only_act. intros w0. unfold mkdir. by destruct (dirs w0 !! _). }
  intros [[]|e] w1 H1; [|split; [done|by intros ? ? ?]].
  apply wp_bind. unfold generate_company_info.
  apply wp_bind. eapply wp_mono; [by apply (query_gemini_requests g c t0)|].
  intros [[result g']|e] w2 [H2 Hg']; [|split; [done|by intros ? ? ?]].
  specialize (Hg' _ _ eq_refl).
  assert (Hrest : ∀ info,
            wp (if truthy info
                then act (write_file E (output_dir self) (data_file_name E c)
                            (json_dumps E info));;
                     mret (true, Some (output_dir self, data_file_name E c), g')
                else mret (false, None, g'))
               (λ r w', continues (run_request self key fields) t0 w' ∧
                        ∀ x g2, r = Ok (x, g2) → made_for key g2) w2).
  { intros info. destruct (truthy info).
    - apply wp_bind. unfold wp at 1. cbn [act fst snd].
      apply wp_ret. split; [|by intros x g2 [= <- <-]].
      unfold write_file. by apply continues_emit.
    - apply wp_ret. split; [done|]. by intros x g2 [= <- <-]. }
  destruct (truthy result); [destruct result|];
    try (apply wp_ret; apply Hrest);
    (split; [done|by intros ? ? ?]).
Qed.

Lemma phase1_requests_shape g todo c t0 w :
  made_for key g → Forall (λ x, x ∈ companies self) todo →
  continues (run_request self key fields) t0 w →
  wp (phase1 E self g fields todo c)
     (λ _ w', continues (run_request self key fields) t0 w') w.
Proof.
  intros Hg Htodo. revert g c w Hg.
  induction Htodo as [|company rest Hc _ IH]; intros g c w Hg Hw.
  { by apply wp_ret. }
  cbn [phase1]. apply wp_bind, wp_is_running.
  destruct (running_at E (flag_reads w)); cbn [negb]; [|by apply wp_ret].
  apply wp_bind, (wp_only (run_request self key fields) _ _ t0);
    [by apply only_emit|done|].
  intros [[]|e] w1 H1; [|done].
  apply wp_bind.
  eapply wp_mono; [by apply (process_company_requests g company t0)|].
  intros [[[ok path] g']|e] w2 [H2 Hg']; [|done].
  specialize (Hg' _ _ eq_refl).
  apply wp_bind, (wp_only (run_request self key fields) _ _ t0);
    [by apply only_emit|done|].
  intros [[]|e] w3 H3; [|done].
  apply wp_bind, (wp_only (run_request self key fields) _ _ t0);
    [by apply only_emit|done|].
  intros [[]|e] w4 H4; [|done].
  apply wp_bind, (wp_only (run_request self key fields) _ _ t0); [|done|].
  { destruct (bool_decide (rest ≠ [])); [|apply only_ret].
    apply only_bind; [by apply only_emit|]. intros _.
    by apply only_cooldown. }
  intros [continue|e] w5 H5; [|done].
  destruct continue; [by apply IH|by apply wp_ret].
Qed.

Lemma in_phase_not_request i e :
  i ≠ 1%nat → in_phase i e → run_request self key fields e.
Proof. intros Hi [He|He]; destruct e; try done. simpl in He. congruence. Qed.

(** X27: What a run asks.  Every request of a run goes to the
    [generateContent] endpoint of the model [gemini-2.5-flash] and carries
    the key of the generator: the worker's key when it is not empty, the
    environment variable otherwise.  Its text is the probe, or the prompt
    for one of the worker's companies that lists exactly the fields scanned
    from the template at the start of the run. *)
Theorem run_requests g w :
  (init (Some (worker_api_key self)) w).1 = Ok g →
  key = api_key g →
  fields = get_template_variables E
             (new_generator
                (path_str (joinpath (Path (u "templates")) (template_name self))))
             w →
  ∃ evs, trace (run E self w).2 = trace w ++ evs ∧
         Forall (run_request self key fields) evs.
Proof.
  intros Hinit Hkey Hfields.
  change (continues (run_request self key fields) (trace w) (run E self w).2).
  assert (Hlog : ∀ s t0 w0, continues (run_request self key fields) t0 w0 →
            continues (run_request self key fields) t0 (emit (EvSignal s) w0))
    by (intros; by apply continues_emit).
  unfold run, run_body, try_except. unfold_M.
  pose proof (analyse_and_generate_unfold E self w) as Hu. cbv zeta in Hu.
  rewrite Hu. clear Hu. rewrite <- Hfields.
  set (w1 := emit (EvSignal (SigLog LPhase0)) (mkdir E (output_dir self) w)).
  assert (H1 : continues (run_request self key fields) (trace w) w1).
  { apply Hlog. exists []. rewrite app_nil_r.
    split; [apply trace_mkdir|done]. }
  destruct (path_exists E _ _); [|cbn [fst snd]; by apply Hlog].
  set (w3 := emit _ (emit _ w1)).
  assert (H3 : continues (run_request self key fields) (trace w) w3)
    by (by do 2 apply Hlog).
  assert (Hg : init (Some (worker_api_key self)) w3 = (Ok g, w3)).
  { revert Hinit. unfold init.
    replace (api_key_env w3) with (api_key_env w)
      by (symmetry; apply api_key_env_mkdir).
    destruct (worker_api_key self) as [|k0 k];
      destruct (api_key_env w) as [[|k0' k']|]; cbn; by intros [= <-]. }
  rewrite Hg.
  assert (Hmade : made_for key g).
  { revert Hinit. unfold init, made_for.
    destruct (worker_api_key self) as [|k0 k];
      destruct (api_key_env w) as [[|k0' k']|]; cbn; intros [= <-];
      subst key; split_and!; by try left. }
  pose proof (phase1_requests_shape g (companies self) 0 (trace w) w3 Hmade) as Hp.
  unfold wp in Hp.
  assert (Hp1 : continues (run_request self key fields) (trace w)
                  (phase1 E self g fields (companies self) 0 w3).2).
  { apply Hp; [|done]. apply Forall_forall. by intros x Hx. }
  clear Hp.
  destruct (phase1 E self g fields (companies self) 0 w3) as [[[c|]|e] w4];
    cbn [fst snd] in *; [|done|by apply Hlog].
  destruct (acquire_build_render_spec E self
              (new_generator
                 (path_str (joinpath (Path (u "templates")) (template_name self))))
              c w4)
    as (res & w' & evs2 & evs3 & evs4 & j2 & j3 & -> & Ht & H2 & H3' & H4 & _).
  assert (Hrest : continues (run_request self key fields) (trace w4) w').
  { exists (evs2 ++ evs3 ++ evs4). split; [done|].
    repeat apply Forall_app_2;
      (eapply Forall_impl; [eassumption|]); intros e;
      apply in_phase_not_request; lia. }
  destruct res as [[]|e]; cbn [fst snd].
  - by apply (continues_trans _ (trace w) w4).
  - apply Hlog. by apply (continues_trans _ (trace w) w4).
Qed.

End Prompts.

Lemma run_requests_witness :
  ∃ evs,
    trace (Worker.run Examples.nokia_env Examples.sample_worker
             Examples.sample_world).2
      = trace Examples.sample_world ++ evs ∧
    Forall (run_request Examples.sample_worker (u "k")
              [u "1st"; u "city"; u "name"]) evs.
Proof.
  apply (run_requests Examples.nokia_env Examples.sample_worker (u "k")
           [u "1st"; u "city"; u "name"] Examples.fresh_generator
           Examples.sample_world).
  - vm_compute. reflexivity.
  - reflexivity.
  - vm_compute. reflexivity.
Defined.

(** ** app_ui.py: how close a progress value is to the percentage *)

Section FloatAccuracy.
Import PyFloat.
Local Open Scope Z_scope.

(** The scaled quotient that [round53] rounds lies between [2^52] and
    [2^53]. *)
Lemma round53_scaled_range n d :
  0 < n -> 0 < d ->
  let e := ilog2 n d - 52 in
  2 ^ 52 * (d * pow_den e) <= n * pow_num e <= 2 ^ 53 * (d * pow_den e).
Proof.
  intros Hn Hd e. unfold e.
  pose proof (ilog2_spec n d Hn Hd) as [Hlo Hhi].
  set (L := ilog2 n d) in *.
  pose proof (shift_exponent (L - 52) 52 ltac:(lia)) as HS.
  replace (L - 52 + 52) with L in HS by lia.
  pose proof (pow_den_pos L). pose proof (pow_num_pos L).
  pose proof (pow_den_pos (L - 52)). pose proof (pow_num_pos (L - 52)).
  set (p := pow_den L) in *. set (q := pow_num L) in *.
  set (p' := pow_den (L - 52)) in *. set (q' := pow_num (L - 52)) in *.
  set (T := 2 ^ 52) in *.
  assert (HT : 2 ^ 53 = 2 * T) by reflexivity. rewrite HT.
  assert (0 < T) by reflexivity.
  split.
  - apply (mul_le_cancel _ _ q); [lia|].
    assert (T * (d * p') * q = d * (T * p' * q)) by ring.
    assert (d * (p * q') <= n * q * q') by nia.
    rewrite HS in *. nia.
  - apply (mul_le_cancel _ _ q); [lia|].
    assert (2 * T * (d * p') * q = 2 * d * (T * p' * q)) by ring.
    assert (n * q * q' <= 2 * (d * p) * q') by nia.
    assert (2 * (d * p) * q' = 2 * d * (p * q')) by ring.
    rewrite HS in *. nia.
Qed.

Lemma pow_num_opp e : pow_num (- e) = pow_den e.
Proof. unfold pow_num, pow_den. by rewrite Z.opp_involutive. Qed.

Lemma pow_den_opp e : pow_den (- e) = pow_num e.
Proof. unfold pow_num, pow_den. done. Qed.

(** The relative error of one rounding is at most [2^-53]. *)
Lemma round53_error n d :
  0 < n -> 0 < d ->
  let x := frac (round53 n d) in
  0 < x.1 /\ 0 < x.2 /\
  - (n * x.2) <= 2 ^ 53 * (x.1 * d - n * x.2) <= n * x.2.
Proof.
  intros Hn Hd.
  pose proof (round53_pos n d Hn Hd) as [He [Hm _]].
  pose proof (round53_scaled_range n d Hn Hd) as Hrange. cbv zeta in Hrange.
  unfold frac. rewrite scaled_eq, pow_num_opp, pow_den_opp. cbn [fst snd].
  rewrite He. revert Hm. unfold round53.
  destruct (Z.eqb_spec n 0) as [|_]; [lia|].
  rewrite scaled_eq. cbn [mant expo].
  set (e := ilog2 n d - 52) in *.
  pose proof (pow_den_pos e). pose proof (pow_num_pos e).
  set (p := pow_den e) in *. set (q := pow_num e) in *.
  assert (Hdp : 0 < d * p) by nia.
  pose proof (round_half_even_spec (n * q) (d * p) Hdp) as [Hr _].
  cbv zeta in Hr.
  set (M := round_half_even (n * q) (d * p)) in *.
  intros HM.
  assert (H52 : 0 < 2 ^ 52) by reflexivity.
  assert (H53 : 2 ^ 53 = 2 * 2 ^ 52) by reflexivity.
  split_and!; [nia|lia| |].
  - rewrite H53. nia.
  - rewrite H53. nia.
Qed.

Lemma percent_frac k t :
  percent k t
  = (frac (round53 ((frac (round53 k t)).1 * 100) (frac (round53 k t)).2)).1
    / (frac (round53 ((frac (round53 k t)).1 * 100) (frac (round53 k t)).2)).2.
Proof.
  unfold percent, truediv, mul_int, to_int, frac.
  destruct (scaled (mant (round53 k t)) 1 (- expo (round53 k t))) as [xn xd].
  cbn [fst snd].
  by destruct (scaled (mant (round53 (xn * 100) xd)) 1
                 (- expo (round53 (xn * 100) xd))) as [yn yd].
Qed.

(** Two roundings, each with a relative error of at most [2^-53], around
    a quotient with a small numerator. *)
Lemma two_roundings k t xn xd yn yd :
  0 < k < 2 ^ 44 -> 0 < t -> 0 < xn -> 0 < xd -> 0 < yd ->
  - (k * xd) <= 2 ^ 53 * (xn * t - k * xd) <= k * xd ->
  - (xn * 100 * yd) <= 2 ^ 53 * (yn * xd - xn * 100 * yd) <= xn * 100 * yd ->
  100 * k / t - 1 <= yn / yd <= 100 * k / t.
Proof.
  intros [Hk0 Hk] Ht Hxn Hxd Hyd [Hx1 Hx2] [Hy1 Hy2].
  pose proof (Z.mul_div_le (100 * k) t Ht) as HQ1.
  pose proof (Z.mul_succ_div_gt (100 * k) t Ht) as HQ2.
  assert (HQ0 : 0 <= 100 * k / t) by (apply Z.div_pos; lia).
  set (Q := 100 * k / t) in *.
  assert (HK : 2 ^ 44 = 17592186044416) by reflexivity.
  rewrite HK in Hk. clear HK.
  assert (HE : 2 ^ 53 = 9007199254740992) by reflexivity.
  set (E := 2 ^ 53) in *. clearbody E.
  assert (HE0 : 0 < E) by lia.
  split.
  - apply Z.div_le_lower_bound; [done|].
    destruct (Z.le_gt_cases (yd * (Q - 1)) yn) as [|Hlt]; [done|exfalso].
    assert (Hc : (E - 1) * ((E - 1) * (k * xd)) * (100 * yd)
                 <= (E - 1) * (E * (xn * t)) * (100 * yd)).
    { apply Z.mul_le_mono_nonneg_r; [lia|].
      apply Z.mul_le_mono_nonneg_l; lia. }
    assert (Hd : (E * t) * ((E - 1) * (xn * 100 * yd))
                 <= (E * t) * (E * (yn * xd))).
    { apply Z.mul_le_mono_nonneg_l; lia. }
    assert (He : ((E - 1) * (E - 1) * (100 * k) * yd) * xd
                 <= (E * E * yn * t) * xd) by lia.
    apply mul_le_cancel in He; [|done].
    assert (Hf : E * E * yn * t < E * E * (yd * (Q - 1)) * t).
    { apply Z.mul_lt_mono_pos_r; [done|].
      apply Z.mul_lt_mono_pos_l; [lia|done]. }
    assert (Hg : (E - 1) * (E - 1) * (t * Q) * yd
                 <= (E - 1) * (E - 1) * (100 * k) * yd).
    { apply Z.mul_le_mono_nonneg_r; [lia|].
      apply Z.mul_le_mono_nonneg_l; [|done].
      apply Z.mul_nonneg_nonneg; lia. }
    assert (Hh : ((E - 1) * (E - 1) * Q) * (yd * t)
                 < (E * E * (Q - 1)) * (yd * t)) by lia.
    apply mul_lt_cancel in Hh; [|by apply Z.mul_pos_pos].
    assert (HQk : t * Q <= t * (100 * k)).
    { etrans; [exact HQ1|].
      rewrite <- (Z.mul_1_l (100 * k)) at 1.
      apply Z.mul_le_mono_nonneg_r; lia. }
    apply Z.mul_le_mono_pos_l in HQk; [|done].
    subst E. lia.
  - apply Z.lt_succ_r, Z.div_lt_upper_bound; [done|].
    destruct (Z.lt_ge_cases yn (yd * Z.succ Q)) as [|Hge]; [done|exfalso].
    assert (Hc : (E * xd) * (yd * Z.succ Q) <= (E * xd) * yn).
    { apply Z.mul_le_mono_nonneg_l; lia. }
    assert (Hd : (E * Z.succ Q * xd) * yd <= ((E + 1) * 100 * xn) * yd) by lia.
    apply mul_le_cancel in Hd; [|done].
    assert (He : (E * t) * (E * Z.succ Q * xd)
                 <= (E * t) * ((E + 1) * 100 * xn)).
    { apply Z.mul_le_mono_nonneg_l; lia. }
    assert (Hf : ((E + 1) * 100) * (E * (xn * t))
                 <= ((E + 1) * 100) * ((E + 1) * (k * xd))).
    { apply Z.mul_le_mono_nonneg_l; lia. }
    assert (Hg : (E * E * (t * Z.succ Q)) * xd
                 <= ((E + 1) * (E + 1) * (100 * k)) * xd) by lia.
    apply mul_le_cancel in Hg; [|done].
    assert (Hh : E * E * (100 * k + 1) <= E * E * (t * Z.succ Q)).
    { apply Z.mul_le_mono_nonneg_l; [|lia].
      apply Z.mul_nonneg_nonneg; lia. }
    subst E. lia.
Qed.

(** X28: The progress value is the percentage rounded down, or one
    less.  For a step [k] below [2^44] and a positive number of steps [t],
    [int((k / t) * 100)] in binary64 arithmetic is [floor (100 * k / t)] or
    [floor (100 * k / t) - 1]: the two roundings never push it above the
    exact percentage, and never more than one below. *)
Theorem percent_accuracy k t :
  0 <= k < 2 ^ 44 -> 0 < t ->
  100 * k / t - 1 <= percent k t <= 100 * k / t.
Proof.
  intros [Hk0 Hk] Ht.
  destruct (Z.eq_dec k 0) as [->|Hne].
  { rewrite percent_zero. change (100 * 0) with 0. rewrite Z.div_0_l; lia. }
  assert (Hpos : 0 < k) by lia.
  rewrite percent_frac.
  destruct (round53_error k t Hpos Ht) as (Hxn & Hxd & Hx).
  set (x := frac (round53 k t)) in *.
  destruct (round53_error (x.1 * 100) x.2 ltac:(lia) Hxd) as (Hyn & Hyd & Hy).
  set (y := frac (round53 (x.1 * 100) x.2)) in *.
  by apply (two_roundings k t x.1 x.2 y.1 y.2).
Qed.

End FloatAccuracy.

Lemma percent_accuracy_witness :
  (100 * 29 / 100 - 1 <= PyFloat.percent 29 100 <= 100 * 29 / 100)%Z.
Proof. apply percent_accuracy; [vm_compute; by split|lia]. Defined.

Example percent_one_below :
  PyFloat.percent 29 100 = 28%Z ∧ (100 * 29 / 100 = 29)%Z.
Proof. split; vm_compute; reflexivity. Qed.


(** ** main.py: the batch entry point, for every environment *)

Section BatchOutcome.
Context (E : Env).

(** X29: What [main] does, for every state of the world.  Without a
    non-empty [GEMINI_API_KEY] it returns at once and changes nothing.
    With one, it creates the output directory and then raises
    [AttributeError] at the call of [process_companies_from_list], a method
    the generator class does not have: no request is sent, nothing is
    written, and none of the steps 2 to 4 is reached, whatever data files
    the output directory holds. *)
Theorem main_outcome w :
  (api_key_env w = None ∨ api_key_env w = Some [] →
     Main.main E w = (Ok tt, w)) ∧
  (∀ key, api_key_env w = Some key → key ≠ [] →
     let w' := (Main.main E w).2 in
     (Main.main E w).1 = Exc (AttributeError (u "process_companies_from_list")) ∧
     w' = mkdir E Main.OUTPUT_DIR w ∧
     trace w' = trace w ∧
     requests_sent w' = requests_sent w ∧
     entries E Main.OUTPUT_DIR w' = entries E Main.OUTPUT_DIR w).
Proof.
  split.
  - intros [H|H]; unfold Main.main; unfold_M; cbn [fst snd]; by rewrite H.
  - intros key Hkey Hne. destruct key as [|c key]; [done|].
    cbv zeta. rewrite (main_stops_at_missing_method E w c key Hkey).
    cbn [fst snd]. split_and!; [done|done|..].
    + unfold mkdir. by destruct (dirs w !! _).
    + unfold mkdir. by destruct (dirs w !! _).
    + apply entries_mkdir.
Qed.

End BatchOutcome.
